(** * Curve DEX limit-order agent

    A shallow embedding of [include/limit_order.h] (the [LimitOrder] value
    object and its member functions) and of the [LimitOrderEngine] class of
    [src/curve_dex_limit_order_agent.cpp] (admission, the four time-in-force
    strategies and the dispatch loop), followed by the properties of the
    design document that concern them.  The encoding helpers of the agent
    ([encodeUint256], [encodeAddress], [hexToUint64]), the demo signer of
    [include/transaction_signer.h] and the step of [main] that creates the
    order are embedded as well, with the properties that the code itself
    shows; the last part bounds the rounding error of the arithmetic on
    amounts and follows the mock price source through the strategies.

    C++ [double] values are IEEE-754 binary64 numbers; they are modelled
    with the executable specification of the Standard Library
    ([SpecFloat], precision 53, maximal exponent 1024), so that rounding,
    infinities and NaN behave as on the machine.  [uint64_t] values are
    integers in [0, 2^64). *)

From Stdlib Require Import ZArith QArith Qround Qpower Bool List String Ascii Lia Lqa.
From Stdlib Require Import Floats.SpecFloat.
Import ListNotations.

Open Scope Z_scope.

(** ** IEEE-754 binary64 *)

Module Double.

Definition prec : Z := 53.
Definition emax : Z := 1024.

Definition double : Type := spec_float.

Definition mul : double -> double -> double := SFmul prec emax.
Definition div : double -> double -> double := SFdiv prec emax.
Definition sub : double -> double -> double := SFsub prec emax.

(** [a >= b] of C++: false as soon as one side is NaN. *)
Definition geb (a b : double) : bool := SFleb b a.

(** [static_cast<double>(n)] for an integer [n]: round to nearest, ties
    to even. *)
Definition of_uint64 (n : Z) : double := binary_normalize prec emax n 0 false.

(** A decimal literal [num / den] of the source text ([den] a power of
    ten, both below 2^53), correctly rounded: the operands convert
    exactly and the division rounds once. *)
Definition literal (num den : Z) : double := div (of_uint64 num) (of_uint64 den).

Definition zero : double := S754_zero false.
Definition one : double := Eval vm_compute in of_uint64 1.
Definition hundred : double := Eval vm_compute in of_uint64 100.
(** [1.01], the probe multiplier of the fill-or-kill liquidity check. *)
Definition one_point_01 : double := Eval vm_compute in literal 101 100.

(** The integer part of a double, rounding toward zero; NaN and the
    infinities have none. *)
Definition truncate (x : double) : option Z :=
  match x with
  | S754_zero _ => Some 0
  | S754_finite s m e =>
      let mag := if 0 <=? e then Z.pos m * 2 ^ e else Z.pos m / 2 ^ (- e) in
      Some (if s then - mag else mag)
  | S754_infinity _ | S754_nan => None
  end.

Definition uint64_max : Z := 2 ^ 64 - 1.

(** [static_cast<uint64_t>(x)]: the fractional part is discarded; the
    behaviour is undefined ([None]) when the truncated value does not fit
    the destination type. *)
Definition to_uint64 (x : double) : option Z :=
  match truncate x with
  | Some z => if (0 <=? z) && (z <=? uint64_max) then Some z else None
  | None => None
  end.

(** The mantissa with its sign. *)
Definition signed (s : bool) (m : positive) : Z := if s then Z.neg m else Z.pos m.

(** The exact rational value of a finite double (0 for the others). *)
Definition value (x : double) : Q :=
  match x with
  | S754_finite s m e =>
      if 0 <=? e then inject_Z (signed s m * 2 ^ e)
      else Qmake (signed s m) (Z.to_pos (2 ^ (- e)))
  | _ => 0%Q
  end.

Definition is_finite (x : double) : bool :=
  match x with
  | S754_zero _ | S754_finite _ _ _ => true
  | _ => false
  end.

Definition is_nan (x : double) : bool :=
  match x with S754_nan => true | _ => false end.

(** The doubles the machine can hold: canonical mantissa and exponent. *)
Definition valid (x : double) : bool := valid_binary prec emax x.

(** The integers that a double holds exactly: 53 significant bits at
    most. *)
Definition exact (n : Z) : Prop :=
  exists m k, 0 <= m < 2 ^ 53 /\ 0 <= k /\ n = m * 2 ^ k.

End Double.

Abbreviation double := Double.double.

(** ** The order (include/limit_order.h) *)

(** The four enumerators of [enum class TimeInForce].  They are the only
    policies that the program itself gives an order (the four factories,
    and [main] through them); a value forged by a cast from another
    integer is outside the model. *)
Inductive TimeInForce := GTC | GTT | IOC | FOK.

Inductive OrderStatus :=
| PENDING | ACTIVE | PARTIALLY_FILLED | FILLED | CANCELED | EXPIRED | FAILED.

Definition TimeInForce_eqb (a b : TimeInForce) : bool :=
  match a, b with
  | GTC, GTC | GTT, GTT | IOC, IOC | FOK, FOK => true
  | _, _ => false
  end.

Definition OrderStatus_eqb (a b : OrderStatus) : bool :=
  match a, b with
  | PENDING, PENDING | ACTIVE, ACTIVE | PARTIALLY_FILLED, PARTIALLY_FILLED
  | FILLED, FILLED | CANCELED, CANCELED | EXPIRED, EXPIRED | FAILED, FAILED => true
  | _, _ => false
  end.

(** [std::chrono::system_clock::time_point]: a count of clock periods since
    the epoch; a default-constructed time point is the epoch itself. *)
Definition time_point : Type := Z.

(** [std::chrono::hours(n)] in clock periods (nanoseconds). *)
Definition hours (n : Z) : Z := n * 3600 * 1000000000.

Definition two64 : Z := 2 ^ 64.

Record LimitOrder := {
  order_id : string;
  created_at : time_point;
  input_token_address : string;
  output_token_address : string;
  input_amount : Z;
  min_output_amount : Z;
  pool_address : string;
  input_token_index : Z;
  output_token_index : Z;
  limit_price : double;
  slippage_tolerance : double;
  tif_policy : TimeInForce;
  expiry_time : time_point;
  user_address : string;
  private_key : string;
  status : OrderStatus;
  filled_amount : Z;
  received_amount : Z;
  transaction_hash : string;
  failure_reason : string;
  last_price_check : time_point;
  last_quoted_output : Z;
  price_check_count : Z
}.

(** Field assignments. *)

Definition set_status (v : OrderStatus) (o : LimitOrder) : LimitOrder :=
  {| order_id := order_id o; created_at := created_at o;
     input_token_address := input_token_address o;
     output_token_address := output_token_address o;
     input_amount := input_amount o; min_output_amount := min_output_amount o;
     pool_address := pool_address o;
     input_token_index := input_token_index o;
     output_token_index := output_token_index o;
     limit_price := limit_price o; slippage_tolerance := slippage_tolerance o;
     tif_policy := tif_policy o; expiry_time := expiry_time o;
     user_address := user_address o; private_key := private_key o;
     status := v;
     filled_amount := filled_amount o; received_amount := received_amount o;
     transaction_hash := transaction_hash o; failure_reason := failure_reason o;
     last_price_check := last_price_check o;
     last_quoted_output := last_quoted_output o;
     price_check_count := price_check_count o |}.

Definition set_failure_reason (v : string) (o : LimitOrder) : LimitOrder :=
  {| order_id := order_id o; created_at := created_at o;
     input_token_address := input_token_address o;
     output_token_address := output_token_address o;
     input_amount := input_amount o; min_output_amount := min_output_amount o;
     pool_address := pool_address o;
     input_token_index := input_token_index o;
     output_token_index := output_token_index o;
     limit_price := limit_price o; slippage_tolerance := slippage_tolerance o;
     tif_policy := tif_policy o; expiry_time := expiry_time o;
     user_address := user_address o; private_key := private_key o;
     status := status o;
     filled_amount := filled_amount o; received_amount := received_amount o;
     transaction_hash := transaction_hash o; failure_reason := v;
     last_price_check := last_price_check o;
     last_quoted_output := last_quoted_output o;
     price_check_count := price_check_count o |}.

Definition set_filled_amount (v : Z) (o : LimitOrder) : LimitOrder :=
  {| order_id := order_id o; created_at := created_at o;
     input_token_address := input_token_address o;
     output_token_address := output_token_address o;
     input_amount := input_amount o; min_output_amount := min_output_amount o;
     pool_address := pool_address o;
     input_token_index := input_token_index o;
     output_token_index := output_token_index o;
     limit_price := limit_price o; slippage_tolerance := slippage_tolerance o;
     tif_policy := tif_policy o; expiry_time := expiry_time o;
     user_address := user_address o; private_key := private_key o;
     status := status o;
     filled_amount := v; received_amount := received_amount o;
     transaction_hash := transaction_hash o; failure_reason := failure_reason o;
     last_price_check := last_price_check o;
     last_quoted_output := last_quoted_output o;
     price_check_count := price_check_count o |}.

Definition set_received_amount (v : Z) (o : LimitOrder) : LimitOrder :=
  {| order_id := order_id o; created_at := created_at o;
     input_token_address := input_token_address o;
     output_token_address := output_token_address o;
     input_amount := input_amount o; min_output_amount := min_output_amount o;
     pool_address := pool_address o;
     input_token_index := input_token_index o;
     output_token_index := output_token_index o;
     limit_price := limit_price o; slippage_tolerance := slippage_tolerance o;
     tif_policy := tif_policy o; expiry_time := expiry_time o;
     user_address := user_address o; private_key := private_key o;
     status := status o;
     filled_amount := filled_amount o; received_amount := v;
     transaction_hash := transaction_hash o; failure_reason := failure_reason o;
     last_price_check := last_price_check o;
     last_quoted_output := last_quoted_output o;
     price_check_count := price_check_count o |}.

Definition set_transaction_hash (v : string) (o : LimitOrder) : LimitOrder :=
  {| order_id := order_id o; created_at := created_at o;
     input_token_address := input_token_address o;
     output_token_address := output_token_address o;
     input_amount := input_amount o; min_output_amount := min_output_amount o;
     pool_address := pool_address o;
     input_token_index := input_token_index o;
     output_token_index := output_token_index o;
     limit_price := limit_price o; slippage_tolerance := slippage_tolerance o;
     tif_policy := tif_policy o; expiry_time := expiry_time o;
     user_address := user_address o; private_key := private_key o;
     status := status o;
     filled_amount := filled_amount o; received_amount := received_amount o;
     transaction_hash := v; failure_reason := failure_reason o;
     last_price_check := last_price_check o;
     last_quoted_output := last_quoted_output o;
     price_check_count := price_check_count o |}.

Definition set_expiry_time (v : time_point) (o : LimitOrder) : LimitOrder :=
  {| order_id := order_id o; created_at := created_at o;
     input_token_address := input_token_address o;
     output_token_address := output_token_address o;
     input_amount := input_amount o; min_output_amount := min_output_amount o;
     pool_address := pool_address o;
     input_token_index := input_token_index o;
     output_token_index := output_token_index o;
     limit_price := limit_price o; slippage_tolerance := slippage_tolerance o;
     tif_policy := tif_policy o; expiry_time := v;
     user_address := user_address o; private_key := private_key o;
     status := status o;
     filled_amount := filled_amount o; received_amount := received_amount o;
     transaction_hash := transaction_hash o; failure_reason := failure_reason o;
     last_price_check := last_price_check o;
     last_quoted_output := last_quoted_output o;
     price_check_count := price_check_count o |}.

Definition set_pool (pool : string) (i j : Z) (o : LimitOrder) : LimitOrder :=
  {| order_id := order_id o; created_at := created_at o;
     input_token_address := input_token_address o;
     output_token_address := output_token_address o;
     input_amount := input_amount o; min_output_amount := min_output_amount o;
     pool_address := pool;
     input_token_index := i;
     output_token_index := j;
     limit_price := limit_price o; slippage_tolerance := slippage_tolerance o;
     tif_policy := tif_policy o; expiry_time := expiry_time o;
     user_address := user_address o; private_key := private_key o;
     status := status o;
     filled_amount := filled_amount o; received_amount := received_amount o;
     transaction_hash := transaction_hash o; failure_reason := failure_reason o;
     last_price_check := last_price_check o;
     last_quoted_output := last_quoted_output o;
     price_check_count := price_check_count o |}.

(** [LimitOrder::LimitOrder].  [now] is the reading of the system clock
    taken by the member initialiser of [created_at].  The cast that
    computes [min_output_amount] has undefined behaviour when the product
    does not fit [uint64_t]; no order is built then.  The pool address and
    the transaction hash and failure reason start empty, the time points
    not mentioned start at the epoch; the two token indices are left
    indeterminate by the constructor (0 here) and are assigned by the
    caller. *)
Definition new_LimitOrder (now : time_point)
    (id input_token output_token : string) (input_amt : Z)
    (limit_rate slippage : double) (tif : TimeInForce)
    (user_addr priv_key : string) : option LimitOrder :=
  match Double.to_uint64 (Double.mul (Double.of_uint64 input_amt) limit_rate) with
  | None => None
  | Some min_out =>
      Some {| order_id := id; created_at := now;
              input_token_address := input_token;
              output_token_address := output_token;
              input_amount := input_amt; min_output_amount := min_out;
              pool_address := EmptyString;
              input_token_index := 0; output_token_index := 0;
              limit_price := limit_rate; slippage_tolerance := slippage;
              tif_policy := tif;
              expiry_time :=
                if TimeInForce_eqb tif GTT then now + hours 1 else 0;
              user_address := user_addr; private_key := priv_key;
              status := PENDING;
              filled_amount := 0; received_amount := 0;
              transaction_hash := EmptyString; failure_reason := EmptyString;
              last_price_check := 0;
              last_quoted_output := 0; price_check_count := 0 |}
  end.

Definition getFillPercentage (o : LimitOrder) : double :=
  if input_amount o =? 0 then Double.zero
  else Double.mul
         (Double.div (Double.of_uint64 (filled_amount o))
                     (Double.of_uint64 (input_amount o)))
         Double.hundred.

Definition isPriceMet (o : LimitOrder) (current_output : Z) : bool :=
  if input_amount o =? 0 then false
  else
    let current_rate :=
      Double.div (Double.of_uint64 current_output)
                 (Double.of_uint64 (input_amount o)) in
    Double.geb current_rate (limit_price o).

Definition isPriceMetForAmount (o : LimitOrder) (current_output check_amount : Z) : bool :=
  if check_amount =? 0 then false
  else
    let current_rate :=
      Double.div (Double.of_uint64 current_output)
                 (Double.of_uint64 check_amount) in
    Double.geb current_rate (limit_price o).

(** The subtraction is on [uint64_t] and wraps around. *)
Definition getMaxFillableAmount (o : LimitOrder) (current_output : Z) : Z :=
  if input_amount o =? 0 then 0
  else
    let remaining_amount := (input_amount o - filled_amount o) mod two64 in
    if remaining_amount =? 0 then 0
    else if isPriceMet o current_output then remaining_amount
    else 0.

Definition getMinOutputWithSlippage (o : LimitOrder) (current_market_output : Z) : option Z :=
  Double.to_uint64
    (Double.mul (Double.of_uint64 current_market_output)
                (Double.sub Double.one (slippage_tolerance o))).

Definition is_empty (s : string) : bool :=
  match s with EmptyString => true | _ => false end.

Definition updateStatus (new_status : OrderStatus) (reason : string) (o : LimitOrder) : LimitOrder :=
  let o1 := set_status new_status o in
  if negb (is_empty reason) then set_failure_reason reason o1 else o1.

Definition setExpiryTime (expiry : time_point) (o : LimitOrder) : LimitOrder :=
  if TimeInForce_eqb (tif_policy o) GTT then set_expiry_time expiry o else o.


Definition getStatusString (o : LimitOrder) : string :=
  match status o with
  | PENDING => "PENDING"
  | ACTIVE => "ACTIVE"
  | PARTIALLY_FILLED => "PARTIALLY_FILLED"
  | FILLED => "FILLED"
  | CANCELED => "CANCELED"
  | EXPIRED => "EXPIRED"
  | FAILED => "FAILED"
  end.

(** ** The environment of an order

    The price source ([CurvePool::get_dy]), the settlement submitter
    ([CurvePool::executeSwap]), the system clock and the process
    environment are outside the program.  They are oracles: the answer to
    the n-th interaction of a run may be anything, including an exception
    (every exception thrown there derives from [std::exception]).  Console
    output is not modelled. *)

Inductive answer (A : Type) : Type :=
| Returns (a : A)
| Throws (what : string).
Arguments Returns {A} a.
Arguments Throws {A} what.

Record Env := {
  now : nat -> time_point;
  get_dy : nat -> string -> Z -> Z -> Z -> answer Z;
  executeSwap : nat -> string -> Z -> Z -> Z -> Z -> answer string;
  skip_liquidity_check : bool
}.

(** What a run asked of the pool, most recent first. *)
Inductive event :=
| Quoted (pool : string) (i j dx : Z)
| Swapped (pool : string) (i j dx min_dy : Z).

Record World := { tick : nat; log : list event }.

Definition advance (w : World) : World :=
  {| tick := S (tick w); log := log w |}.

Definition record_event (ev : event) (w : World) : World :=
  {| tick := S (tick w); log := ev :: log w |}.

Definition is_swap (ev : event) : bool :=
  match ev with Swapped _ _ _ _ _ => true | Quoted _ _ _ _ => false end.

Definition swaps (w : World) : list event := filter is_swap (log w).

(** ** Computations over a mutable state, with exceptions

    A member function or a strategy works on the order it was handed (by
    reference) and on the world.  It returns, or leaves by an exception
    (the mutations made so far stay), or runs into undefined behaviour, or
    is still looping when the fuel of the model runs out. *)

Inductive outcome (St A : Type) : Type :=
| Done (a : A) (s : St) (w : World)
| Raised (what : string) (s : St) (w : World)
| Undefined
| OutOfFuel.
Arguments Done {St A} a s w.
Arguments Raised {St A} what s w.
Arguments Undefined {St A}.
Arguments OutOfFuel {St A}.

Definition M (A : Type) : Type := LimitOrder -> World -> outcome LimitOrder A.

Definition ret {A} (a : A) : M A := fun o w => Done a o w.

Definition bind {A B} (m : M A) (k : A -> M B) : M B :=
  fun o w =>
    match m o w with
    | Done a o' w' => k a o' w'
    | Raised what o' w' => Raised what o' w'
    | Undefined => Undefined
    | OutOfFuel => OutOfFuel
    end.

Declare Scope order_scope.
Delimit Scope order_scope with order.
Notation "x <- c1 ;; c2" := (bind c1 (fun x => c2))
  (at level 61, c1 at next level, right associativity) : order_scope.
Notation "c1 ;; c2" := (bind c1 (fun _ => c2))
  (at level 61, right associativity) : order_scope.
Open Scope order_scope.

(** [try { body } catch (const std::exception &e) { handler(e.what()) }] *)
Definition try_catch {A} (body : M A) (handler : string -> M A) : M A :=
  fun o w =>
    match body o w with
    | Raised what o' w' => handler what o' w'
    | r => r
    end.

(** The order the function was called on. *)
Definition this : M LimitOrder := fun o w => Done o o w.

Definition modify (f : LimitOrder -> LimitOrder) : M unit :=
  fun o w => Done tt (f o) w.

(** A value whose computation may have undefined behaviour. *)
Definition defined {A} (x : option A) : M A :=
  fun o w => match x with Some a => Done a o w | None => Undefined end.

Definition out_of_fuel {A} : M A := fun _ _ => OutOfFuel.

(** [std::chrono::system_clock::now()] *)
Definition system_clock_now (env : Env) : M time_point :=
  fun o w => Done (now env (tick w)) o (advance w).

(** [std::this_thread::sleep_for]: time passes, nothing else. *)
Definition sleep_for (seconds : Z) : M unit :=
  fun o w => Done tt o (advance w).

(** [CurvePool::get_dy] of the pool at [pool]. *)
Definition pool_get_dy (env : Env) (pool : string) (i j dx : Z) : M Z :=
  fun o w =>
    let w' := record_event (Quoted pool i j dx) w in
    match get_dy env (tick w) pool i j dx with
    | Returns dy => Done dy o w'
    | Throws what => Raised what o w'
    end.

(** [CurvePool::executeSwap] of the pool at [pool]. *)
Definition pool_executeSwap (env : Env) (pool : string) (i j dx min_dy : Z) : M string :=
  fun o w =>
    let w' := record_event (Swapped pool i j dx min_dy) w in
    match executeSwap env (tick w) pool i j dx min_dy with
    | Returns tx_hash => Done tx_hash o w'
    | Throws what => Raised what o w'
    end.

(** ** Member functions that read the clock *)

Definition isExpired (env : Env) : M bool :=
  o <- this ;;
  if negb (TimeInForce_eqb (tif_policy o) GTT) then ret false
  else t <- system_clock_now env ;; ret (expiry_time o <=? t).

(** [status == ACTIVE && !isExpired()], the right operand evaluated only
    when the left one holds. *)
Definition isExecutable (env : Env) : M bool :=
  o <- this ;;
  if OrderStatus_eqb (status o) ACTIVE then
    expired <- isExpired env ;; ret (negb expired)
  else ret false.

Definition set_price_check (t : time_point) (quoted_output : Z) (o : LimitOrder) : LimitOrder :=
  {| order_id := order_id o; created_at := created_at o;
     input_token_address := input_token_address o;
     output_token_address := output_token_address o;
     input_amount := input_amount o; min_output_amount := min_output_amount o;
     pool_address := pool_address o;
     input_token_index := input_token_index o;
     output_token_index := output_token_index o;
     limit_price := limit_price o; slippage_tolerance := slippage_tolerance o;
     tif_policy := tif_policy o; expiry_time := expiry_time o;
     user_address := user_address o; private_key := private_key o;
     status := status o;
     filled_amount := filled_amount o; received_amount := received_amount o;
     transaction_hash := transaction_hash o; failure_reason := failure_reason o;
     last_price_check := t;
     last_quoted_output := quoted_output;
     price_check_count := price_check_count o + 1 |}.

(** The counter is an [int].  The model keeps the number of recorded
    checks as a mathematical integer: it is the value of the field as long
    as it stays below 2^31 - 1, where the increment of the source
    overflows.  Whatever is stated below about the value of the counter is
    stated for orders within that range. *)
Definition recordPriceCheck (env : Env) (quoted_output : Z) : M unit :=
  t <- system_clock_now env ;;
  modify (set_price_check t quoted_output).

(** ** The strategies (class LimitOrderEngine)

    Each strategy first builds a [CurvePool] on the pool address the order
    carries at that moment. *)

(** How the body of a loop, or a nested block, hands control back: it goes
    on with the statement that follows, or it executed [return]. *)
Inductive flow (A : Type) : Type :=
| Next (a : A)
| Return.
Arguments Next {A} a.
Arguments Return {A}.

Definition max_checks : Z := 10.

(** One turn of the [while] of [executeGTC]: the [try] block and its
    handler.  [check_count] is the local counter. *)
Definition executeGTC_body (env : Env) (pool : string) (check_count : Z) : M (flow Z) :=
  try_catch
    (o <- this ;;
     current_output <-
       pool_get_dy env pool (input_token_index o) (output_token_index o) (input_amount o) ;;
     recordPriceCheck env current_output ;;
     o <- this ;;
     if isPriceMet o current_output then
       (min_output <- defined (getMinOutputWithSlippage o current_output) ;;
        tx_hash <-
          pool_executeSwap env pool (input_token_index o) (output_token_index o)
                           (input_amount o) min_output ;;
        modify (set_transaction_hash tx_hash) ;;
        modify (fun o => set_filled_amount (input_amount o) o) ;;
        modify (set_received_amount current_output) ;;
        modify (updateStatus FILLED "") ;;
        ret Return)
     else
       (sleep_for 2 ;;
        ret (Next (check_count + 1))))
    (fun _ => sleep_for 5 ;; ret (Next check_count)).

Fixpoint executeGTC_loop (fuel : nat) (env : Env) (pool : string) (check_count : Z)
    : M (flow Z) :=
  match fuel with
  | O => out_of_fuel
  | S fuel' =>
      executable <- isExecutable env ;;
      if executable && (check_count <? max_checks) then
        (step <- executeGTC_body env pool check_count ;;
         match step with
         | Return => ret Return
         | Next check_count' => executeGTC_loop fuel' env pool check_count'
         end)
      else ret (Next check_count)
  end.

Definition executeGTC (fuel : nat) (env : Env) : M unit :=
  o <- this ;;
  let pool := pool_address o in
  after <- executeGTC_loop fuel env pool 0 ;;
  match after with
  | Return => ret tt
  | Next check_count =>
      if max_checks <=? check_count then
        modify (updateStatus CANCELED "Demo limit reached")
      else ret tt
  end.

(** One turn of the [while] of [executeGTT]. *)
Definition executeGTT_body (env : Env) (pool : string) : M (flow unit) :=
  try_catch
    (o <- this ;;
     current_output <-
       pool_get_dy env pool (input_token_index o) (output_token_index o) (input_amount o) ;;
     recordPriceCheck env current_output ;;
     o <- this ;;
     if isPriceMet o current_output then
       (min_output <- defined (getMinOutputWithSlippage o current_output) ;;
        tx_hash <-
          pool_executeSwap env pool (input_token_index o) (output_token_index o)
                           (input_amount o) min_output ;;
        modify (set_transaction_hash tx_hash) ;;
        modify (fun o => set_filled_amount (input_amount o) o) ;;
        modify (updateStatus FILLED "") ;;
        ret Return)
     else
       (sleep_for 2 ;;
        ret (Next tt)))
    (fun _ => ret (Next tt)).

Fixpoint executeGTT_loop (fuel : nat) (env : Env) (pool : string) : M (flow unit) :=
  match fuel with
  | O => out_of_fuel
  | S fuel' =>
      executable <- isExecutable env ;;
      if executable then
        (expired <- isExpired env ;;
         if negb expired then
           (step <- executeGTT_body env pool ;;
            match step with
            | Return => ret Return
            | Next _ => executeGTT_loop fuel' env pool
            end)
         else ret (Next tt))
      else ret (Next tt)
  end.

Definition executeGTT (fuel : nat) (env : Env) : M unit :=
  o <- this ;;
  let pool := pool_address o in
  after <- executeGTT_loop fuel env pool ;;
  match after with
  | Return => ret tt
  | Next _ =>
      expired <- isExpired env ;;
      if expired then modify (updateStatus EXPIRED "Order expired")
      else ret tt
  end.

Definition executeIOC (env : Env) : M unit :=
  o <- this ;;
  let pool := pool_address o in
  try_catch
    (o <- this ;;
     current_output <-
       pool_get_dy env pool (input_token_index o) (output_token_index o) (input_amount o) ;;
     recordPriceCheck env current_output ;;
     o <- this ;;
     (* the value printed as "Expected output" *)
     expected_output <-
       defined (Double.to_uint64
                  (Double.mul (Double.of_uint64 (input_amount o)) (limit_price o))) ;;
     if isPriceMet o current_output then
       (min_output <- defined (getMinOutputWithSlippage o current_output) ;;
        tx_hash <-
          pool_executeSwap env pool (input_token_index o) (output_token_index o)
                           (input_amount o) min_output ;;
        modify (set_transaction_hash tx_hash) ;;
        modify (fun o => set_filled_amount (input_amount o) o) ;;
        modify (set_received_amount current_output) ;;
        modify (updateStatus FILLED ""))
     else
       (let max_fillable := getMaxFillableAmount o current_output in
        if 0 <? max_fillable then
          (partial_output <-
             pool_get_dy env pool (input_token_index o) (output_token_index o) max_fillable ;;
           min_partial_output <- defined (getMinOutputWithSlippage o partial_output) ;;
           tx_hash <-
             pool_executeSwap env pool (input_token_index o) (output_token_index o)
                              max_fillable min_partial_output ;;
           modify (set_transaction_hash tx_hash) ;;
           modify (set_filled_amount max_fillable) ;;
           modify (set_received_amount partial_output) ;;
           modify (updateStatus PARTIALLY_FILLED "Partial fill executed"))
        else
          modify (updateStatus CANCELED "Price not met for any execution")))
    (fun what => modify (updateStatus FAILED what)).

(** The liquidity probe of [executeFOK]: the block guarded by
    [liquidity_check_enabled]. *)
Definition executeFOK_liquidity (env : Env) (pool : string) : M (flow unit) :=
  o <- this ;;
  test_amount <-
    defined (Double.to_uint64
               (Double.mul (Double.of_uint64 (input_amount o)) Double.one_point_01)) ;;
  try_catch
    (test_output <-
       pool_get_dy env pool (input_token_index o) (output_token_index o) test_amount ;;
     if 0 <? test_output then ret (Next tt)
     else
       (modify (updateStatus CANCELED "FOK: Insufficient liquidity for full order") ;;
        ret Return))
    (fun _ => ret (Next tt)).

Definition executeFOK (env : Env) : M unit :=
  o <- this ;;
  let pool := pool_address o in
  try_catch
    (o <- this ;;
     current_output <-
       pool_get_dy env pool (input_token_index o) (output_token_index o) (input_amount o) ;;
     recordPriceCheck env current_output ;;
     o <- this ;;
     if negb (isPriceMet o current_output) then
       modify (updateStatus CANCELED "FOK: Price not met, order killed")
     else
       (let liquidity_check_enabled := negb (skip_liquidity_check env) in
        step <-
          (if liquidity_check_enabled then executeFOK_liquidity env pool
           else ret (Next tt)) ;;
        match step with
        | Return => ret tt
        | Next _ =>
            o <- this ;;
            min_output <- defined (getMinOutputWithSlippage o current_output) ;;
            tx_hash <-
              pool_executeSwap env pool (input_token_index o) (output_token_index o)
                               (input_amount o) min_output ;;
            modify (set_transaction_hash tx_hash) ;;
            modify (fun o => set_filled_amount (input_amount o) o) ;;
            modify (set_received_amount current_output) ;;
            modify (updateStatus FILLED "")
        end))
    (fun what => modify (updateStatus FAILED what)).

(** ** The engine *)

Record LimitOrderEngine := { active_orders : list LimitOrder }.

Definition new_LimitOrderEngine : LimitOrderEngine := {| active_orders := [] |}.

(** [addOrder]: mark the order active and push it at the back. *)
Definition addOrder (order : LimitOrder) (engine : LimitOrderEngine) : LimitOrderEngine :=
  let order := updateStatus ACTIVE "" order in
  {| active_orders := active_orders engine ++ [order] |}.

(** The body of the [for] of [processOrders], on one order. *)
Definition processOrders_body (fuel : nat) (env : Env) : M unit :=
  executable <- isExecutable env ;;
  if negb executable then ret tt
  else
    (o <- this ;;
     match tif_policy o with
     | GTC => executeGTC fuel env
     | GTT => executeGTT fuel env
     | IOC => executeIOC env
     | FOK => executeFOK env
     end).

(** The [for] itself: the orders are visited front to back and mutated in
    place; an exception that escapes a strategy ends the traversal. *)
Fixpoint processOrders_for (fuel : nat) (env : Env) (orders : list LimitOrder) (w : World)
    : outcome (list LimitOrder) unit :=
  match orders with
  | [] => Done tt [] w
  | order :: rest =>
      match processOrders_body fuel env order w with
      | Done _ order' w' =>
          match processOrders_for fuel env rest w' with
          | Done _ rest' w'' => Done tt (order' :: rest') w''
          | Raised what rest' w'' => Raised what (order' :: rest') w''
          | Undefined => Undefined
          | OutOfFuel => OutOfFuel
          end
      | Raised what order' w' => Raised what (order' :: rest) w'
      | Undefined => Undefined
      | OutOfFuel => OutOfFuel
      end
  end.

Definition processOrders (fuel : nat) (env : Env) (engine : LimitOrderEngine) (w : World)
    : outcome LimitOrderEngine unit :=
  match processOrders_for fuel env (active_orders engine) w with
  | Done _ orders w' => Done tt {| active_orders := orders |} w'
  | Raised what orders w' => Raised what {| active_orders := orders |} w'
  | Undefined => Undefined
  | OutOfFuel => OutOfFuel
  end.

(** ** Hexadecimal text (src/curve_dex_limit_order_agent.cpp)

    The encoding helpers work on [std::string] values; a string is a
    sequence of bytes, [std::hex] prints an unsigned integer in lower-case
    hexadecimal without leading zeros, and [std::setfill('0')] with
    [std::setw(n)] pads the next item on the left up to [n] characters. *)

(** The digit of a value below 16, as [std::hex] prints it. *)
Definition hex_digit (d : Z) : ascii :=
  match d with
  | 0 => "0" | 1 => "1" | 2 => "2" | 3 => "3" | 4 => "4"
  | 5 => "5" | 6 => "6" | 7 => "7" | 8 => "8" | 9 => "9"
  | 10 => "a" | 11 => "b" | 12 => "c" | 13 => "d" | 14 => "e"
  | _ => "f"
  end%char.

(** The value of a hexadecimal digit of either case: the characters of
    ["0123456789abcdefABCDEF"]. *)
Definition hex_value (c : ascii) : option Z :=
  let code := Z.of_N (N_of_ascii c) in
  if (48 <=? code) && (code <=? 57) then Some (code - 48)        (* 0 .. 9 *)
  else if (97 <=? code) && (code <=? 102) then Some (code - 87)  (* a .. f *)
  else if (65 <=? code) && (code <=? 70) then Some (code - 55)   (* A .. F *)
  else None.

(** The digits of [n], least significant first, pushed in front of
    [acc]; [fuel] bounds their number. *)
Fixpoint hex_digits (fuel : nat) (n : Z) (acc : string) : string :=
  match fuel with
  | O => acc
  | S fuel' =>
      let acc' := String (hex_digit (n mod 16)) acc in
      if n / 16 =? 0 then acc' else hex_digits fuel' (n / 16) acc'
  end.

(** [stream << std::hex << n] for a [uint64_t] (at most 16 digits). *)
Definition to_hex (n : Z) : string := hex_digits 16 n EmptyString.

(** [std::string(n, c)] *)
Fixpoint replicate (n : nat) (c : ascii) : string :=
  match n with
  | O => EmptyString
  | S n' => String c (replicate n' c)
  end.

(** An item printed under [std::setfill('0') << std::setw(width)]. *)
Definition pad_left (width : nat) (s : string) : string :=
  String.append (replicate (width - String.length s) "0"%char) s.

(** [s.substr(pos)]: from [pos] to the end. *)
Definition substr_from (pos : nat) (s : string) : string :=
  substring pos (String.length s - pos) s.

Definition encodeUint256 (value : Z) : string := pad_left 64 (to_hex value).

Definition encodeAddress (address : string) : string :=
  let clean_addr :=
    if String.eqb (substring 0 2 address) "0x" then substr_from 2 address
    else address in
  String.append (replicate 24 "0"%char) clean_addr.

(** [s.find_first_not_of("0123456789abcdefABCDEF") == npos] *)
Fixpoint all_hex (s : string) : bool :=
  match s with
  | EmptyString => true
  | String c rest =>
      match hex_value c with
      | Some _ => all_hex rest
      | None => false
      end
  end.

(** The number that the digits of [s] spell after the digits already
    read, whose value is [acc]; no number when a character is not a
    digit. *)
Fixpoint hex_number_from (acc : Z) (s : string) : option Z :=
  match s with
  | EmptyString => Some acc
  | String c rest =>
      match hex_value c with
      | Some d => hex_number_from (acc * 16 + d) rest
      | None => None
      end
  end.

Definition hex_number (s : string) : option Z := hex_number_from 0 s.

(** [std::stoull(s, nullptr, 16)] on a string of hexadecimal digits, the
    only strings that [hexToUint64] passes to it: the number they spell.
    It throws ([None]) when there is no digit ([std::invalid_argument]) or
    when the number does not fit 64 bits ([std::out_of_range]). *)
Definition stoull16 (s : string) : option Z :=
  match s with
  | EmptyString => None
  | _ =>
      match hex_number s with
      | Some v => if v <=? Double.uint64_max then Some v else None
      | None => None
      end
  end.

Definition hexToUint64 (hex : string) : Z :=
  let cleanHex :=
    if String.eqb (substring 0 2 hex) "0x" then substr_from 2 hex else hex in
  if is_empty cleanHex || String.eqb cleanHex "0" || negb (all_hex cleanHex) then 0
  else
    let cleanHex :=
      if (16 <? String.length cleanHex)%nat
      then substr_from (String.length cleanHex - 16) cleanHex
      else cleanHex in
    match stoull16 cleanHex with
    | Some v => v
    | None => 0
    end.

(** [static_cast<uint64_t>(i)] for an [int32_t]: a negative index wraps
    around. *)
Definition uint64_of_int32 (i : Z) : Z := i mod two64.

(** The [call_data] that [CurvePool::get_dy] sends with [eth_call]: the
    selector of [get_dy(int128,int128,uint256)] and its three
    arguments. *)
Definition get_dy_call_data (i j dx : Z) : string :=
  String.append "0x5e0d443f"
    (String.append (encodeUint256 (uint64_of_int32 i))
       (String.append (encodeUint256 (uint64_of_int32 j)) (encodeUint256 dx))).

(** [CurvePool::get_dy] under [USE_MOCK_PRICING=1]: the quote is the
    amount times 0.999, truncated.  No request leaves the process. *)
Definition mock_rate : double := Eval vm_compute in Double.literal 999 1000.

Definition get_dy_mock (dx : Z) : option Z :=
  Double.to_uint64 (Double.mul (Double.of_uint64 dx) mock_rate).

(** ** The demo signer (include/transaction_signer.h)

    Bytes are integers in [0, 256). *)

Record EthereumTransaction := {
  nonce : Z;
  gas_price : Z;
  gas_limit : Z;
  to_address : string;
  value : Z;
  data : string;
  chain_id : Z
}.

(** [EthereumTransaction::EthereumTransaction] *)
Definition new_EthereumTransaction : EthereumTransaction :=
  {| nonce := 0; gas_price := 20000000000; gas_limit := 200000;
     to_address := EmptyString; value := 0; data := EmptyString;
     chain_id := 11155111 |}.

Record TransactionSigner := { signer_private_key : string }.

(** One byte under [std::hex << std::setfill('0') << std::setw(2)]. *)
Definition byte_hex (b : Z) : string := pad_left 2 (to_hex b).

Fixpoint concat_hex (bytes : list Z) : string :=
  match bytes with
  | [] => EmptyString
  | b :: rest => String.append (byte_hex b) (concat_hex rest)
  end.

Definition bytesToHex (bytes : list Z) : string :=
  String.append "0x" (concat_hex bytes).

(** The bytes [i], [i + 1], ... of the demo hash, [n] of them: a
    character of the data xor its position counted from 1, truncated to a
    byte; 0 once the data is exhausted. *)
Fixpoint simpleHash_from (i : Z) (n : nat) (data : string) : list Z :=
  match n with
  | O => []
  | S n' =>
      match data with
      | EmptyString => 0 :: simpleHash_from (i + 1) n' EmptyString
      | String c rest =>
          Z.lxor (Z.of_N (N_of_ascii c)) (i + 1) mod 256
            :: simpleHash_from (i + 1) n' rest
      end
  end.

Definition simpleHash (data : string) : list Z := simpleHash_from 0 32 data.

(** The integers are printed under [std::hex], which stays in force for
    the whole stream. *)
Definition encodeTransaction (tx : EthereumTransaction) : string :=
  String.append (to_hex (nonce tx))
    (String.append ":"
       (String.append (to_hex (gas_price tx))
          (String.append ":"
             (String.append (to_hex (gas_limit tx))
                (String.append ":"
                   (String.append (to_address tx)
                      (String.append ":"
                         (String.append (to_hex (value tx))
                            (String.append ":"
                               (String.append (data tx)
                                  (String.append ":" (to_hex (chain_id tx))))))))))))).

(** The 65 bytes that stand for a signature: the bytes of the hash xor
    [0xAA], the same bytes xor [0x55], and 27; each one is stored in a
    [uint8_t]. *)
Definition signature_of (hash : list Z) : list Z :=
  map (fun h => Z.lxor h 170 mod 256) hash
    ++ map (fun h => Z.lxor h 85 mod 256) hash ++ [27].

Definition signTransaction (signer : TransactionSigner) (tx : EthereumTransaction) : string :=
  let encoded := encodeTransaction tx in
  let hash := simpleHash encoded in
  let signature := signature_of hash in
  String.append (bytesToHex signature) encoded.

Definition getCurrentNonce (signer : TransactionSigner) (address : string) : Z := 42.

Definition createSwapTransaction (signer : TransactionSigner)
    (pool_address function_data from_address : string) : string :=
  let tx := new_EthereumTransaction in
  let tx :=
    {| nonce := getCurrentNonce signer from_address;
       gas_price := gas_price tx;
       gas_limit := 300000;
       to_address := pool_address;
       value := value tx;
       data := function_data;
       chain_id := chain_id tx |} in
  signTransaction signer tx.

Definition broadcastTransaction (signer : TransactionSigner) (raw_tx : string) : string :=
  String.append "0x" (substring 0 64 raw_tx).

(** ** Address checks (include/sepolia_config.h) *)

Definition isSepoliaAddress (address : string) : bool :=
  (String.length address =? 42)%nat && String.eqb (substring 0 2 address) "0x".

(** [OrderFactory]: the four factories call the constructor; the GTT one
    then sets the expiry it was given. *)
Module OrderFactory.

Definition createGTC (now : time_point) (id input_token output_token : string)
    (input_amount : Z) (limit_price slippage : double)
    (user_address private_key : string) : option LimitOrder :=
  new_LimitOrder now id input_token output_token input_amount limit_price slippage
                 GTC user_address private_key.

Definition createGTT (now : time_point) (id input_token output_token : string)
    (input_amount : Z) (limit_price slippage : double) (expiry : time_point)
    (user_address private_key : string) : option LimitOrder :=
  option_map (setExpiryTime expiry)
    (new_LimitOrder now id input_token output_token input_amount limit_price slippage
                    GTT user_address private_key).

Definition createIOC (now : time_point) (id input_token output_token : string)
    (input_amount : Z) (limit_price slippage : double)
    (user_address private_key : string) : option LimitOrder :=
  new_LimitOrder now id input_token output_token input_amount limit_price slippage
                 IOC user_address private_key.

Definition createFOK (now : time_point) (id input_token output_token : string)
    (input_amount : Z) (limit_price slippage : double)
    (user_address private_key : string) : option LimitOrder :=
  new_LimitOrder now id input_token output_token input_amount limit_price slippage
                 FOK user_address private_key.

End OrderFactory.

(** ** The order that [main] builds (src/curve_dex_limit_order_agent.cpp) *)




(** ** Vocabulary of the properties *)

(** The terminal states of the lifecycle. *)
Definition terminal (s : OrderStatus) : bool :=
  match s with
  | FILLED | PARTIALLY_FILLED | CANCELED | EXPIRED | FAILED => true
  | PENDING | ACTIVE => false
  end.

(** The states in which an immediate-or-cancel run can end. *)
Definition ioc_final (s : OrderStatus) : bool :=
  match s with
  | FILLED | CANCELED | FAILED => true
  | _ => false
  end.

(** [mentions needle text]: [needle] occurs in [text]. *)
Fixpoint mentions (needle text : string) : bool :=
  if String.prefix needle text then true
  else match text with
       | EmptyString => false
       | String _ rest => mentions needle rest
       end.

(** Malformed terms in the sense of the design document: nothing to swap,
    or a negative slippage tolerance. *)
Definition malformed (o : LimitOrder) : bool :=
  (input_amount o =? 0) || SFltb (slippage_tolerance o) Double.zero.

(** Everything but [status] and [failure_reason] is the same in [o] and
    [o']. *)
Definition same_but_status_and_reason (o o' : LimitOrder) : Prop :=
  order_id o' = order_id o /\
  created_at o' = created_at o /\
  input_token_address o' = input_token_address o /\
  output_token_address o' = output_token_address o /\
  input_amount o' = input_amount o /\
  min_output_amount o' = min_output_amount o /\
  pool_address o' = pool_address o /\
  input_token_index o' = input_token_index o /\
  output_token_index o' = output_token_index o /\
  limit_price o' = limit_price o /\
  slippage_tolerance o' = slippage_tolerance o /\
  tif_policy o' = tif_policy o /\
  expiry_time o' = expiry_time o /\
  user_address o' = user_address o /\
  private_key o' = private_key o /\
  filled_amount o' = filled_amount o /\
  received_amount o' = received_amount o /\
  transaction_hash o' = transaction_hash o /\
  last_price_check o' = last_price_check o /\
  last_quoted_output o' = last_quoted_output o /\
  price_check_count o' = price_check_count o.

(** The terms fixed at creation are the same in [o] and [o']. *)
Definition same_terms (o o' : LimitOrder) : Prop :=
  input_amount o' = input_amount o /\
  min_output_amount o' = min_output_amount o /\
  limit_price o' = limit_price o /\
  slippage_tolerance o' = slippage_tolerance o /\
  tif_policy o' = tif_policy o /\
  expiry_time o' = expiry_time o /\
  pool_address o' = pool_address o /\
  input_token_index o' = input_token_index o /\
  output_token_index o' = output_token_index o.

(** From [o] to [o']: the terms are kept, and the status is kept or has
    become terminal. *)
Definition advances (o o' : LimitOrder) : Prop :=
  same_terms o o' /\ (status o' = status o \/ terminal (status o') = true).


Definition same_received_amount (o o' : LimitOrder) : Prop :=
  received_amount o' = received_amount o.

(** [keeps R m]: whether [m] returns or throws, the order it leaves is
    related by [R] to the order it found. *)
Definition keeps {A} (R : LimitOrder -> LimitOrder -> Prop) (m : M A) : Prop :=
  forall o w,
    match m o w with
    | Done _ o' _ | Raised _ o' _ => R o o'
    | _ => True
    end.

(** A terminal order of [before] is found unchanged at the same place in
    [after]. *)
Definition terminal_kept (before after : list LimitOrder) : Prop :=
  Forall2 (fun o o' => terminal (status o) = true -> o' = o) before after.

(** *** Sample data *)

Definition start : World := {| tick := 0; log := [] |}.

(** A pool that always quotes [dy] and settles every swap; the clock
    stands still. *)
Definition steady_pool (dy : Z) : Env :=
  {| now := fun _ => 0;
     get_dy := fun _ _ _ _ _ => Returns dy;
     executeSwap := fun _ _ _ _ _ _ => Returns "0xffff"%string;
     skip_liquidity_check := false |}.

Definition blank : LimitOrder :=
  {| order_id := ""; created_at := 0;
     input_token_address := ""; output_token_address := "";
     input_amount := 0; min_output_amount := 0;
     pool_address := ""; input_token_index := 0; output_token_index := 0;
     limit_price := Double.zero; slippage_tolerance := Double.zero;
     tif_policy := GTC; expiry_time := 0;
     user_address := ""; private_key := "";
     status := PENDING; filled_amount := 0; received_amount := 0;
     transaction_hash := ""; failure_reason := "";
     last_price_check := 0; last_quoted_output := 0; price_check_count := 0 |}.

(** An order as [main] builds it and the engine hands it to a strategy:
    made by the constructor at time 0, pool fields assigned, status
    [ACTIVE].  Should the constructor have undefined behaviour, [blank]
    stands in. *)
Definition order_with (tif : TimeInForce) (input_amt : Z) (limit_rate slippage : double)
    : LimitOrder :=
  match new_LimitOrder 0 "ORDER" "0xTokenA" "0xTokenB" input_amt limit_rate
                       slippage tif "0xUser" "key" with
  | Some o => updateStatus ACTIVE "" (set_pool "0xPool" 1 0 o)
  | None => blank
  end.

(** The same with the slippage tolerance [0.005] that [main] uses. *)
Definition sample_order (tif : TimeInForce) (input_amt : Z) (limit_rate : double) : LimitOrder :=
  order_with tif input_amt limit_rate (Double.literal 5 1000).

(** An order for nothing, with a negative slippage tolerance, as the
    constructor returns it ([PENDING]). *)
Definition zero_amount_order : LimitOrder :=
  match new_LimitOrder 0 "BAD" "0xTokenA" "0xTokenB" 0 (Double.literal 101 100)
                       (SFopp (Double.literal 5 10)) IOC "0xUser" "key" with
  | Some o => o
  | None => blank
  end.

Definition filled_order : LimitOrder :=
  updateStatus FILLED "" (sample_order IOC 1000000 (Double.literal 95 100)).

Definition two_order_engine : LimitOrderEngine :=
  {| active_orders := [filled_order; sample_order IOC 1000000 (Double.literal 2 1)] |}.

(** *** Vocabulary of the engine properties *)

(** The [switch] of [processOrders]: the strategy of a policy. *)
Definition strategy (fuel : nat) (env : Env) (tif : TimeInForce) : M unit :=
  match tif with
  | GTC => executeGTC fuel env
  | GTT => executeGTT fuel env
  | IOC => executeIOC env
  | FOK => executeFOK env
  end.

(** Who the order belongs to and what it asks for are the same in [o] and
    [o']. *)
Definition same_identity (o o' : LimitOrder) : Prop :=
  order_id o' = order_id o /\
  created_at o' = created_at o /\
  input_token_address o' = input_token_address o /\
  output_token_address o' = output_token_address o /\
  user_address o' = user_address o /\
  private_key o' = private_key o /\
  same_terms o o'.

(** The amount that the liquidity probe of a fill-or-kill order asks a
    quote for. *)
Definition probe_amount (o : LimitOrder) : option Z :=
  Double.to_uint64 (Double.mul (Double.of_uint64 (input_amount o)) Double.one_point_01).

(** A request to the pool at [pool] that the order [o] accounts for: a
    quote for its full input amount or for its probe amount; or a
    settlement of its full input amount whose minimum output is the
    slippage floor of a quote that the pool gave for that amount and that
    met the limit price. *)
Definition justified (env : Env) (pool : string) (o : LimitOrder) (ev : event) : Prop :=
  match ev with
  | Quoted p i j dx =>
      p = pool /\ i = input_token_index o /\ j = output_token_index o /\
      (dx = input_amount o \/ probe_amount o = Some dx)
  | Swapped p i j dx min_dy =>
      p = pool /\ i = input_token_index o /\ j = output_token_index o /\
      dx = input_amount o /\
      exists n q,
        get_dy env n pool i j dx = Returns q /\
        isPriceMet o q = true /\
        getMinOutputWithSlippage o q = Some min_dy
  end.

(** From [w] to [w'] the log grew by requests that [o] accounts for. *)
Definition requests (env : Env) (pool : string) (o : LimitOrder) (w w' : World) : Prop :=
  exists new, log w' = new ++ log w /\ Forall (justified env pool o) new.

(** A stretch of a run that leaves the order open: prices may have been
    checked, nothing was executed. *)
Definition quiet (env : Env) (pool : string) (o : LimitOrder) (w : World)
    (o' : LimitOrder) (w' : World) : Prop :=
  same_identity o o' /\
  status o' = status o /\ failure_reason o' = failure_reason o /\
  filled_amount o' = filled_amount o /\
  received_amount o' = received_amount o /\
  transaction_hash o' = transaction_hash o /\
  price_check_count o <= price_check_count o' /\
  requests env pool o w w'.

(** A stretch of a run that ends with the fill of the order: the last
    quote recorded met the limit, the last request to the pool is the
    settlement of the full input amount with the slippage floor of that
    quote, and the order carries the hash that the pool returned for it.
    That quote is one that the pool gave for the full input amount. *)
Definition fills (env : Env) (pool : string) (o : LimitOrder) (w : World)
    (o' : LimitOrder) (w' : World) : Prop :=
  same_identity o o' /\
  status o' = FILLED /\ failure_reason o' = failure_reason o /\
  filled_amount o' = input_amount o /\
  isPriceMet o (last_quoted_output o') = true /\
  price_check_count o <= price_check_count o' /\
  requests env pool o w w' /\
  exists min_dy n rest,
    getMinOutputWithSlippage o (last_quoted_output o') = Some min_dy /\
    executeSwap env n pool (input_token_index o) (output_token_index o)
                (input_amount o) min_dy = Returns (transaction_hash o') /\
    log w' = Swapped pool (input_token_index o) (output_token_index o)
                     (input_amount o) min_dy :: rest /\
    exists k,
      get_dy env k pool (input_token_index o) (output_token_index o) (input_amount o)
      = Returns (last_quoted_output o').

(** A run that closes the order without executing it: the status is
    [s], the execution fields are as they were. *)
Definition closes (s : OrderStatus) (env : Env) (pool : string) (o : LimitOrder) (w : World)
    (o' : LimitOrder) (w' : World) : Prop :=
  same_identity o o' /\
  status o' = s /\
  filled_amount o' = filled_amount o /\
  received_amount o' = received_amount o /\
  transaction_hash o' = transaction_hash o /\
  price_check_count o <= price_check_count o' /\
  requests env pool o w w'.

(** The pool threw an exception with the message [what] at some point. *)
Definition thrown (env : Env) (what : string) : Prop :=
  exists n pool i j dx,
    get_dy env n pool i j dx = Throws what \/
    exists min_dy, executeSwap env n pool i j dx min_dy = Throws what.

(** [m] never leaves by an exception; when it returns [a], [Q a] relates
    the order and world it found to those it leaves. *)
Definition returns {A} (m : M A)
    (Q : A -> LimitOrder -> World -> LimitOrder -> World -> Prop) : Prop :=
  forall o w,
    match m o w with
    | Done a o' w' => Q a o w o' w'
    | Raised _ _ _ => False
    | _ => True
    end.

(** The range of the [int] that counts the price checks. *)
Definition int_min : Z := - 2 ^ 31.
Definition int_max : Z := 2 ^ 31 - 1.

(** A byte, as a [uint8_t] holds it. *)
Definition is_byte (b : Z) : Prop := 0 <= b < 256.

(** *** More sample data *)

(** A pool that cannot be reached: every quote throws. *)
Definition unreachable_pool : Env :=
  {| now := fun _ => 0;
     get_dy := fun _ _ _ _ _ => Throws "CURL request failed"%string;
     executeSwap := fun _ _ _ _ _ _ => Returns "0xffff"%string;
     skip_liquidity_check := false |}.

(** A pool that quotes [dy] for the order amount and nothing for any
    other amount; the clock stands still. *)
Definition shallow_pool (amount dy : Z) : Env :=
  {| now := fun _ => 0;
     get_dy := fun _ _ _ _ dx => Returns (if dx =? amount then dy else 0);
     executeSwap := fun _ _ _ _ _ _ => Returns "0xffff"%string;
     skip_liquidity_check := false |}.

(** A pool that quotes [dy] for the order amount and throws for any
    other amount. *)
Definition probe_failing_pool (amount dy : Z) : Env :=
  {| now := fun _ => 0;
     get_dy := fun _ _ _ _ dx =>
       if dx =? amount then Returns dy else Throws "RPC Error: execution reverted"%string;
     executeSwap := fun _ _ _ _ _ _ => Returns "0xffff"%string;
     skip_liquidity_check := false |}.

(** A pool that always quotes [dy], with a clock that ticks: the n-th
    interaction of a run reads time [n]. *)
Definition ticking_pool (dy : Z) : Env :=
  {| now := fun n => Z.of_nat n;
     get_dy := fun _ _ _ _ _ => Returns dy;
     executeSwap := fun _ _ _ _ _ _ => Returns "0xffff"%string;
     skip_liquidity_check := false |}.

(** A good-till-time order as [main] builds it, with the expiry given. *)
Definition gtt_order (input_amt : Z) (limit_rate : double) (expiry : time_point) : LimitOrder :=
  match OrderFactory.createGTT 0 "ORDER" "0xTokenA" "0xTokenB" input_amt limit_rate
                               (Double.literal 5 1000) expiry "0xUser" "key" with
  | Some o => updateStatus ACTIVE "" (set_pool "0xPool" 1 0 o)
  | None => blank
  end.


(** ** Vocabulary for the accuracy of the arithmetic *)

(** The relative error of one rounding is at most [2^-52] (one unit in
    the last place of a 53-bit mantissa). *)
Definition one_ulp : Q := 1 # 4503599627370496.

(** [2^-50]: room for the three roundings of a price check, or of a
    scaled amount. *)
Definition tolerance : Q := 1 # 1125899906842624.

(** The positive normal doubles: a 53-bit mantissa, and an exponent
    that the format has. *)
Definition normal (x : double) : bool :=
  match x with
  | S754_finite false m e =>
      (Z.pos (digits2_pos m) =? 53) && (-1074 <=? e) && (e <=? 971)
  | _ => false
  end.

(** [USE_MOCK_PRICING=1]: every quote is the mock quote of the amount
    asked for. *)
Definition mock_pricing (env : Env) : Prop :=
  forall n pool i j dx dy,
    get_dy_mock dx = Some dy -> get_dy env n pool i j dx = Returns dy.

(** The hash that [CurvePool::executeSwap] returns when [EXECUTE_ONCHAIN]
    is not set: nothing is sent. *)
Definition mock_tx_hash : string := String.append "0x" (replicate 64 "f"%char).

Definition mock_settlement (env : Env) : Prop :=
  forall n pool i j dx min_dy, executeSwap env n pool i j dx min_dy = Returns mock_tx_hash.

(** *** Sample data for the demo *)

(** Mock pricing and mock settlement, with a clock that ticks. *)
Definition demo_pool : Env :=
  {| now := fun n => Z.of_nat n;
     get_dy := fun _ _ _ _ dx =>
       match get_dy_mock dx with
       | Some dy => Returns dy
       | None => Throws "no quote"%string
       end;
     executeSwap := fun _ _ _ _ _ _ => Returns mock_tx_hash;
     skip_liquidity_check := false |}.
(** ** Proof tools *)

Ltac fields :=
  cbn [order_id created_at input_token_address output_token_address
       input_amount min_output_amount pool_address input_token_index
       output_token_index limit_price slippage_tolerance tif_policy
       expiry_time user_address private_key status filled_amount
       received_amount transaction_hash failure_reason last_price_check
       last_quoted_output price_check_count
       set_status set_failure_reason set_filled_amount set_received_amount
       set_transaction_hash set_expiry_time set_pool set_price_check
       tick log advance record_event negb andb orb].

Ltac munfold :=
  unfold try_catch, bind, ret, this, modify, defined, out_of_fuel,
    system_clock_now, sleep_for, pool_get_dy, pool_executeSwap,
    recordPriceCheck, isExpired, isExecutable.

(** Run a computation as far as it is determined. *)
Ltac mrun := repeat (progress (munfold; cbn beta iota zeta; fields)).

(** Case analysis on the next answer of the pool. *)
Ltac ask_oracle :=
  match goal with
  | |- context [match get_dy ?e ?n ?p ?i ?j ?dx with _ => _ end] =>
      let E := fresh "Equote" in destruct (get_dy e n p i j dx) eqn:E
  | |- context [match executeSwap ?e ?n ?p ?i ?j ?dx ?m with _ => _ end] =>
      let E := fresh "Eswap" in destruct (executeSwap e n p i j dx m) eqn:E
  end.

(** The order reached is the order found, up to fields that a relation on
    terms does not look at. *)
Ltac frame :=
  unfold advances, same_terms, same_received_amount, updateStatus;
  repeat match goal with
         | |- context [negb (is_empty ?r)] => destruct (negb (is_empty r))
         end;
  cbn; repeat split;
  first [reflexivity | left; reflexivity | right; reflexivity].

(** Unfold the rounding machinery of [SpecFloat] without touching the
    integer arithmetic. *)
Ltac sfcbn :=
  cbn [shr shr_record_of_loc shr_m shr_r shr_s loc_of_shr_record
       round_nearest_even Zdigits2 fst snd].

(** ** Proof tools for the runs *)

(** The member functions that only read the terms see the same order
    after a price check was recorded. *)
Ltac fold_terms :=
  repeat match goal with
  | H : context [isPriceMet (set_price_check ?t ?q ?o) ?a] |- _ =>
      change (isPriceMet (set_price_check t q o) a) with (isPriceMet o a) in H
  | |- context [isPriceMet (set_price_check ?t ?q ?o) ?a] =>
      change (isPriceMet (set_price_check t q o) a) with (isPriceMet o a)
  | H : context [getMinOutputWithSlippage (set_price_check ?t ?q ?o) ?a] |- _ =>
      change (getMinOutputWithSlippage (set_price_check t q o) a)
        with (getMinOutputWithSlippage o a) in H
  | |- context [getMinOutputWithSlippage (set_price_check ?t ?q ?o) ?a] =>
      change (getMinOutputWithSlippage (set_price_check t q o) a)
        with (getMinOutputWithSlippage o a)
  | H : context [getMaxFillableAmount (set_price_check ?t ?q ?o) ?a] |- _ =>
      change (getMaxFillableAmount (set_price_check t q o) a)
        with (getMaxFillableAmount o a) in H
  | |- context [getMaxFillableAmount (set_price_check ?t ?q ?o) ?a] =>
      change (getMaxFillableAmount (set_price_check t q o) a)
        with (getMaxFillableAmount o a)
  end.

(** A request of the run at hand is accounted for by the answers that
    the pool gave, which are among the hypotheses. *)
Ltac account :=
  cbn [justified]; unfold probe_amount;
  first
    [ repeat (split; [reflexivity|]);
      first [left; reflexivity | right; eassumption]
    | repeat (split; [reflexivity|]);
      eexists _, _; split; [eassumption|]; split; eassumption ].

Ltac log_grows :=
  unfold requests, advance, record_event; cbn [log tick];
  first [ exists []; split; [reflexivity|]
        | eexists [_]; split; [reflexivity|]
        | eexists [_; _]; split; [reflexivity|]
        | eexists [_; _; _]; split; [reflexivity|]
        | eexists [_; _; _; _]; split; [reflexivity|] ];
  repeat first [apply Forall_nil | apply Forall_cons; [account|]].

(** The order and world reached stand in the relation claimed to those
    the run started from. *)
Ltac settle :=
  fold_terms;
  unfold quiet, fills, closes, same_identity, same_terms, updateStatus;
  cbn [is_empty negb]; fields;
  repeat match goal with
         | |- context [negb (is_empty ?r)] => destruct (negb (is_empty r)); fields
         end;
  repeat match goal with
         | |- _ /\ _ => split
         | |- _ = _ => first [reflexivity | assumption]
         | |- _ <= _ => lia
         | |- requests _ _ _ _ _ => log_grows
         | |- exists min_dy n rest, _ =>
             eexists _, _, _; split; [eassumption|]; split; [eassumption|];
             split; [unfold advance, record_event; cbn [log tick]; reflexivity|];
             eexists; eassumption
         end.

(** * Properties of binary64 arithmetic *)

Module DoubleFacts.
Import Double.

Lemma digits2_pos_bounds p :
  2 ^ (Z.pos (digits2_pos p) - 1) <= Z.pos p < 2 ^ Z.pos (digits2_pos p).
Proof.
  induction p as [p IH|p IH|]; cbn [digits2_pos].
  - rewrite Pos2Z.inj_succ.
    replace (Z.succ (Z.pos (digits2_pos p)) - 1) with (Z.succ (Z.pos (digits2_pos p) - 1)) by lia.
    rewrite !Z.pow_succ_r by lia. lia.
  - rewrite Pos2Z.inj_succ.
    replace (Z.succ (Z.pos (digits2_pos p)) - 1) with (Z.succ (Z.pos (digits2_pos p) - 1)) by lia.
    rewrite !Z.pow_succ_r by lia. lia.
  - cbn. lia.
Qed.

Lemma digits2_pos_le p d :
  Z.pos p < 2 ^ d -> 0 <= d -> Z.pos (digits2_pos p) <= d.
Proof.
  intros H Hd. destruct (Z.le_gt_cases (Z.pos (digits2_pos p)) d) as [|G]; [assumption|].
  pose proof (digits2_pos_bounds p) as [L _].
  assert (2 ^ d <= 2 ^ (Z.pos (digits2_pos p) - 1)) by (apply Z.pow_le_mono_r; lia).
  lia.
Qed.

Lemma digits2_pos_ge p d :
  2 ^ (d - 1) <= Z.pos p -> d <= Z.pos (digits2_pos p).
Proof.
  intros H. destruct (Z.le_gt_cases d (Z.pos (digits2_pos p))) as [|G]; [assumption|].
  pose proof (digits2_pos_bounds p) as [_ U].
  assert (2 ^ Z.pos (digits2_pos p) <= 2 ^ (d - 1)) by (apply Z.pow_le_mono_r; lia).
  lia.
Qed.

Lemma iter_xO_value k p : Z.pos (Pos.iter xO p k) = Z.pos p * 2 ^ Z.pos k.
Proof.
  induction k as [|k IH] using Pos.peano_ind.
  - cbn. lia.
  - rewrite Pos.iter_succ, Pos2Z.inj_succ, Z.pow_succ_r by lia.
    rewrite Pos2Z.inj_xO, IH. lia.
Qed.

Lemma iter_xO_digits k p :
  Z.pos (digits2_pos (Pos.iter xO p k)) = Z.pos (digits2_pos p) + Z.pos k.
Proof.
  induction k as [|k IH] using Pos.peano_ind.
  - cbn. lia.
  - rewrite Pos.iter_succ. cbn [digits2_pos]. rewrite !Pos2Z.inj_succ, IH. lia.
Qed.

(** Rounding a canonical mantissa changes nothing. *)
Lemma binary_round_aux_canonical s m e :
  canonical_mantissa prec emax m e = true -> e <= emax - prec ->
  binary_round_aux prec emax s (Z.pos m) e loc_Exact = S754_finite s m e.
Proof.
  unfold canonical_mantissa. intros Hc He. apply Z.eqb_eq in Hc.
  unfold binary_round_aux, shr_fexp. sfcbn.
  rewrite Hc, Z.sub_diag. sfcbn.
  rewrite Hc, Z.sub_diag. sfcbn.
  apply Z.leb_le in He. rewrite He. reflexivity.
Qed.

(** Conversion of an integer below 2^53 is exact. *)
Lemma of_uint64_small p :
  Z.pos p < 2 ^ 53 ->
  exists m e,
    of_uint64 (Z.pos p) = S754_finite false m e /\
    -52 <= e <= 0 /\ Z.pos m = Z.pos p * 2 ^ (- e) /\
    Z.pos (digits2_pos m) = 53.
Proof.
  intros Hp.
  pose proof (digits2_pos_le p 53 Hp ltac:(lia)) as Hd.
  assert (0 < Z.pos (digits2_pos p)) by lia.
  assert (Hf : fexp prec emax (Z.pos (digits2_pos p) + 0) = Z.pos (digits2_pos p) - 53)
    by (unfold fexp, emin, prec, emax; lia).
  unfold of_uint64, binary_normalize, binary_round, shl_align.
  rewrite Hf, Z.sub_0_r.
  destruct (Z.pos (digits2_pos p) - 53) as [|k|k] eqn:Ek; try lia.
  - exists p, 0.
    rewrite (binary_round_aux_canonical false p 0).
    + repeat split; try lia.
    + unfold canonical_mantissa. apply Z.eqb_eq. rewrite Hf. lia.
    + unfold emax, prec. lia.
  - exists (Pos.iter xO p k), (Z.neg k).
    pose proof (iter_xO_digits k p) as Hdig.
    rewrite (binary_round_aux_canonical false (Pos.iter xO p k) (Z.neg k)).
    + repeat split; try lia. rewrite iter_xO_value. reflexivity.
    + unfold canonical_mantissa, fexp, emin, prec, emax. apply Z.eqb_eq. lia.
    + unfold emax, prec. lia.
Qed.

(** *** Shifting a mantissa to the right *)

Lemma iter_pos_nat {A} (f : A -> A) p :
  forall x, iter_pos f p x = Nat.iter (Pos.to_nat p) f x.
Proof.
  induction p as [p IH|p IH|]; intros x; cbn [iter_pos].
  - rewrite Pos2Nat.inj_xI, Nat.iter_succ_r.
    replace (2 * Pos.to_nat p)%nat with (Pos.to_nat p + Pos.to_nat p)%nat by lia.
    rewrite Nat.iter_add, !IH. reflexivity.
  - rewrite Pos2Nat.inj_xO.
    replace (2 * Pos.to_nat p)%nat with (Pos.to_nat p + Pos.to_nat p)%nat by lia.
    rewrite Nat.iter_add, !IH. reflexivity.
  - reflexivity.
Qed.

Lemma shr_1_m r : 0 <= shr_m r -> shr_m (shr_1 r) = shr_m r / 2.
Proof.
  destruct r as [m r s]. cbn [shr_m]. intros Hm.
  destruct m as [|[p|p|]|p]; cbn [shr_1 shr_m]; try lia.
  - reflexivity.
  - rewrite Pos2Z.inj_xI. apply Z.div_unique with 1; lia.
  - rewrite Pos2Z.inj_xO. apply Z.div_unique with 0; lia.
  - reflexivity.
Qed.

Lemma shr_n_m n : forall r,
  0 <= shr_m r -> shr_m (Nat.iter n shr_1 r) = shr_m r / 2 ^ Z.of_nat n.
Proof.
  induction n as [|n IH]; intros r Hr.
  - cbn. rewrite Z.div_1_r. reflexivity.
  - rewrite Nat.iter_succ_r, IH by (rewrite shr_1_m by assumption; apply Z.div_pos; lia).
    rewrite shr_1_m by assumption.
    rewrite Nat2Z.inj_succ, Z.pow_succ_r by lia.
    rewrite Z.div_div by lia. reflexivity.
Qed.

(** Shifting out zero bits loses nothing. *)
Lemma shr_1_exact m :
  0 <= m ->
  shr_1 {| shr_m := 2 * m; shr_r := false; shr_s := false |}
    = {| shr_m := m; shr_r := false; shr_s := false |}.
Proof. intros Hm. destruct m as [|p|p]; try lia; reflexivity. Qed.

Lemma shr_n_exact n : forall m,
  0 <= m ->
  Nat.iter n shr_1 {| shr_m := m * 2 ^ Z.of_nat n; shr_r := false; shr_s := false |}
    = {| shr_m := m; shr_r := false; shr_s := false |}.
Proof.
  induction n as [|n IH]; intros m Hm.
  - cbn. rewrite Z.mul_1_r. reflexivity.
  - rewrite Nat.iter_succ_r, Nat2Z.inj_succ, Z.pow_succ_r by lia.
    replace (m * (2 * 2 ^ Z.of_nat n)) with (2 * (m * 2 ^ Z.of_nat n)) by lia.
    rewrite shr_1_exact by (apply Z.mul_nonneg_nonneg; lia).
    apply IH. assumption.
Qed.

Lemma shr_exact m e k :
  0 <= m -> 0 <= k ->
  shr {| shr_m := m * 2 ^ k; shr_r := false; shr_s := false |} e k
    = ({| shr_m := m; shr_r := false; shr_s := false |}, e + k).
Proof.
  intros Hm Hk. destruct k as [|k|k]; try lia; cbn [shr].
  - rewrite Z.mul_1_r, Z.add_0_r. reflexivity.
  - rewrite iter_pos_nat. rewrite <- (positive_nat_Z k) at 1.
    rewrite shr_n_exact by assumption. reflexivity.
Qed.

(** Rounding [m * 2^k] at exponent [e], when [m] is canonical at [e + k]. *)
Lemma binary_round_aux_exact s m e k :
  0 <= k ->
  canonical_mantissa prec emax m (e + k) = true -> e + k <= emax - prec ->
  binary_round_aux prec emax s (Z.pos m * 2 ^ k) e loc_Exact = S754_finite s m (e + k).
Proof.
  intros Hk Hc He.
  assert (Hd : Zdigits2 (Z.pos m * 2 ^ k) = Z.pos (digits2_pos m) + k).
  { destruct k as [|k|k]; try lia.
    - rewrite Z.mul_1_r, Z.add_0_r. reflexivity.
    - rewrite <- iter_xO_value. cbn [Zdigits2]. apply iter_xO_digits. }
  pose proof Hc as Hc'. unfold canonical_mantissa in Hc'. apply Z.eqb_eq in Hc'.
  unfold binary_round_aux, shr_fexp at 1. rewrite Hd.
  replace (Z.pos (digits2_pos m) + k + e) with (Z.pos (digits2_pos m) + (e + k)) by lia.
  rewrite Hc'. replace (e + k - e) with k by lia.
  sfcbn. rewrite shr_exact by lia. sfcbn.

  unfold shr_fexp. sfcbn. rewrite Hc', Z.sub_diag. sfcbn.
  apply Z.leb_le in He. rewrite He. reflexivity.
Qed.


(** *** Exact products *)

Lemma mul_exact s1 m1 e1 s2 m2 e2 m k :
  0 <= k -> Z.pos (m1 * m2) = Z.pos m * 2 ^ k ->
  canonical_mantissa prec emax m (e1 + e2 + k) = true -> e1 + e2 + k <= emax - prec ->
  mul (S754_finite s1 m1 e1) (S754_finite s2 m2 e2)
    = S754_finite (xorb s1 s2) m (e1 + e2 + k).
Proof.
  intros Hk Hm Hc He. unfold mul, SFmul. rewrite Hm.
  apply binary_round_aux_exact; assumption.
Qed.

Lemma mul_one_r x : valid x = true -> mul x one = x.
Proof.
  destruct x as [s|s| |s m e]; intros Hv; try reflexivity; try (destruct s; reflexivity).
  unfold valid, valid_binary, bounded in Hv. apply andb_prop in Hv as [Hc He].
  apply Z.leb_le in He.
  unfold one. rewrite (mul_exact s m e false 4503599627370496 (-52) m 52).
  - rewrite xorb_false_r. f_equal. lia.
  - lia.
  - rewrite Pos2Z.inj_mul. reflexivity.
  - replace (e + -52 + 52) with e by lia. exact Hc.
  - lia.
Qed.

(** *** The exact value *)

Lemma value_finite s m e :
  value (S754_finite s m e)
  = if 0 <=? e then inject_Z (signed s m * 2 ^ e)
    else Qmake (signed s m) (Z.to_pos (2 ^ (- e))).
Proof. reflexivity. Qed.

Lemma value_scale s m e j :
  0 <= j -> 0 <= e + j ->
  (value (S754_finite s m e) * inject_Z (2 ^ j) == inject_Z (signed s m * 2 ^ (e + j)))%Q.
Proof.
  intros Hj Hej. rewrite value_finite.
  destruct (0 <=? e) eqn:He.
  - apply Z.leb_le in He. rewrite <- inject_Z_mult.
    rewrite Z.pow_add_r by lia. rewrite Z.mul_assoc. reflexivity.
  - apply Z.leb_gt in He. unfold Qeq, Qmult, inject_Z. cbn [Qnum Qden].
    rewrite Pos.mul_1_r, Z.mul_1_r.
    rewrite Z2Pos.id by (apply Z.pow_pos_nonneg; lia).
    rewrite <- Z.mul_assoc, <- Z.pow_add_r by lia.
    f_equal. f_equal. lia.
Qed.

Lemma pow2_pos k : 0 <= k -> 0 < 2 ^ k.
Proof. intros. apply Z.pow_pos_nonneg; lia. Qed.

Lemma value_le_scaled s1 m1 e1 s2 m2 e2 j :
  0 <= j -> 0 <= e1 + j -> 0 <= e2 + j ->
  (value (S754_finite s1 m1 e1) <= value (S754_finite s2 m2 e2))%Q <->
  signed s1 m1 * 2 ^ (e1 + j) <= signed s2 m2 * 2 ^ (e2 + j).
Proof.
  intros Hj H1 H2.
  assert (Hp : (0 < inject_Z (2 ^ j))%Q).
  { replace 0%Q with (inject_Z 0) by reflexivity. rewrite <- Zlt_Qlt. apply pow2_pos; lia. }
  rewrite <- (Qmult_le_r _ _ _ Hp).
  rewrite !value_scale by assumption.
  rewrite <- Zle_Qle. reflexivity.
Qed.

Lemma canonical_bounds m e :
  canonical_mantissa prec emax m e = true ->
  emin prec emax <= e /\ Z.pos (digits2_pos m) <= 53 /\
  (emin prec emax < e -> Z.pos (digits2_pos m) = 53).
Proof.
  unfold canonical_mantissa, fexp, emin, prec, emax. intros H.
  apply Z.eqb_eq in H. lia.
Qed.

(** Among canonical mantissas the exponent decides. *)
Lemma canonical_exponent_lt m1 e1 m2 e2 j :
  canonical_mantissa prec emax m1 e1 = true ->
  canonical_mantissa prec emax m2 e2 = true ->
  e1 < e2 -> 0 <= e1 + j ->
  Z.pos m1 * 2 ^ (e1 + j) < Z.pos m2 * 2 ^ (e2 + j).
Proof.
  intros C1 C2 Hlt Hj.
  apply canonical_bounds in C1 as (L1 & D1 & _).
  apply canonical_bounds in C2 as (L2 & _ & D2).
  specialize (D2 ltac:(lia)).
  pose proof (digits2_pos_bounds m1) as [_ U1].
  pose proof (digits2_pos_bounds m2) as [B2 _]. rewrite D2 in B2.
  assert (U1' : Z.pos m1 < 2 ^ 53).
  { eapply Z.lt_le_trans; [exact U1|]. apply Z.pow_le_mono_r; lia. }
  replace (e2 + j) with ((e1 + j) + (e2 - e1)) by lia.
  rewrite (Z.pow_add_r 2 (e1 + j)) by lia.
  assert (2 ^ 1 <= 2 ^ (e2 - e1)) by (apply Z.pow_le_mono_r; lia).
  pose proof (pow2_pos (e1 + j) Hj).
  change (2 ^ 53) with (2 * 2 ^ 52) in U1'. change (2 ^ (53 - 1)) with (2 ^ 52) in B2.
  change (2 ^ 1) with 2 in *.
  remember (2 ^ 52) as X eqn:EX. assert (0 < X) by (subst X; reflexivity).
  remember (2 ^ (e1 + j)) as P. remember (2 ^ (e2 - e1)) as R.
  apply Z.lt_le_trans with (2 * X * P); [nia|].
  apply Z.le_trans with (Z.pos m2 * 2 * P); nia.
Qed.

Lemma value_sign (s : bool) (m : positive) (e : Z) :
  if s return Prop then (value (S754_finite s m e) < 0)%Q
  else (0 < value (S754_finite s m e))%Q.
Proof.
  rewrite value_finite. destruct (0 <=? e) eqn:E.
  - apply Z.leb_le in E. pose proof (pow2_pos e E).
    destruct s; cbn [signed]; unfold Qlt, inject_Z; cbn [Qnum Qden]; lia.
  - destruct s; cbn [signed]; unfold Qlt; cbn [Qnum Qden]; lia.
Qed.

Lemma SFleb_value a b :
  is_finite a = true -> is_finite b = true -> valid a = true -> valid b = true ->
  SFleb a b = true <-> (value a <= value b)%Q.
Proof.
  destruct a as [sa|sa| |sa ma ea], b as [sb|sb| |sb mb eb]; try discriminate;
    intros _ _ Va Vb.
  - cbn. split; [intros _; apply Qle_refl|reflexivity].
  - pose proof (value_sign sb mb eb) as Hs.
    change (value (S754_zero sa)) with 0%Q.
    unfold SFleb, SFcompare. destruct sb; split; intros H; try reflexivity; try discriminate.
    + exfalso. eapply Qlt_irrefl, Qle_lt_trans; eassumption.
    + apply Qlt_le_weak. assumption.
  - pose proof (value_sign sa ma ea) as Hs.
    change (value (S754_zero sb)) with 0%Q.
    unfold SFleb, SFcompare. destruct sa; split; intros H; try reflexivity; try discriminate.
    + apply Qlt_le_weak. assumption.
    + exfalso. eapply Qlt_irrefl, Qlt_le_trans; eassumption.
  - unfold valid, valid_binary, bounded in Va, Vb.
    apply andb_prop in Va as [Ca _]. apply andb_prop in Vb as [Cb _].
    pose proof (canonical_bounds _ _ Ca) as (La & _).
    pose proof (canonical_bounds _ _ Cb) as (Lb & _).
    unfold emin, emax, prec in La, Lb.
    rewrite (value_le_scaled sa ma ea sb mb eb 1074) by lia.
    pose proof (pow2_pos (ea + 1074) ltac:(lia)).
    pose proof (pow2_pos (eb + 1074) ltac:(lia)).
    unfold SFleb, SFcompare.
    destruct sa, sb; cbn [signed].
    + (* both negative *)
      destruct (Z.compare_spec ea eb) as [->|Hlt|Hgt].
      * rewrite Pos.compare_cont_spec. cbn [Pos.switch_Eq].
        destruct (Pos.compare_spec ma mb); cbn [CompOpp]; split; intros; try reflexivity;
          try discriminate; subst; nia.
      * pose proof (canonical_exponent_lt _ _ _ _ 1074 Ca Cb Hlt ltac:(lia)).
        split; intros; try discriminate; lia.
      * pose proof (canonical_exponent_lt _ _ _ _ 1074 Cb Ca Hgt ltac:(lia)).
        split; intros; try reflexivity; lia.
    + split; intros; try reflexivity; lia.
    + split; intros; try discriminate; lia.
    + destruct (Z.compare_spec ea eb) as [->|Hlt|Hgt].
      * rewrite Pos.compare_cont_spec. cbn [Pos.switch_Eq].
        destruct (Pos.compare_spec ma mb); split; intros; try reflexivity;
          try discriminate; subst; nia.
      * pose proof (canonical_exponent_lt _ _ _ _ 1074 Ca Cb Hlt ltac:(lia)).
        split; intros; try reflexivity; lia.
      * pose proof (canonical_exponent_lt _ _ _ _ 1074 Cb Ca Hgt ltac:(lia)).
        split; intros; try discriminate; lia.
Qed.


(** *** Rounding in the normal range *)

Lemma shr_m_record_of_loc m l : shr_m (shr_record_of_loc m l) = m.
Proof. destruct l as [|[]]; reflexivity. Qed.

Lemma shr_spec r e k :
  0 <= shr_m r -> 0 <= k ->
  exists r', shr r e k = (r', e + k) /\ shr_m r' = shr_m r / 2 ^ k.
Proof.
  intros Hr Hk. destruct k as [|k|k]; try lia; cbn [shr].
  - exists r. rewrite Z.add_0_r, Z.div_1_r. split; reflexivity.
  - eexists. split; [reflexivity|].
    rewrite iter_pos_nat, shr_n_m, positive_nat_Z by assumption. reflexivity.
Qed.

Lemma round_nearest_even_bounds m l :
  m <= round_nearest_even m l <= m + 1.
Proof.
  destruct l as [|[]]; cbn [round_nearest_even]; try lia.
  destruct (Z.even m); lia.
Qed.

Lemma digits2_pos_eq p d :
  2 ^ (d - 1) <= Z.pos p < 2 ^ d -> Z.pos (digits2_pos p) = d.
Proof.
  intros [L U].
  assert (0 <= d).
  { destruct (Z.le_gt_cases 0 d); [assumption|].
    rewrite Z.pow_neg_r in U by lia. lia. }
  pose proof (digits2_pos_le p d U ltac:(lia)).
  pose proof (digits2_pos_ge p d L). lia.
Qed.

Lemma binary_round_aux_normal s p ex lx :
  53 <= Z.pos (digits2_pos p) ->
  emin prec emax <= ex + Z.pos (digits2_pos p) - 53 ->
  ex + Z.pos (digits2_pos p) - 52 <= emax - prec ->
  exists m e c,
    binary_round_aux prec emax s (Z.pos p) ex lx = S754_finite s m e /\
    Z.pos (digits2_pos m) = 53 /\
    (c = 0 \/ c = 1) /\ e = ex + (Z.pos (digits2_pos p) - 53) + c /\
    Z.pos p / 2 ^ (Z.pos (digits2_pos p) - 53) <= Z.pos m * 2 ^ c
      <= Z.pos p / 2 ^ (Z.pos (digits2_pos p) - 53) + 1.
Proof.
  set (d := Z.pos (digits2_pos p)). intros Hd Hlo Hhi.
  set (k := d - 53).
  unfold binary_round_aux. unfold shr_fexp at 1. cbn [Zdigits2]. fold d.
  assert (Hk : fexp prec emax (d + ex) - ex = k).
  { unfold fexp, emin, prec, emax in *. lia. }
  rewrite Hk.
  destruct (shr_spec (shr_record_of_loc (Z.pos p) lx) ex k) as (r' & Hshr & Hm1);
    [rewrite shr_m_record_of_loc; lia|lia|].
  rewrite Hshr. rewrite shr_m_record_of_loc in Hm1.
  pose proof (digits2_pos_bounds p) as [Lp Up]. fold d in Lp, Up.
  assert (Hpk : 0 < 2 ^ k) by (apply pow2_pos; lia).
  assert (B1 : 2 ^ 52 <= shr_m r' < 2 ^ 53).
  { rewrite Hm1. split.
    - apply Z.div_le_lower_bound; [assumption|].
      rewrite <- Z.pow_add_r by lia. replace (k + 52) with (d - 1) by lia. exact Lp.
    - apply Z.div_lt_upper_bound; [assumption|].
      rewrite <- Z.pow_add_r by lia. replace (k + 53) with d by lia. exact Up. }
  pose proof (round_nearest_even_bounds (shr_m r') (loc_of_shr_record r')) as B2.
  rewrite <- Hm1.
  destruct (round_nearest_even (shr_m r') (loc_of_shr_record r')) as [|p2|p2] eqn:E2;
    try lia.
  destruct (Z.eq_dec (Z.pos p2) (2 ^ 53)) as [Ecarry|Hno].
  - (* the mantissa was all ones and rounding carried *)
    change (2 ^ 53) with (Z.pos 9007199254740992) in Ecarry.
    injection Ecarry as ->.
    exists 4503599627370496%positive, (ex + k + 1), 1.
    unfold shr_fexp. cbn [Zdigits2].
    change (Z.pos (digits2_pos 9007199254740992)) with 54.
    assert (Hk2 : fexp prec emax (54 + (ex + k)) - (ex + k) = 1).
    { unfold fexp, emin, prec, emax in *. lia. }
    rewrite Hk2. cbn [shr shr_record_of_loc iter_pos shr_1 shr_m].
    assert (Hle : (ex + k + 1 <=? emax - prec) = true) by (apply Z.leb_le; lia).
    rewrite Hle.
    split; [reflexivity|]. split; [reflexivity|]. split; [right; reflexivity|].
    split; [lia|]. change (Z.pos 4503599627370496 * 2 ^ 1) with (2 ^ 53).
    change (Z.pos 9007199254740992) with (2 ^ 53) in B2. lia.
  - assert (Hd2 : Z.pos (digits2_pos p2) = 53) by (apply digits2_pos_eq; lia).
    exists p2, (ex + k), 0.
    unfold shr_fexp. cbn [Zdigits2]. rewrite Hd2.
    assert (Hk2 : fexp prec emax (53 + (ex + k)) - (ex + k) = 0).
    { unfold fexp, emin, prec, emax in *. lia. }
    rewrite Hk2. cbn [shr shr_record_of_loc shr_m].
    assert (Hle : (ex + k <=? emax - prec) = true) by (apply Z.leb_le; lia).
    rewrite Hle.
    split; [reflexivity|]. split; [reflexivity|]. split; [left; reflexivity|].
    split; [lia|]. rewrite Z.pow_0_r, Z.mul_1_r. lia.
Qed.


Lemma normal_valid s m e :
  Z.pos (digits2_pos m) = 53 -> emin prec emax <= e <= emax - prec ->
  valid (S754_finite s m e) = true.
Proof.
  intros Hd He. unfold valid, valid_binary, bounded, canonical_mantissa.
  apply andb_true_intro. split.
  - apply Z.eqb_eq. rewrite Hd. unfold fexp, emin, prec, emax in *. lia.
  - apply Z.leb_le. lia.
Qed.

(** Every positive 64-bit integer converts to a normal double. *)
Lemma of_uint64_normal p :
  Z.pos p < 2 ^ 64 ->
  exists m e,
    of_uint64 (Z.pos p) = S754_finite false m e /\
    Z.pos (digits2_pos m) = 53 /\ -52 <= e <= 12.
Proof.
  intros Hp.
  destruct (Z.le_gt_cases (Z.pos (digits2_pos p)) 53) as [Hsmall|Hbig].
  - destruct (of_uint64_small p) as (m & e & E & He & _ & Hd).
    + pose proof (digits2_pos_bounds p) as [_ U].
      eapply Z.lt_le_trans; [exact U|]. apply Z.pow_le_mono_r; lia.
    + exists m, e. repeat split; try assumption; lia.
  - pose proof (digits2_pos_le p 64 Hp ltac:(lia)) as Hd64.
    assert (Hf : fexp prec emax (Z.pos (digits2_pos p) + 0) = Z.pos (digits2_pos p) - 53)
      by (unfold fexp, emin, prec, emax; lia).
    unfold of_uint64, binary_normalize, binary_round, shl_align.
    rewrite Hf, Z.sub_0_r.
    destruct (Z.pos (digits2_pos p) - 53) as [|k|k] eqn:Ek; try lia.
    destruct (binary_round_aux_normal false p 0 loc_Exact) as (m & e & c & E & Hd & Hc & He & _);
      try (unfold emin, prec, emax; lia).
    exists m, e. repeat split; try assumption; lia.
Qed.

Lemma of_uint64_valid n :
  0 <= n < 2 ^ 64 -> valid (of_uint64 n) = true /\ is_finite (of_uint64 n) = true.
Proof.
  intros [Hn Hlt]. destruct n as [|p|p]; try lia.
  - split; reflexivity.
  - destruct (of_uint64_normal p Hlt) as (m & e & E & Hd & He). rewrite E.
    split; [|reflexivity]. apply normal_valid; [assumption|].
    unfold emin, prec, emax. lia.
Qed.

(** *** Truncation *)

Lemma to_uint64_floor x :
  is_finite x = true -> (0 <= value x)%Q -> (value x < inject_Z two64)%Q ->
  to_uint64 x = Some (Qfloor (value x)).
Proof.
  intros Hf Hlo Hhi.
  assert (Hrange : 0 <= Qfloor (value x) <= uint64_max).
  { split.
    - change 0 with (Qfloor 0). apply Qfloor_resp_le. assumption.
    - assert (Qfloor (value x) < two64); [|unfold uint64_max, two64 in *; lia].
      rewrite Zlt_Qlt. eapply Qle_lt_trans; [apply Qfloor_le|assumption]. }
  assert (Htr : truncate x = Some (Qfloor (value x))).
  { destruct x as [s|s| |s m e]; try discriminate; [reflexivity|].
    pose proof (value_sign s m e) as Hs. destruct s.
    - exfalso. eapply Qlt_irrefl, Qle_lt_trans; eassumption.
    - unfold truncate. rewrite value_finite. cbn [signed].
      destruct (0 <=? e) eqn:E.
      + rewrite Qfloor_Z. reflexivity.
      + apply Z.leb_gt in E. unfold Qfloor.
        rewrite Z2Pos.id by (apply pow2_pos; lia). reflexivity. }
  unfold to_uint64. rewrite Htr.
  destruct Hrange as [H0 H1]. apply Z.leb_le in H0, H1. rewrite H0, H1. reflexivity.
Qed.


(** *** Division of normal doubles

    The quotient of two 53-bit mantissas is computed with 53 or 54 bits,
    truncated to 53 bits ([t] below, after dropping [k] bits) and rounded
    ([c] is the carry). *)

Lemma div_core s1 m1 e1 s2 m2 e2 :
  Z.pos (digits2_pos m1) = 53 -> Z.pos (digits2_pos m2) = 53 ->
  emin prec emax <= e1 - e2 - 53 -> e1 - e2 - 51 <= emax - prec ->
  exists m e k c t,
    div (S754_finite s1 m1 e1) (S754_finite s2 m2 e2) = S754_finite (xorb s1 s2) m e /\
    Z.pos (digits2_pos m) = 53 /\
    (k = 0 \/ k = 1) /\ (c = 0 \/ c = 1) /\ e = e1 - e2 - 53 + k + c /\
    2 ^ 52 <= t < 2 ^ 53 /\
    t <= Z.pos m * 2 ^ c <= t + 1 /\
    t * 2 ^ k * Z.pos m2 <= Z.pos m1 * 2 ^ 53 < (t + 1) * 2 ^ k * Z.pos m2.
Proof.
  intros Hd1 Hd2 Hmin Hmax.
  pose proof (digits2_pos_bounds m1) as [L1 U1]. rewrite Hd1 in L1, U1.
  pose proof (digits2_pos_bounds m2) as [L2 U2]. rewrite Hd2 in L2, U2.
  change (2 ^ (53 - 1)) with (2 ^ 52) in L1, L2.
  unfold div, SFdiv, SFdiv_core_binary. cbn [Zdigits2].
  rewrite Hd1, Hd2.
  assert (He' : Z.min (fexp prec emax (53 + e1 - (53 + e2))) (e1 - e2) = e1 - e2 - 53).
  { unfold fexp, prec, emax, emin in *. lia. }
  rewrite He'. replace (e1 - e2 - (e1 - e2 - 53)) with 53 by lia.
  rewrite Z.shiftl_mul_pow2 by lia.
  pose proof (Z.div_eucl_eq (Z.pos m1 * 2 ^ 53) (Z.pos m2) ltac:(lia)) as Hdm.
  pose proof (Z.mod_pos_bound (Z.pos m1 * 2 ^ 53) (Z.pos m2) ltac:(lia)) as Hmod.
  unfold Z.modulo in Hmod.
  destruct (Z.div_eucl (Z.pos m1 * 2 ^ 53) (Z.pos m2)) as [q r].
  assert (Bq : 2 ^ 52 <= q < 2 ^ 54).
  { split.
    - assert (2 ^ 52 - 1 < q); [|lia].
      apply Z.mul_lt_mono_pos_l with (Z.pos m2); [lia|].
      apply Z.le_lt_trans with (2 ^ 53 * (2 ^ 52 - 1)).
      + apply Z.mul_le_mono_nonneg_r; lia.
      + apply Z.lt_le_trans with (2 ^ 52 * 2 ^ 53 - Z.pos m2); [lia|].
        apply Z.le_trans with (Z.pos m1 * 2 ^ 53 - Z.pos m2); [|lia].
        apply Z.sub_le_mono_r. apply Z.mul_le_mono_nonneg_r; lia.
    - apply Z.mul_lt_mono_pos_l with (2 ^ 52); [lia|].
      apply Z.le_lt_trans with (Z.pos m2 * q).
      + apply Z.mul_le_mono_nonneg_r; lia.
      + apply Z.le_lt_trans with (Z.pos m1 * 2 ^ 53); [lia|].
        change (2 ^ 52 * 2 ^ 54) with (2 ^ 53 * 2 ^ 53).
        apply Z.mul_lt_mono_pos_r; lia. }
  destruct q as [|pq|pq]; try lia.
  set (d := Z.pos (digits2_pos pq)).
  assert (Hd : 53 <= d <= 54).
  { split.
    - apply digits2_pos_ge. change (2 ^ (53 - 1)) with (2 ^ 52). lia.
    - apply digits2_pos_le; lia. }
  destruct (binary_round_aux_normal (xorb s1 s2) pq (e1 - e2 - 53)
              (new_location (Z.pos m2) r))
    as (m & e & c & E & Hdm' & Hc & He & Hb);
    try (fold d; unfold emin, prec, emax in *; lia).
  fold d in He, Hb.
  set (k := d - 53) in *. set (t := Z.pos pq / 2 ^ k) in *.
  assert (Hk : k = 0 \/ k = 1) by lia.
  assert (Hpk : 0 < 2 ^ k) by (apply pow2_pos; lia).
  pose proof (Z.div_mod (Z.pos pq) (2 ^ k) ltac:(lia)) as Hq.
  pose proof (Z.mod_pos_bound (Z.pos pq) (2 ^ k) Hpk) as Hqm.
  fold t in Hq.
  assert (Bt : 2 ^ 52 <= t < 2 ^ 53).
  { pose proof (digits2_pos_bounds pq) as [Lq Uq]. fold d in Lq, Uq.
    unfold t. split.
    - apply Z.div_le_lower_bound; [assumption|].
      rewrite <- Z.pow_add_r by lia. replace (k + 52) with (d - 1) by lia. exact Lq.
    - apply Z.div_lt_upper_bound; [assumption|].
      rewrite <- Z.pow_add_r by lia. replace (k + 53) with d by lia. exact Uq. }
  exists m, e, k, c, t.
  split; [exact E|]. split; [exact Hdm'|]. split; [exact Hk|]. split; [exact Hc|].
  split; [lia|]. split; [exact Bt|]. split; [exact Hb|].
  remember (2 ^ k) as K. remember (2 ^ 53) as X. clear HeqX HeqK.
  split; nia.
Qed.


(** A double that does not exceed the exact quotient does not exceed the
    computed one either: rounding never crosses a double. *)
Lemma div_ge_canonical s1 m1 e1 s2 m2 e2 ml el J :
  Z.pos (digits2_pos m1) = 53 -> Z.pos (digits2_pos m2) = 53 ->
  emin prec emax <= e1 - e2 - 53 -> e1 - e2 - 51 <= emax - prec ->
  canonical_mantissa prec emax ml el = true ->
  0 <= e1 - 53 + J ->
  Z.pos ml * Z.pos m2 * 2 ^ (el + e2 + J) <= Z.pos m1 * 2 ^ (e1 + J) ->
  exists m e,
    div (S754_finite s1 m1 e1) (S754_finite s2 m2 e2) = S754_finite (xorb s1 s2) m e /\
    Z.pos (digits2_pos m) = 53 /\ emin prec emax <= e <= emax - prec /\
    Z.pos ml * 2 ^ (el + 1074) <= Z.pos m * 2 ^ (e + 1074).
Proof.
  intros Hd1 Hd2 Hmin Hmax Cl HJ H.
  destruct (div_core s1 m1 e1 s2 m2 e2 Hd1 Hd2 Hmin Hmax)
    as (m & e & k & c & t & E & Hd & Hk & Hc & He & Bt & Bm & Bq).
  exists m, e. split; [exact E|]. split; [exact Hd|].
  split; [unfold emin, prec, emax in *; lia|].
  set (eT := e1 - e2 - 53 + k) in *.
  pose proof (canonical_bounds _ _ Cl) as (Ll & Dl & Nl).
  unfold emin, prec, emax in Ll, Nl, Hmin, Hmax.
  assert (HeT : 0 <= eT + 1074) by (unfold eT; lia).
  (* the truncated quotient is below the rounded one *)
  apply Z.le_trans with (t * 2 ^ (eT + 1074)).
  2:{ replace (e + 1074) with (c + (eT + 1074)) by lia.
      rewrite (Z.pow_add_r 2 c (eT + 1074)) by lia.
      pose proof (pow2_pos (eT + 1074) HeT). nia. }
  assert (Hpk : 0 < 2 ^ k) by (apply pow2_pos; lia).
  set (b := e1 - 53 + J) in *.
  assert (Hpb : 0 < 2 ^ b) by (apply pow2_pos; lia).
  replace (e1 + J) with (53 + b) in H by (unfold b; lia).
  rewrite (Z.pow_add_r 2 53 b) in H by lia.
  destruct (Z.lt_trichotomy el eT) as [Hlt|[Heq|Hgt]].
  - destruct t as [|pt|pt]; try lia.
    apply Z.lt_le_incl.
    apply canonical_exponent_lt; try assumption; try lia.
    unfold canonical_mantissa. apply Z.eqb_eq.
    rewrite (digits2_pos_eq pt 53) by (change (2 ^ (53 - 1)) with (2 ^ 52); lia).
    unfold fexp, emin, prec, emax. lia.
  - subst el.
    replace (eT + e2 + J) with (k + b) in H by (unfold eT, b; lia).
    rewrite Z.pow_add_r in H by lia.
    assert (Z.pos ml < t + 1); [|pose proof (pow2_pos (eT + 1074) HeT); nia].
    apply Z.mul_lt_mono_pos_r with (2 ^ k * Z.pos m2); [nia|].
    apply Z.le_lt_trans with (Z.pos m1 * 2 ^ 53); [|nia].
    apply Z.mul_le_mono_pos_r with (2 ^ b); [assumption|]. nia.
  - exfalso.
    replace (el + e2 + J) with ((el - eT) + (k + b)) in H by (unfold eT, b; lia).
    rewrite (Z.pow_add_r 2 (el - eT)), (Z.pow_add_r 2 k b) in H by lia.
    specialize (Nl ltac:(lia)).
    pose proof (digits2_pos_bounds ml) as [Lml _]. rewrite Nl in Lml.
    change (2 ^ (53 - 1)) with (2 ^ 52) in Lml.
    assert (Hdelta : 2 ^ 1 <= 2 ^ (el - eT)) by (apply Z.pow_le_mono_r; lia).
    change (2 ^ 1) with 2 in Hdelta.
    assert (H1 : Z.pos ml * 2 ^ (el - eT) * (2 ^ k * Z.pos m2) <= Z.pos m1 * 2 ^ 53).
    { apply Z.mul_le_mono_pos_r with (2 ^ b); [assumption|]. nia. }
    assert (H2 : 2 ^ 53 * (2 ^ k * Z.pos m2) <= Z.pos ml * 2 ^ (el - eT) * (2 ^ k * Z.pos m2)).
    { apply Z.mul_le_mono_nonneg_r; [nia|].
      change (2 ^ 53) with (2 ^ 52 * 2). apply Z.mul_le_mono_nonneg; lia. }
    assert (H3 : (t + 1) * 2 ^ k * Z.pos m2 <= 2 ^ 53 * (2 ^ k * Z.pos m2)).
    { rewrite <- Z.mul_assoc. apply Z.mul_le_mono_nonneg_r; [nia|lia]. }
    lia.
Qed.


(** *** Multiplication of normal doubles *)

Lemma mul_normal s1 m1 e1 s2 m2 e2 :
  Z.pos (digits2_pos m1) = 53 -> Z.pos (digits2_pos m2) = 53 ->
  emin prec emax <= e1 + e2 + 52 -> e1 + e2 + 54 <= emax - prec ->
  exists m e,
    mul (S754_finite s1 m1 e1) (S754_finite s2 m2 e2) = S754_finite (xorb s1 s2) m e /\
    Z.pos (digits2_pos m) = 53 /\ e1 + e2 + 52 <= e <= e1 + e2 + 54.
Proof.
  intros Hd1 Hd2 Hmin Hmax.
  pose proof (digits2_pos_bounds m1) as [L1 U1]. rewrite Hd1 in L1, U1.
  pose proof (digits2_pos_bounds m2) as [L2 U2]. rewrite Hd2 in L2, U2.
  change (2 ^ (53 - 1)) with (2 ^ 52) in L1, L2.
  assert (Hd : 105 <= Z.pos (digits2_pos (m1 * m2)) <= 106).
  { split.
    - apply digits2_pos_ge. rewrite Pos2Z.inj_mul.
      change (2 ^ (105 - 1)) with (2 ^ 52 * 2 ^ 52).
      apply Z.mul_le_mono_nonneg; lia.
    - apply digits2_pos_le; [|lia]. rewrite Pos2Z.inj_mul.
      change (2 ^ 106) with (2 ^ 53 * 2 ^ 53).
      apply Z.mul_lt_mono_nonneg; lia. }
  unfold mul, SFmul.
  destruct (binary_round_aux_normal (xorb s1 s2) (m1 * m2) (e1 + e2) loc_Exact)
    as (m & e & c & E & Hdm & Hc & He & _);
    try (unfold emin, prec, emax in *; lia).
  exists m, e. split; [exact E|]. split; [exact Hdm|]. lia.
Qed.



(** *** Integers that a double holds exactly *)

Lemma exact_small n : 0 <= n < 2 ^ 53 -> exact n.
Proof. intros H. exists n, 0. rewrite Z.pow_0_r, Z.mul_1_r. repeat split; lia. Qed.

(** The double of such an integer: a 53-bit mantissa [m] and an exponent
    [e] with [m * 2^e] the integer itself. *)
Lemma of_uint64_exact p :
  Z.pos p < 2 ^ 64 -> exact (Z.pos p) ->
  exists m e,
    of_uint64 (Z.pos p) = S754_finite false m e /\
    Z.pos (digits2_pos m) = 53 /\ -52 <= e <= 11 /\
    Z.pos m * 2 ^ (52 + e) = Z.pos p * 2 ^ 52.
Proof.
  intros Hlt (m0 & k & Hm & Hk & En).
  assert (Hpk : 0 < 2 ^ k) by (apply pow2_pos; assumption).
  destruct (Z.le_gt_cases (Z.pos (digits2_pos p)) 53) as [Hsmall|Hbig].
  - destruct (of_uint64_small p) as (m' & e & E & He & Hv & Hd).
    + pose proof (digits2_pos_bounds p) as [_ U].
      eapply Z.lt_le_trans; [exact U|]. apply Z.pow_le_mono_r; lia.
    + exists m', e. split; [exact E|]. split; [exact Hd|]. split; [lia|].
      rewrite Hv, <- Z.mul_assoc, <- Z.pow_add_r by lia.
      replace (- e + (52 + e)) with 52 by lia. reflexivity.
  - pose proof (digits2_pos_bounds p) as [Lp Up].
    pose proof (digits2_pos_le p 64 Hlt ltac:(lia)) as Hd64.
    set (d := Z.pos (digits2_pos p)) in *. set (k' := d - 53).
    (* the low [k'] bits of [p] are zero *)
    assert (Hkk : k' <= k).
    { destruct (Z.le_gt_cases k' k) as [|G]; [assumption|exfalso].
      assert (2 ^ (k + 53) <= 2 ^ (d - 1)) by (apply Z.pow_le_mono_r; unfold k' in G; lia).
      rewrite Z.pow_add_r in * by lia. nia. }
    assert (Hpk' : 0 < 2 ^ k') by (apply pow2_pos; unfold k'; lia).
    assert (Hsplit : Z.pos p = m0 * 2 ^ (k - k') * 2 ^ k').
    { rewrite <- Z.mul_assoc, <- Z.pow_add_r by (unfold k'; lia).
      replace (k - k' + k') with k by lia. exact En. }
    destruct (m0 * 2 ^ (k - k')) as [|pm|pm] eqn:Em; try lia.
    assert (Hdm : Z.pos (digits2_pos pm) = 53).
    { apply digits2_pos_eq. change (2 ^ (53 - 1)) with (2 ^ 52). split.
      - apply Z.mul_le_mono_pos_r with (2 ^ k'); [assumption|].
        rewrite <- Hsplit, <- Z.pow_add_r by (unfold k'; lia).
        replace (52 + k') with (d - 1) by (unfold k'; lia). exact Lp.
      - apply Z.mul_lt_mono_pos_r with (2 ^ k'); [assumption|].
        rewrite <- Hsplit, <- Z.pow_add_r by (unfold k'; lia).
        replace (53 + k') with d by (unfold k'; lia). exact Up. }
    assert (Hf : fexp prec emax (d + 0) = k')
      by (unfold fexp, emin, prec, emax, k'; lia).
    exists pm, k'.
    unfold of_uint64, binary_normalize, binary_round, shl_align. fold d.
    rewrite Hf, Z.sub_0_r.
    assert (Hk'pos : 0 < k') by (unfold k'; lia).
    destruct k' as [|pk|pk] eqn:Ek'; try lia.
    rewrite Hsplit at 1.
    rewrite binary_round_aux_exact;
      try (unfold canonical_mantissa, fexp, emin, prec, emax; try apply Z.eqb_eq; lia).
    split; [reflexivity|]. split; [exact Hdm|]. split; [lia|].
    rewrite Hsplit, (Z.pow_add_r 2 52 (Z.pos pk)) by lia. ring.
Qed.

(** It converts to double and back unchanged. *)
Lemma of_uint64_roundtrip n :
  0 <= n < 2 ^ 64 -> exact n -> to_uint64 (of_uint64 n) = Some n.
Proof.
  intros [Hn Hlt] Hex. destruct n as [|p|p]; try lia; [reflexivity|].
  destruct (of_uint64_exact p Hlt Hex) as (m & e & E & Hd & He & Hv).
  rewrite E. unfold to_uint64, truncate.
  assert (R : (0 <=? Z.pos p) && (Z.pos p <=? uint64_max) = true).
  { apply andb_true_intro. split; apply Z.leb_le; unfold uint64_max; lia. }
  destruct (0 <=? e) eqn:E0.
  - apply Z.leb_le in E0.
    rewrite (Z.pow_add_r 2 52 e) in Hv by lia.
    assert (Z.pos m * 2 ^ e = Z.pos p) as -> by nia.
    rewrite R. reflexivity.
  - apply Z.leb_gt in E0.
    assert (Hpe : 0 < 2 ^ (- e)) by (apply pow2_pos; lia).
    assert (Hm : Z.pos m = Z.pos p * 2 ^ (- e)).
    { replace 52 with ((52 + e) + - e) in Hv at 2 by lia.
      rewrite (Z.pow_add_r 2 (52 + e) (- e)) in Hv by lia.
      pose proof (pow2_pos (52 + e) ltac:(lia)). nia. }
    rewrite Hm, Z.div_mul by lia. rewrite R. reflexivity.
Qed.

End DoubleFacts.

(** * Properties of the order *)

(** ** Status and frame of [updateStatus] *)

Lemma status_updateStatus s r o : status (updateStatus s r o) = s.
Proof. unfold updateStatus. destruct (negb (is_empty r)); reflexivity. Qed.

Lemma failure_reason_updateStatus s r o :
  failure_reason (updateStatus s r o) = if is_empty r then failure_reason o else r.
Proof. unfold updateStatus. destruct (is_empty r); reflexivity. Qed.

Lemma updateStatus_same s r o : same_but_status_and_reason o (updateStatus s r o).
Proof.
  unfold updateStatus, same_but_status_and_reason.
  destruct (negb (is_empty r)); cbn; repeat split; reflexivity.
Qed.

Lemma same_terms_refl o : same_terms o o.
Proof. unfold same_terms. repeat split; reflexivity. Qed.

Lemma same_terms_trans o1 o2 o3 :
  same_terms o1 o2 -> same_terms o2 o3 -> same_terms o1 o3.
Proof. unfold same_terms. intuition congruence. Qed.


Lemma keeps_weaken {A} (R R' : LimitOrder -> LimitOrder -> Prop) (m : M A) :
  (forall o o', R o o' -> R' o o') -> keeps R m -> keeps R' m.
Proof.
  intros HR Hm o w. specialize (Hm o w).
  destruct (m o w); auto.
Qed.

(** C10. [updateStatus] called with an empty reason leaves [failure_reason]
    as it was, and whatever its arguments it changes no field other than
    [status] and [failure_reason]. *)
Theorem updateStatus_frame :
  (forall new_status o,
      failure_reason (updateStatus new_status "" o) = failure_reason o) /\
  (forall new_status reason o,
      same_but_status_and_reason o (updateStatus new_status reason o)).
Proof.
  split.
  - intros. rewrite failure_reason_updateStatus. reflexivity.
  - intros. apply updateStatus_same.
Qed.

(** ** The price check *)

Import DoubleFacts.

Lemma isPriceMet_terms o o' q :
  input_amount o' = input_amount o -> limit_price o' = limit_price o ->
  isPriceMet o' q = isPriceMet o q.
Proof. unfold isPriceMet. intros -> ->. reflexivity. Qed.

(** The computed rate is a double like any other. *)
Lemma rate_valid q input :
  0 <= q < 2 ^ 64 -> 0 < input < 2 ^ 64 ->
  Double.is_finite (Double.div (Double.of_uint64 q) (Double.of_uint64 input)) = true /\
  Double.valid (Double.div (Double.of_uint64 q) (Double.of_uint64 input)) = true.
Proof.
  intros Hq Hi.
  destruct input as [|pi|pi]; try lia.
  destruct (of_uint64_normal pi) as (m2 & e2 & E2 & D2 & B2); [lia|].
  rewrite E2.
  destruct q as [|pq|pq]; try lia.
  - split; reflexivity.
  - destruct (of_uint64_normal pq) as (m1 & e1 & E1 & D1 & B1); [lia|].
    rewrite E1.
    destruct (div_core false m1 e1 false m2 e2 D1 D2)
      as (m & e & k & c & t & E & D & Hk & Hc & He & _);
      try (unfold emin, Double.prec, Double.emax; lia).
    rewrite E. split; [reflexivity|].
    apply normal_valid; [exact D|]. unfold emin, Double.prec, Double.emax. lia.
Qed.

Lemma isPriceMet_value o q :
  0 <= q < 2 ^ 64 -> 0 < input_amount o < 2 ^ 64 ->
  Double.is_finite (limit_price o) = true -> Double.valid (limit_price o) = true ->
  isPriceMet o q = true <->
  (Double.value (limit_price o)
   <= Double.value (Double.div (Double.of_uint64 q) (Double.of_uint64 (input_amount o))))%Q.
Proof.
  intros Hq Hi Hf Hv.
  destruct (rate_valid q (input_amount o) Hq Hi) as [Rf Rv].
  unfold isPriceMet.
  replace (input_amount o =? 0) with false by (symmetry; apply Z.eqb_neq; lia).
  unfold Double.geb. apply SFleb_value; assumption.
Qed.

(** A quote that meets the limit in exact arithmetic is accepted, when
    the two amounts are integers that doubles hold exactly. *)
Lemma isPriceMet_exact_sound o q :
  0 <= q < 2 ^ 64 -> 0 < input_amount o < 2 ^ 64 ->
  Double.exact q -> Double.exact (input_amount o) ->
  Double.is_finite (limit_price o) = true -> Double.valid (limit_price o) = true ->
  (Double.value (limit_price o) * inject_Z (input_amount o) <= inject_Z q)%Q ->
  isPriceMet o q = true.
Proof.
  intros Hq Hi Xq Xi Hf Hv Hle.
  unfold isPriceMet.
  replace (input_amount o =? 0) with false by (symmetry; apply Z.eqb_neq; lia).
  destruct (input_amount o) as [|pi|pi] eqn:Ei; try lia.
  destruct (of_uint64_exact pi) as (m2 & e2 & E2 & D2 & B2 & V2); [lia|assumption|].
  rewrite E2. unfold Double.geb.
  destruct (limit_price o) as [sl|sl| |sl ml el] eqn:El; try discriminate.
  - (* the limit is zero *)
    destruct q as [|pq|pq]; try lia; [reflexivity|].
    destruct (of_uint64_exact pq) as (m1 & e1 & E1 & D1 & B1 & V1); [lia|assumption|].
    rewrite E1.
    destruct (div_core false m1 e1 false m2 e2 D1 D2) as (m & e & k & c & t & E & _);
      try (unfold emin, Double.prec, Double.emax; lia).
    rewrite E. reflexivity.
  - destruct sl.
    + (* a negative limit is met by every quote *)
      destruct q as [|pq|pq]; try lia; [reflexivity|].
      destruct (of_uint64_exact pq) as (m1 & e1 & E1 & D1 & B1 & V1); [lia|assumption|].
      rewrite E1.
      destruct (div_core false m1 e1 false m2 e2 D1 D2) as (m & e & k & c & t & E & _);
        try (unfold emin, Double.prec, Double.emax; lia).
      rewrite E. reflexivity.
    + unfold Double.valid, valid_binary, bounded in Hv.
      apply andb_prop in Hv as [Cl Bl].
      pose proof (canonical_bounds _ _ Cl) as (Ll & _).
      unfold emin, Double.prec, Double.emax in Ll.
      (* the hypothesis, over the integers *)
      assert (HZ : Z.pos ml * 2 ^ (el + 1074) * Z.pos pi <= q * 2 ^ 1074).
      { assert (Hp : (0 < inject_Z (2 ^ 1074))%Q).
        { replace 0%Q with (inject_Z 0) by reflexivity. rewrite <- Zlt_Qlt.
          apply pow2_pos; lia. }
        apply (Qmult_le_r _ _ _ Hp) in Hle.
        rewrite (Qmult_comm (Double.value _)), <- Qmult_assoc in Hle.
        rewrite (value_scale false ml el 1074) in Hle by lia.
        cbn [Double.signed] in Hle.
        rewrite <- !inject_Z_mult, <- Zle_Qle in Hle.
        rewrite Z.mul_comm. exact Hle. }
      destruct q as [|pq|pq]; try lia.
      destruct (of_uint64_exact pq) as (m1 & e1 & E1 & D1 & B1 & V1); [lia|assumption|].
      rewrite E1.
      destruct (div_ge_canonical false m1 e1 false m2 e2 ml el 1126)
        as (m & e & E & D & Be & Hge); try assumption;
        try (unfold emin, Double.prec, Double.emax; lia).
      { replace (el + e2 + 1126) with ((el + 1074) + (52 + e2)) by lia.
        replace (e1 + 1126) with (1074 + (52 + e1)) by lia.
        rewrite (Z.pow_add_r 2 (el + 1074) (52 + e2)), (Z.pow_add_r 2 1074 (52 + e1)) by lia.
        remember (2 ^ (el + 1074)) as A. remember (2 ^ 1074) as B.
        replace (Z.pos ml * Z.pos m2 * (A * 2 ^ (52 + e2)))
          with (Z.pos ml * A * (Z.pos m2 * 2 ^ (52 + e2))) by ring.
        replace (Z.pos m1 * (B * 2 ^ (52 + e1)))
          with (Z.pos m1 * 2 ^ (52 + e1) * B) by ring.
        rewrite V1, V2.
        assert (H52 : 0 <= 2 ^ 52) by (apply Z.pow_nonneg; lia).
        apply (Z.mul_le_mono_nonneg_r _ _ _ H52) in HZ.
        replace (Z.pos ml * A * (Z.pos pi * 2 ^ 52))
          with (Z.pos ml * A * Z.pos pi * 2 ^ 52) by ring.
        replace (Z.pos pq * 2 ^ 52 * B) with (Z.pos pq * B * 2 ^ 52) by ring.
        exact HZ. }
      rewrite E.
      apply SFleb_value; try reflexivity.
      * unfold Double.valid, valid_binary, bounded. rewrite Cl, Bl. reflexivity.
      * apply normal_valid; assumption.
      * apply (value_le_scaled false ml el false m e 1074); try lia.
        { unfold emin, Double.prec, Double.emax in Be. lia. }
        exact Hge.
Qed.

(** An input of 2^53 + 3 units at limit price 3: the quote 3 * (2^53 + 3) is
    exactly on the limit, yet both amounts are rounded when they are
    converted to double and the computed rate falls just below 3. *)
Lemma isPriceMet_boundary_rejected :
  input_amount (sample_order GTC 9007199254740995 (Double.literal 3 1)) = 9007199254740995 /\
  (Double.value (limit_price (sample_order GTC 9007199254740995 (Double.literal 3 1)))
   == inject_Z 3)%Q /\
  27021597764222985 = 9007199254740995 * 3 /\
  27021597764222985 <= Double.uint64_max /\
  isPriceMet (sample_order GTC 9007199254740995 (Double.literal 3 1)) 27021597764222985
  = false.
Proof. repeat split; vm_compute; first [reflexivity | discriminate]. Qed.

(** C5 (amended). [isPriceMet] is false when the input amount is 0.
    Otherwise it is true exactly when the rate [q / input_amount], computed
    in binary64 from the two amounts converted to double, is [>=] the limit
    price.  For amounts of 64 bits and a limit price that is a finite
    double, that comparison is the order of the exact values of the two
    doubles.  The limit is inclusive for amounts that doubles hold exactly,
    in particular for all amounts below 2^53: whenever
    [limit_price * input_amount <= q] holds in exact arithmetic, equality
    included, the answer is true. *)
Theorem isPriceMet_spec (o : LimitOrder) (q : Z) :
  (input_amount o = 0 -> isPriceMet o q = false) /\
  (input_amount o <> 0 ->
   (isPriceMet o q = true <->
    Double.geb (Double.div (Double.of_uint64 q) (Double.of_uint64 (input_amount o)))
               (limit_price o) = true)) /\
  (0 <= q < 2 ^ 64 -> 0 < input_amount o < 2 ^ 64 ->
   Double.is_finite (limit_price o) = true -> Double.valid (limit_price o) = true ->
   (isPriceMet o q = true <->
    (Double.value (limit_price o)
     <= Double.value (Double.div (Double.of_uint64 q)
                                 (Double.of_uint64 (input_amount o))))%Q)) /\
  (0 <= q < 2 ^ 64 -> 0 < input_amount o < 2 ^ 64 ->
   Double.exact q -> Double.exact (input_amount o) ->
   Double.is_finite (limit_price o) = true -> Double.valid (limit_price o) = true ->
   (Double.value (limit_price o) * inject_Z (input_amount o) <= inject_Z q)%Q ->
   isPriceMet o q = true) /\
  (0 <= q < 2 ^ 53 -> 0 < input_amount o < 2 ^ 53 ->
   Double.is_finite (limit_price o) = true -> Double.valid (limit_price o) = true ->
   (Double.value (limit_price o) * inject_Z (input_amount o) <= inject_Z q)%Q ->
   isPriceMet o q = true).
Proof.
  split; [|split; [|split; [|split]]].
  - intros H. unfold isPriceMet. rewrite H. reflexivity.
  - intros H. unfold isPriceMet. apply Z.eqb_neq in H. rewrite H. reflexivity.
  - apply isPriceMet_value.
  - apply isPriceMet_exact_sound.
  - intros Hq Hi. apply isPriceMet_exact_sound.
    + assert (2 ^ 53 < 2 ^ 64) by (apply Z.pow_lt_mono_r; lia). lia.
    + assert (2 ^ 53 < 2 ^ 64) by (apply Z.pow_lt_mono_r; lia). lia.
    + apply exact_small. exact Hq.
    + apply exact_small. lia.
Qed.

(** At limit price 1.5 and input 1,000,000 the quote 1,500,000 is exactly
    on the limit. *)
Lemma isPriceMet_spec_witness :
  isPriceMet zero_amount_order 1500000 = false /\
  (Double.value (limit_price (sample_order GTC 1000000 (Double.literal 3 2)))
   * inject_Z (input_amount (sample_order GTC 1000000 (Double.literal 3 2)))
   == inject_Z 1500000)%Q /\
  isPriceMet (sample_order GTC 1000000 (Double.literal 3 2)) 1500000 = true.
Proof.
  split; [|split].
  - exact (proj1 (isPriceMet_spec zero_amount_order 1500000) eq_refl).
  - vm_compute. reflexivity.
  - assert (Hq : 0 <= 1500000 < 2 ^ 53) by (vm_compute; split; [discriminate|reflexivity]).
    assert (Hi : 0 < input_amount (sample_order GTC 1000000 (Double.literal 3 2)) < 2 ^ 53)
      by (vm_compute; split; reflexivity).
    assert (Hf : Double.is_finite
                   (limit_price (sample_order GTC 1000000 (Double.literal 3 2))) = true)
      by (vm_compute; reflexivity).
    assert (Hv : Double.valid
                   (limit_price (sample_order GTC 1000000 (Double.literal 3 2))) = true)
      by (vm_compute; reflexivity).
    assert (Hle : (Double.value (limit_price (sample_order GTC 1000000 (Double.literal 3 2)))
                   * inject_Z (input_amount (sample_order GTC 1000000 (Double.literal 3 2)))
                   <= inject_Z 1500000)%Q)
      by (vm_compute; discriminate).
    exact (proj2 (proj2 (proj2 (proj2
             (isPriceMet_spec (sample_order GTC 1000000 (Double.literal 3 2)) 1500000))))
             Hq Hi Hf Hv Hle).
Defined.

Lemma getMaxFillableAmount_not_met o q :
  isPriceMet o q = false -> getMaxFillableAmount o q = 0.
Proof.
  intros H. unfold getMaxFillableAmount. rewrite H.
  destruct (input_amount o =? 0); [reflexivity|].
  destruct (_ =? 0); reflexivity.
Qed.

(** ** The fill percentage *)

Lemma getFillPercentage_finite o :
  0 <= filled_amount o < 2 ^ 64 -> 0 <= input_amount o < 2 ^ 64 ->
  Double.is_finite (getFillPercentage o) = true.
Proof.
  intros Hf Hi. unfold getFillPercentage.
  destruct (input_amount o) as [|pi|pi] eqn:Ei; try lia; [reflexivity|].
  cbn [Z.eqb].
  destruct (of_uint64_normal pi) as (m2 & e2 & E2 & D2 & B2); [lia|].
  rewrite E2.
  destruct (filled_amount o) as [|pf|pf]; try lia; [reflexivity|].
  destruct (of_uint64_normal pf) as (m1 & e1 & E1 & D1 & B1); [lia|].
  rewrite E1.
  destruct (div_core false m1 e1 false m2 e2 D1 D2)
    as (m & e & k & c & t & E & D & Hk & Hc & He & _);
    try (unfold emin, Double.prec, Double.emax; lia).
  rewrite E. unfold Double.hundred.
  destruct (mul_normal (xorb false false) m e false 7036874417766400 (-46) D)
    as (m' & e' & E' & _); try reflexivity;
    try (unfold emin, Double.prec, Double.emax; lia).
  rewrite E'. reflexivity.
Qed.

(** C9. [getFillPercentage] returns 0.0 when the input amount is 0.  When
    it does divide, the divisor is a finite double other than zero, and for
    amounts of 64 bits the result is a finite double (never NaN). *)
Theorem getFillPercentage_guarded :
  (forall o, input_amount o = 0 -> getFillPercentage o = Double.zero) /\
  (forall o, 0 < input_amount o < 2 ^ 64 ->
     exists m e, Double.of_uint64 (input_amount o) = S754_finite false m e) /\
  (forall o, 0 <= filled_amount o < 2 ^ 64 -> 0 <= input_amount o < 2 ^ 64 ->
     Double.is_finite (getFillPercentage o) = true).
Proof.
  split; [|split].
  - intros o H. unfold getFillPercentage. rewrite H. reflexivity.
  - intros o H. destruct (input_amount o) as [|p|p]; try lia.
    destruct (of_uint64_normal p) as (m & e & E & _); [lia|]. eauto.
  - exact getFillPercentage_finite.
Qed.

Lemma getFillPercentage_guarded_witness :
  input_amount zero_amount_order = 0 /\
  getFillPercentage zero_amount_order = Double.zero /\
  Double.is_finite (getFillPercentage (sample_order IOC 1000000 (Double.literal 95 100))) = true.
Proof.
  split; [reflexivity|]. split.
  - apply (proj1 getFillPercentage_guarded). reflexivity.
  - apply (proj2 (proj2 getFillPercentage_guarded)); vm_compute; split; congruence.
Defined.

(** ** The slippage floor *)

Lemma sub_one_zero s : Double.sub Double.one (S754_zero s) = Double.one.
Proof. destruct s; reflexivity. Qed.

Lemma getMinOutputWithSlippage_floor o q :
  Double.is_finite
    (Double.mul (Double.of_uint64 q) (Double.sub Double.one (slippage_tolerance o))) = true ->
  (0 <= Double.value
          (Double.mul (Double.of_uint64 q) (Double.sub Double.one (slippage_tolerance o))))%Q ->
  (Double.value
     (Double.mul (Double.of_uint64 q) (Double.sub Double.one (slippage_tolerance o)))
   < inject_Z two64)%Q ->
  getMinOutputWithSlippage o q
  = Some (Qfloor (Double.value
                    (Double.mul (Double.of_uint64 q)
                                (Double.sub Double.one (slippage_tolerance o))))).
Proof. intros. unfold getMinOutputWithSlippage. apply to_uint64_floor; assumption. Qed.

Lemma getMinOutputWithSlippage_no_slippage o q :
  (slippage_tolerance o = S754_zero false \/ slippage_tolerance o = S754_zero true) ->
  0 <= q < 2 ^ 64 -> Double.exact q ->
  getMinOutputWithSlippage o q = Some q.
Proof.
  intros Hs Hq Hx. unfold getMinOutputWithSlippage.
  assert (Hone : Double.sub Double.one (slippage_tolerance o) = Double.one).
  { destruct Hs as [-> | ->]; apply sub_one_zero. }
  rewrite Hone, mul_one_r.
  - apply of_uint64_roundtrip; assumption.
  - apply of_uint64_valid. exact Hq.
Qed.

(** With no slippage allowed, a quote of 2^53 + 1 comes back as 2^53: the
    conversion of the quote to double rounds it. *)
Lemma slippage_zero_loses_precision :
  slippage_tolerance (order_with GTC 1000000 Double.one Double.zero) = Double.zero /\
  0 <= 9007199254740993 <= Double.uint64_max /\
  getMinOutputWithSlippage (order_with GTC 1000000 Double.one Double.zero) 9007199254740993
    = Some 9007199254740992 /\
  getMinOutputWithSlippage (order_with GTC 1000000 Double.one Double.zero) 9007199254740993
    <> Some 9007199254740993.
Proof.
  split; [reflexivity|]. split; [vm_compute; split; discriminate|].
  split; [vm_compute; reflexivity|]. vm_compute. discriminate.
Qed.

(** C7 (amended). [getMinOutputWithSlippage] returns the binary64 product
    of the quote, converted to double, and [1 - slippage_tolerance],
    truncated to an integer, whenever that product is finite and lies in
    [0, 2^64).  With a slippage tolerance of 0 the result is the quote
    itself for every quote that a double holds exactly ([m * 2^k] with
    [m < 2^53], below 2^64), in particular for every quote below 2^53. *)
Theorem getMinOutputWithSlippage_spec :
  (forall o q,
      Double.is_finite
        (Double.mul (Double.of_uint64 q) (Double.sub Double.one (slippage_tolerance o)))
        = true ->
      (0 <= Double.value
              (Double.mul (Double.of_uint64 q)
                          (Double.sub Double.one (slippage_tolerance o))))%Q ->
      (Double.value
         (Double.mul (Double.of_uint64 q) (Double.sub Double.one (slippage_tolerance o)))
       < inject_Z two64)%Q ->
      getMinOutputWithSlippage o q
      = Some (Qfloor (Double.value
                        (Double.mul (Double.of_uint64 q)
                                    (Double.sub Double.one (slippage_tolerance o)))))) /\
  (forall o q,
      (slippage_tolerance o = S754_zero false \/ slippage_tolerance o = S754_zero true) ->
      0 <= q < 2 ^ 64 -> Double.exact q ->
      getMinOutputWithSlippage o q = Some q) /\
  (forall o q,
      (slippage_tolerance o = S754_zero false \/ slippage_tolerance o = S754_zero true) ->
      0 <= q < 2 ^ 53 ->
      getMinOutputWithSlippage o q = Some q).
Proof.
  split; [exact getMinOutputWithSlippage_floor|].
  split; [exact getMinOutputWithSlippage_no_slippage|].
  intros o q Hs Hq.
  apply getMinOutputWithSlippage_no_slippage; [assumption| |apply exact_small; exact Hq].
  assert (2 ^ 53 < 2 ^ 64) by (apply Z.pow_lt_mono_r; lia). lia.
Qed.

(** The quote 1,010,000 at tolerance 0.005 gives the floor 1,004,950; at
    tolerance 0 the quotes 1,000,000 and 3 * 2^60 come back unchanged. *)
Lemma getMinOutputWithSlippage_spec_witness :
  getMinOutputWithSlippage (sample_order GTC 1000000 Double.one) 1010000 = Some 1004950 /\
  getMinOutputWithSlippage (order_with GTC 1000000 Double.one Double.zero) 1000000
    = Some 1000000 /\
  getMinOutputWithSlippage (order_with GTC 1000000 Double.one Double.zero) (3 * 2 ^ 60)
    = Some (3 * 2 ^ 60).
Proof.
  split; [|split].
  - rewrite (proj1 getMinOutputWithSlippage_spec
               (sample_order GTC 1000000 Double.one) 1010000);
      vm_compute; first [reflexivity | discriminate].
  - apply (proj2 (proj2 getMinOutputWithSlippage_spec));
      [left; reflexivity|vm_compute; split; [discriminate|reflexivity]].
  - apply (proj1 (proj2 getMinOutputWithSlippage_spec)).
    + left. reflexivity.
    + vm_compute. split; [discriminate|reflexivity].
    + exists 3, 60. vm_compute. repeat split; discriminate.
Defined.

(** * Properties of the strategies and of the engine *)

(** ** What a strategy does to an order

    No strategy assigns the terms of the order, and the status it leaves is
    the one it found or a terminal one; the good-till-time strategy does
    not assign [received_amount] either. *)

Lemma advances_refl o : advances o o.
Proof. split; [apply same_terms_refl|left; reflexivity]. Qed.

Lemma advances_trans o1 o2 o3 : advances o1 o2 -> advances o2 o3 -> advances o1 o3.
Proof.
  intros [T1 S1] [T2 S2]. split; [eapply same_terms_trans; eassumption|].
  destruct S2 as [S2|S2]; [|right; exact S2].
  rewrite S2. exact S1.
Qed.


Lemma gtt_frame_trans o1 o2 o3 :
  advances o1 o2 /\ same_received_amount o1 o2 ->
  advances o2 o3 /\ same_received_amount o2 o3 ->
  advances o1 o3 /\ same_received_amount o1 o3.
Proof.
  unfold same_received_amount. intros [T1 R1] [T2 R2].
  split; [eapply advances_trans; eassumption|congruence].
Qed.


Lemma executeGTC_body_advances env pool c : keeps advances (executeGTC_body env pool c).
Proof.
  intros o w. unfold executeGTC_body. mrun. ask_oracle; mrun; [|frame].
  destruct (isPriceMet _ _); mrun; [|frame].
  destruct (getMinOutputWithSlippage _ _); mrun; [|exact I].
  ask_oracle; mrun; frame.
Qed.

Lemma executeGTC_loop_advances env pool fuel :
  forall c, keeps advances (executeGTC_loop fuel env pool c).
Proof.
  induction fuel as [|fuel IH]; intros c o w; cbn [executeGTC_loop]; [exact I|].
  assert (Hstep : forall w0,
    match (step <- executeGTC_body env pool c ;;
           match step with
           | Return => ret Return
           | Next c' => executeGTC_loop fuel env pool c'
           end) o w0 with
    | Done _ o' _ | Raised _ o' _ => advances o o'
    | _ => True
    end).
  { intros w0. unfold bind at 1.
    pose proof (executeGTC_body_advances env pool c o w0) as B.
    destruct (executeGTC_body env pool c o w0) as [[c'|] o1 w1|what o1 w1| |]; auto.
    specialize (IH c' o1 w1).
    destruct (executeGTC_loop fuel env pool c' o1 w1); auto;
      eapply advances_trans; eassumption. }
  mrun.
  destruct (OrderStatus_eqb (status o) ACTIVE); mrun; [|apply advances_refl].
  destruct (TimeInForce_eqb (tif_policy o) GTT) eqn:Etif; mrun.
  - destruct (expiry_time o <=? now env (tick w)); mrun; [apply advances_refl|].
    destruct (c <? max_checks); mrun; [exact (Hstep _)|apply advances_refl].
  - destruct (c <? max_checks); mrun; [exact (Hstep _)|apply advances_refl].
Qed.

Lemma executeGTC_advances fuel env : keeps advances (executeGTC fuel env).
Proof.
  intros o w. unfold executeGTC. unfold bind at 1. unfold this at 1. unfold bind at 1.
  pose proof (executeGTC_loop_advances env (pool_address o) fuel 0 o w) as L.
  destruct (executeGTC_loop fuel env (pool_address o) 0 o w)
    as [[c|] o1 w1|what o1 w1| |]; auto.
  destruct (max_checks <=? c); mrun; [|exact L].
  eapply advances_trans; [exact L|frame].
Qed.

Lemma executeGTT_body_frame env pool :
  keeps (fun o o' => advances o o' /\ same_received_amount o o')
        (executeGTT_body env pool).
Proof.
  intros o w. unfold executeGTT_body. mrun. ask_oracle; mrun; [|frame].
  destruct (isPriceMet _ _); mrun; [|frame].
  destruct (getMinOutputWithSlippage _ _); mrun; [|exact I].
  ask_oracle; mrun; frame.
Qed.

Lemma executeGTT_loop_frame env pool fuel :
  keeps (fun o o' => advances o o' /\ same_received_amount o o')
        (executeGTT_loop fuel env pool).
Proof.
  induction fuel as [|fuel IH]; intros o w; cbn [executeGTT_loop]; [exact I|].
  assert (Hstep : forall w0,
    match (step <- executeGTT_body env pool ;;
           match step with
           | Return => ret Return
           | Next _ => executeGTT_loop fuel env pool
           end) o w0 with
    | Done _ o' _ | Raised _ o' _ => advances o o' /\ same_received_amount o o'
    | _ => True
    end).
  { intros w0. unfold bind at 1.
    pose proof (executeGTT_body_frame env pool o w0) as B.
    destruct (executeGTT_body env pool o w0) as [[u|] o1 w1|what o1 w1| |]; auto.
    specialize (IH o1 w1).
    destruct (executeGTT_loop fuel env pool o1 w1); auto;
      eapply gtt_frame_trans; eassumption. }
  mrun.
  destruct (OrderStatus_eqb (status o) ACTIVE); mrun; [|frame].
  destruct (TimeInForce_eqb (tif_policy o) GTT) eqn:Etif; mrun.
  - destruct (expiry_time o <=? now env (tick w)); mrun; [frame|].
    rewrite Etif; mrun.
    destruct (expiry_time o <=? now env (S (tick w))); mrun; [frame|].
    exact (Hstep _).
  - rewrite Etif; mrun. exact (Hstep _).
Qed.

Lemma executeGTT_frame fuel env :
  keeps (fun o o' => advances o o' /\ same_received_amount o o') (executeGTT fuel env).
Proof.
  intros o w. unfold executeGTT. unfold bind at 1. unfold this at 1. unfold bind at 1.
  pose proof (executeGTT_loop_frame env (pool_address o) fuel o w) as L.
  destruct (executeGTT_loop fuel env (pool_address o) o w)
    as [[u|] o1 w1|what o1 w1| |]; auto.
  mrun.
  destruct (TimeInForce_eqb (tif_policy o1) GTT); mrun; [|exact L].
  destruct (expiry_time o1 <=? now env (tick w1)); mrun; [|exact L].
  eapply gtt_frame_trans; [exact L|frame].
Qed.

Lemma executeGTT_advances fuel env : keeps advances (executeGTT fuel env).
Proof.
  apply (keeps_weaken (fun o o' => advances o o' /\ same_received_amount o o'));
    [intros o o' [T _]; exact T|apply executeGTT_frame].
Qed.

Lemma executeIOC_advances env : keeps advances (executeIOC env).
Proof.
  intros o w. unfold executeIOC. mrun. ask_oracle; mrun; [|frame].
  destruct (Double.to_uint64 _); mrun; [|exact I].
  destruct (isPriceMet _ _); mrun.
  - destruct (getMinOutputWithSlippage _ _); mrun; [|exact I].
    ask_oracle; mrun; frame.
  - destruct (0 <? getMaxFillableAmount _ _); mrun; [|frame].
    ask_oracle; mrun; [|frame].
    destruct (getMinOutputWithSlippage _ _); mrun; [|exact I].
    ask_oracle; mrun; frame.
Qed.

Lemma executeFOK_advances env : keeps advances (executeFOK env).
Proof.
  intros o w. unfold executeFOK. mrun. ask_oracle; mrun; [|frame].
  destruct (isPriceMet _ _); mrun; [|frame].
  destruct (skip_liquidity_check env); mrun.
  - destruct (getMinOutputWithSlippage _ _); mrun; [|exact I].
    ask_oracle; mrun; frame.
  - unfold executeFOK_liquidity. mrun.
    destruct (Double.to_uint64 _); mrun; [|exact I].
    ask_oracle; mrun.
    + destruct (0 <? _); mrun; [|frame].
      destruct (getMinOutputWithSlippage _ _); mrun; [|exact I].
      ask_oracle; mrun; frame.
    + destruct (getMinOutputWithSlippage _ _); mrun; [|exact I].
      ask_oracle; mrun; frame.
Qed.





Lemma processOrders_body_advances fuel env : keeps advances (processOrders_body fuel env).
Proof.
  intros o w. unfold processOrders_body.
  unfold bind at 1.
  assert (Hx : forall w0,
    match (o0 <- this ;;
           match tif_policy o0 with
           | GTC => executeGTC fuel env
           | GTT => executeGTT fuel env
           | IOC => executeIOC env
           | FOK => executeFOK env
           end) o w0 with
    | Done _ o' _ | Raised _ o' _ => advances o o'
    | _ => True
    end).
  { intros w0. unfold bind, this.
    destruct (tif_policy o);
      [apply executeGTC_advances|apply executeGTT_advances|apply executeIOC_advances
      |apply executeFOK_advances]. }
  mrun.
  destruct (OrderStatus_eqb (status o) ACTIVE); mrun; [|apply advances_refl].
  destruct (TimeInForce_eqb (tif_policy o) GTT) eqn:Etif; mrun.
  - destruct (expiry_time o <=? now env (tick w)); mrun; [apply advances_refl|].
    exact (Hx _).
  - exact (Hx _).
Qed.

Lemma processOrders_for_advances fuel env orders :
  forall w,
    match processOrders_for fuel env orders w with
    | Done _ orders' _ | Raised _ orders' _ => Forall2 advances orders orders'
    | _ => True
    end.
Proof.
  induction orders as [|o rest IH]; intros w; cbn [processOrders_for].
  - constructor.
  - pose proof (processOrders_body_advances fuel env o w) as B.
    destruct (processOrders_body fuel env o w) as [r o' w'|what o' w'| |]; auto.
    + specialize (IH w').
      destruct (processOrders_for fuel env rest w'); auto; constructor; assumption.
    + constructor; [assumption|].
      clear. induction rest; constructor; auto using advances_refl.
Qed.

Lemma processOrders_advances fuel env engine w engine' w' :
  processOrders fuel env engine w = Done tt engine' w' ->
  Forall2 advances (active_orders engine) (active_orders engine').
Proof.
  intros H. unfold processOrders in H.
  pose proof (processOrders_for_advances fuel env (active_orders engine) w) as K.
  destruct (processOrders_for fuel env (active_orders engine) w); try discriminate.
  inversion H; subst. exact K.
Qed.

(** ** The minimum output amount *)








(** An input amount above 2^53 is rounded when it is converted: at limit
    price 1 the minimum output of 2^53 + 1 units is 2^53. *)
Lemma min_output_amount_rounds_input :
  option_map min_output_amount
    (new_LimitOrder 0 "ORDER" "0xTokenA" "0xTokenB" 9007199254740993 Double.one
                    (Double.literal 5 1000) GTC "0xUser" "key")
  = Some 9007199254740992.
Proof. vm_compute. reflexivity. Qed.



(** ** Immediate-or-cancel *)

(** Every way [executeIOC] can end. *)
Lemma executeIOC_outcome env o w :
  match executeIOC env o w with
  | Done _ o' _ => ioc_final (status o') = true
  | Raised _ _ _ => False
  | OutOfFuel => False
  | Undefined =>
      Double.to_uint64 (Double.mul (Double.of_uint64 (input_amount o)) (limit_price o)) = None
      \/ exists q, getMinOutputWithSlippage o q = None
  end.
Proof.
  unfold executeIOC. mrun.
  ask_oracle; mrun.
  2:{ rewrite status_updateStatus. reflexivity. }
  destruct (Double.to_uint64 _) as [expected|] eqn:E; [|now left].
  match goal with
  | |- context [isPriceMet ?o' ?q] =>
      rewrite (isPriceMet_terms o o' q) by reflexivity
  end.
  destruct (isPriceMet o a) eqn:Hmet.
  - match goal with
    | |- context [getMinOutputWithSlippage ?o' ?q] =>
        change (getMinOutputWithSlippage o' q) with (getMinOutputWithSlippage o q)
    end.
    destruct (getMinOutputWithSlippage o a) as [m|] eqn:Em; [|right; eauto].
    mrun. ask_oracle; mrun; rewrite status_updateStatus; reflexivity.
  - match goal with
    | |- context [getMaxFillableAmount ?o' ?q] =>
        change (getMaxFillableAmount o' q) with (getMaxFillableAmount o q)
    end.
    rewrite (getMaxFillableAmount_not_met _ _ Hmet).
    change (0 <? 0) with false. mrun.
    rewrite status_updateStatus. reflexivity.
Qed.

(** C1. When the price is not met nothing is fillable, so the partial-fill
    branch of the immediate-or-cancel strategy is never taken: a run that
    returns leaves the order FILLED, CANCELED or FAILED, never
    PARTIALLY_FILLED.  The strategy always returns, unless one of its two
    conversions of a double to an integer is undefined. *)
Theorem ioc_never_partially_filled :
  (forall o q, isPriceMet o q = false -> getMaxFillableAmount o q = 0) /\
  (forall env o w r o' w',
      executeIOC env o w = Done r o' w' ->
      status o' <> PARTIALLY_FILLED /\ ioc_final (status o') = true) /\
  (forall env o w,
      (exists o' w', executeIOC env o w = Done tt o' w') \/
      (executeIOC env o w = Undefined /\
       (Double.to_uint64
          (Double.mul (Double.of_uint64 (input_amount o)) (limit_price o)) = None
        \/ exists q, getMinOutputWithSlippage o q = None))).
Proof.
  split; [exact getMaxFillableAmount_not_met|]. split.
  - intros env o w r o' w' H.
    pose proof (executeIOC_outcome env o w) as Hout. rewrite H in Hout.
    split; [|exact Hout]. intros E. rewrite E in Hout. discriminate.
  - intros env o w. pose proof (executeIOC_outcome env o w) as Hout.
    destruct (executeIOC env o w) as [[] o' w'| | |]; try contradiction.
    + left. eauto.
    + right. split; [reflexivity|exact Hout].
Qed.

(** Limit price 2 against a quote of 1,010,000 for 1,000,000: not met,
    nothing fillable, and the run ends CANCELED. *)
Lemma ioc_never_partially_filled_witness :
  isPriceMet (sample_order IOC 1000000 (Double.literal 2 1)) 1010000 = false /\
  getMaxFillableAmount (sample_order IOC 1000000 (Double.literal 2 1)) 1010000 = 0 /\
  (exists o' w',
      executeIOC (steady_pool 1010000) (sample_order IOC 1000000 (Double.literal 2 1)) start
        = Done tt o' w' /\
      status o' <> PARTIALLY_FILLED /\ ioc_final (status o') = true).
Proof.
  split; [vm_compute; reflexivity|]. split.
  - apply (proj1 ioc_never_partially_filled). vm_compute; reflexivity.
  - eexists _, _. split; [vm_compute; reflexivity|].
    eapply (proj1 (proj2 ioc_never_partially_filled) (steady_pool 1010000)
              (sample_order IOC 1000000 (Double.literal 2 1)) start).
    vm_compute. reflexivity.
Defined.

(** ** Fill-or-kill *)

(** C8. When the first quote of a fill-or-kill order does not meet the
    limit price, the strategy returns with the order CANCELED, the reason
    "FOK: Price not met, order killed", no amount filled, and no settlement
    submitted. *)
Theorem fok_price_not_met_killed env o w q :
  get_dy env (tick w) (pool_address o) (input_token_index o)
         (output_token_index o) (input_amount o) = Returns q ->
  isPriceMet o q = false ->
  filled_amount o = 0 ->
  exists o' w',
    executeFOK env o w = Done tt o' w' /\
    status o' = CANCELED /\
    failure_reason o' = "FOK: Price not met, order killed"%string /\
    mentions "killed" (failure_reason o') = true /\
    filled_amount o' = 0 /\
    swaps w' = swaps w.
Proof.
  intros Hq Hmet Hfilled.
  unfold executeFOK. mrun. rewrite Hq. mrun.
  match goal with
  | |- context [isPriceMet ?o' ?q] =>
      rewrite (isPriceMet_terms o o' q) by reflexivity
  end.
  rewrite Hmet. mrun.
  eexists _, _. split; [reflexivity|].
  rewrite status_updateStatus, failure_reason_updateStatus.
  repeat split; try reflexivity.
  destruct (updateStatus_same CANCELED "FOK: Price not met, order killed"
              (set_price_check (now env (S (tick w))) q o))
    as (_&_&_&_&_&_&_&_&_&_&_&_&_&_&_&Hf&_).
  rewrite Hf. exact Hfilled.
Qed.

Lemma fok_price_not_met_killed_witness :
  exists o' w',
    executeFOK (steady_pool 1010000) (sample_order FOK 1000000 (Double.literal 2 1)) start
      = Done tt o' w' /\
    status o' = CANCELED /\
    failure_reason o' = "FOK: Price not met, order killed"%string /\
    mentions "killed" (failure_reason o') = true /\
    filled_amount o' = 0 /\
    swaps w' = swaps start.
Proof.
  apply (fok_price_not_met_killed (steady_pool 1010000)
           (sample_order FOK 1000000 (Double.literal 2 1)) start 1010000);
    vm_compute; reflexivity.
Defined.

(** ** Good-till-time *)

(** C4. A good-till-time order whose first quote meets the limit is
    FILLED with [filled_amount = input_amount], as a good-till-canceled one
    is, but its [received_amount] is not set to the quoted output: no run
    of [executeGTT] ever assigns that field.  On the same order terms and
    quote, [executeGTC] records 1,010,000 and [executeGTT] leaves 0. *)
Theorem gtt_fill_omits_received_amount :
  isPriceMet (sample_order GTT 1000000 (Double.literal 95 100)) 1010000 = true /\
  (exists o' w',
      executeGTT 1 (steady_pool 1010000)
                 (sample_order GTT 1000000 (Double.literal 95 100)) start
        = Done tt o' w' /\
      status o' = FILLED /\ filled_amount o' = 1000000 /\
      last_quoted_output o' = 1010000 /\ received_amount o' = 0) /\
  (exists o' w',
      executeGTC 1 (steady_pool 1010000)
                 (sample_order GTC 1000000 (Double.literal 95 100)) start
        = Done tt o' w' /\
      status o' = FILLED /\ filled_amount o' = 1000000 /\
      last_quoted_output o' = 1010000 /\ received_amount o' = 1010000) /\
  (forall fuel env, keeps same_received_amount (executeGTT fuel env)).
Proof.
  split; [vm_compute; reflexivity|].
  split; [eexists _, _; split; [vm_compute; reflexivity|];
          repeat split; vm_compute; reflexivity|].
  split; [eexists _, _; split; [vm_compute; reflexivity|];
          repeat split; vm_compute; reflexivity|].
  intros fuel env.
  apply (keeps_weaken (fun o o' => advances o o' /\ same_received_amount o o'));
    [intros o o' [_ R]; exact R|apply executeGTT_frame].
Qed.

(** ** Admission *)

(** An order for a zero amount with a negative slippage tolerance is
    enqueued like any other. *)
Lemma addOrder_enqueues_malformed :
  input_amount zero_amount_order = 0 /\
  SFltb (slippage_tolerance zero_amount_order) Double.zero = true /\
  malformed zero_amount_order = true /\
  active_orders (addOrder zero_amount_order new_LimitOrderEngine)
    = [updateStatus ACTIVE "" zero_amount_order] /\
  In (updateStatus ACTIVE "" zero_amount_order)
     (active_orders (addOrder zero_amount_order new_LimitOrderEngine)).
Proof. repeat split; try (vm_compute; reflexivity). left. reflexivity. Qed.

(** C2 (amended). [addOrder] never fails and checks nothing: whatever the
    order, malformed or not, it sets its status to ACTIVE, leaves every
    other field as it was, the time-in-force policy among them, and
    appends it to the queue. *)
Theorem addOrder_always_enqueues order engine :
  active_orders (addOrder order engine)
    = active_orders engine ++ [updateStatus ACTIVE "" order] /\
  In (updateStatus ACTIVE "" order) (active_orders (addOrder order engine)) /\
  status (updateStatus ACTIVE "" order) = ACTIVE /\
  failure_reason (updateStatus ACTIVE "" order) = failure_reason order /\
  same_but_status_and_reason order (updateStatus ACTIVE "" order) /\
  tif_policy (updateStatus ACTIVE "" order) = tif_policy order.
Proof.
  unfold addOrder. cbn [active_orders].
  split; [reflexivity|].
  split; [apply in_or_app; right; left; reflexivity|].
  split; [apply status_updateStatus|].
  split; [rewrite failure_reason_updateStatus; reflexivity|].
  split; [apply updateStatus_same|].
  reflexivity.
Qed.

(** ** Terminal states *)

(** [updateStatus] moves a FILLED order back to ACTIVE, as [addOrder] does
    to whatever order it is given. *)
Lemma updateStatus_leaves_terminal_state :
  status filled_order = FILLED /\
  terminal (status filled_order) = true /\
  status (updateStatus ACTIVE "" filled_order) = ACTIVE /\
  status (updateStatus ACTIVE "" filled_order) <> status filled_order.
Proof. repeat split; try (vm_compute; reflexivity). vm_compute. discriminate. Qed.

Lemma terminal_not_active s : terminal s = true -> s <> ACTIVE.
Proof. destruct s; simpl; congruence. Qed.

Lemma processOrders_body_not_active fuel env o w :
  status o <> ACTIVE -> processOrders_body fuel env o w = Done tt o w.
Proof.
  intros H. unfold processOrders_body. mrun.
  destruct (status o); try reflexivity. contradiction.
Qed.

Lemma processOrders_for_terminal_kept fuel env orders :
  forall w,
    match processOrders_for fuel env orders w with
    | Done _ orders' _ | Raised _ orders' _ => terminal_kept orders orders'
    | _ => True
    end.
Proof.
  unfold terminal_kept.
  induction orders as [|o rest IH]; intros w; cbn [processOrders_for].
  - constructor.
  - destruct (terminal (status o)) eqn:Ht.
    + rewrite processOrders_body_not_active by (apply terminal_not_active; exact Ht).
      specialize (IH w).
      destruct (processOrders_for fuel env rest w); auto.
    + destruct (processOrders_body fuel env o w) as [r o' w'|what o' w'| |]; auto.
      * specialize (IH w').
        destruct (processOrders_for fuel env rest w'); auto;
          (constructor; [congruence|assumption]).
      * constructor; [congruence|].
        clear. induction rest; constructor; auto.
Qed.

(** C3 (amended). [updateStatus] overwrites the status whatever it was.
    What is monotonic and absorbing is a pass of the engine:
    [processOrders] skips every order whose status is not ACTIVE, whatever
    the pool answers, so every order in a terminal state is found
    unchanged, field for field, after the pass; and the status of any
    order after the pass is the status it had or a terminal one. *)
Theorem terminal_orders_skipped_by_engine :
  (forall new_status reason o, status (updateStatus new_status reason o) = new_status) /\
  (forall fuel env o w,
      terminal (status o) = true -> processOrders_body fuel env o w = Done tt o w) /\
  (forall fuel env engine w engine' w',
      processOrders fuel env engine w = Done tt engine' w' ->
      terminal_kept (active_orders engine) (active_orders engine') /\
      Forall2 (fun o o' => status o' = status o \/ terminal (status o') = true)
              (active_orders engine) (active_orders engine')).
Proof.
  split; [exact status_updateStatus|]. split.
  - intros. apply processOrders_body_not_active, terminal_not_active. assumption.
  - intros fuel env engine w engine' w' H. split.
    + unfold processOrders in H.
      pose proof (processOrders_for_terminal_kept fuel env (active_orders engine) w) as K.
      destruct (processOrders_for fuel env (active_orders engine) w); try discriminate.
      inversion H; subst. exact K.
    + eapply Forall2_impl; [|exact (processOrders_advances _ _ _ _ _ _ H)].
      intros o o' [_ A]. exact A.
Qed.

(** A pass over a FILLED order and an ACTIVE one: the first is skipped. *)
Lemma terminal_orders_skipped_by_engine_witness :
  terminal (status filled_order) = true /\
  processOrders_body 1 (steady_pool 1010000) filled_order start = Done tt filled_order start /\
  (exists engine' w',
      processOrders 1 (steady_pool 1010000) two_order_engine start = Done tt engine' w' /\
      terminal_kept (active_orders two_order_engine) (active_orders engine')).
Proof.
  split; [reflexivity|]. split.
  - apply (proj1 (proj2 terminal_orders_skipped_by_engine)). reflexivity.
  - destruct (processOrders 1 (steady_pool 1010000) two_order_engine start)
      as [[] engine' w'| | |] eqn:E; try (vm_compute in E; discriminate).
    exists engine', w'. split; [reflexivity|].
    exact (proj1 (proj2 (proj2 terminal_orders_skipped_by_engine) _ _ _ _ _ _ E)).
Defined.
(** * The engine at work *)

(** ** Composition of the stretches of a run *)

Lemma same_identity_refl o : same_identity o o.
Proof. unfold same_identity. repeat (split; [reflexivity|]). apply same_terms_refl. Qed.

Lemma same_identity_trans o1 o2 o3 :
  same_identity o1 o2 -> same_identity o2 o3 -> same_identity o1 o3.
Proof.
  unfold same_identity.
  intros (A1&A2&A3&A4&A5&A6&A7) (B1&B2&B3&B4&B5&B6&B7).
  repeat (split; [congruence|]).
  eapply same_terms_trans; eassumption.
Qed.

Lemma isPriceMet_same_terms o o' q : same_terms o o' -> isPriceMet o' q = isPriceMet o q.
Proof.
  intros (Hi&_&Hl&_). unfold isPriceMet. rewrite Hi, Hl. reflexivity.
Qed.

Lemma getMinOutputWithSlippage_same_terms o o' q :
  same_terms o o' -> getMinOutputWithSlippage o' q = getMinOutputWithSlippage o q.
Proof.
  intros (_&_&_&Hs&_). unfold getMinOutputWithSlippage. rewrite Hs. reflexivity.
Qed.

Lemma justified_same_terms env pool o o' ev :
  same_terms o o' -> justified env pool o' ev -> justified env pool o ev.
Proof.
  intros T J. pose proof T as (Hi&_&_&_&_&_&_&Hx&Hy).
  destruct ev as [p i j dx|p i j dx m]; cbn [justified] in *.
  - unfold probe_amount in *. rewrite Hi, Hx, Hy in J. exact J.
  - rewrite Hi, Hx, Hy in J.
    destruct J as (J1&J2&J3&J4&n&q&J5&J6&J7).
    repeat split; try assumption. exists n, q.
    rewrite (isPriceMet_same_terms o o' q T) in J6.
    rewrite (getMinOutputWithSlippage_same_terms o o' q T) in J7.
    repeat split; assumption.
Qed.

Lemma requests_refl env pool o w : requests env pool o w w.
Proof. exists []. split; [reflexivity|constructor]. Qed.

Lemma requests_trans env pool o o1 w1 w2 w3 :
  same_terms o o1 ->
  requests env pool o w1 w2 -> requests env pool o1 w2 w3 -> requests env pool o w1 w3.
Proof.
  intros T (n1 & E1 & F1) (n2 & E2 & F2).
  exists (n2 ++ n1). split; [rewrite E2, E1, app_assoc; reflexivity|].
  apply Forall_app. split; [|exact F1].
  eapply Forall_impl; [|exact F2]. intros ev. apply justified_same_terms. exact T.
Qed.

Lemma quiet_refl env pool o w : quiet env pool o w o w.
Proof.
  unfold quiet. split; [apply same_identity_refl|].
  repeat (split; [first [reflexivity|lia]|]). apply requests_refl.
Qed.

Lemma identity_terms o o' : same_identity o o' -> same_terms o o'.
Proof. intros (_&_&_&_&_&_&T). exact T. Qed.

Lemma quiet_trans env pool o1 w1 o2 w2 o3 w3 :
  quiet env pool o1 w1 o2 w2 -> quiet env pool o2 w2 o3 w3 -> quiet env pool o1 w1 o3 w3.
Proof.
  intros (I1&S1&R1&F1&V1&H1&C1&L1) (I2&S2&R2&F2&V2&H2&C2&L2).
  unfold quiet. split; [eapply same_identity_trans; eassumption|].
  repeat (split; [first [congruence|lia]|]).
  eapply requests_trans; [apply identity_terms; exact I1|eassumption|eassumption].
Qed.

Lemma quiet_fills env pool o1 w1 o2 w2 o3 w3 :
  quiet env pool o1 w1 o2 w2 -> fills env pool o2 w2 o3 w3 -> fills env pool o1 w1 o3 w3.
Proof.
  intros (I1&S1&R1&F1&V1&H1&C1&L1) (I2&S2&R2&F2&P2&C2&L2&m&n&rest&G2&X2&E2&k&K2).
  pose proof (identity_terms _ _ I1) as T.
  pose proof T as (Hi&_&_&_&_&_&_&Hx&Hy).
  unfold fills. split; [eapply same_identity_trans; eassumption|].
  split; [exact S2|]. split; [congruence|]. split; [congruence|].
  split; [rewrite <- (isPriceMet_same_terms o1 o2 _ T); exact P2|].
  split; [lia|].
  split; [eapply requests_trans; eassumption|].
  exists m, n, rest.
  rewrite <- (getMinOutputWithSlippage_same_terms o1 o2 _ T).
  rewrite <- Hi, <- Hx, <- Hy.
  repeat (split; [assumption|]). exists k. exact K2.
Qed.

Lemma quiet_closes s env pool o1 w1 o2 w2 o3 w3 :
  quiet env pool o1 w1 o2 w2 -> closes s env pool o2 w2 o3 w3 ->
  closes s env pool o1 w1 o3 w3.
Proof.
  intros (I1&S1&R1&F1&V1&H1&C1&L1) (I2&S2&F2&V2&H2&C2&L2).
  unfold closes. split; [eapply same_identity_trans; eassumption|].
  repeat (split; [first [congruence|lia]|]).
  eapply requests_trans; [apply identity_terms; exact I1|eassumption|eassumption].
Qed.

(** ** Every way a strategy can run *)

Lemma executeGTC_body_run env pool c :
  returns (executeGTC_body env pool c)
    (fun step o w o' w' =>
       match step with
       | Return => fills env pool o w o' w' /\ received_amount o' = last_quoted_output o'
       | Next c' => quiet env pool o w o' w' /\ c <= c'
       end).
Proof.
  intros o w. unfold executeGTC_body. mrun. ask_oracle; mrun; [|settle].
  destruct (isPriceMet _ _) eqn:Hmet; mrun; [|settle].
  destruct (getMinOutputWithSlippage _ _) eqn:Hmin; mrun; [|exact I].
  ask_oracle; mrun; settle.
Qed.

Lemma executeGTC_loop_run env pool fuel :
  forall c,
    returns (executeGTC_loop fuel env pool c)
      (fun step o w o' w' =>
         match step with
         | Return => fills env pool o w o' w' /\ received_amount o' = last_quoted_output o'
         | Next c' =>
             quiet env pool o w o' w' /\
             (max_checks <= c' \/ status o <> ACTIVE \/ tif_policy o = GTT)
         end).
Proof.
  induction fuel as [|fuel IH]; intros c o w; cbn [executeGTC_loop]; [exact I|].
  assert (Hstep : forall w0,
    quiet env pool o w o w0 ->
    match (step <- executeGTC_body env pool c ;;
           match step with
           | Return => ret Return
           | Next c' => executeGTC_loop fuel env pool c'
           end) o w0 with
    | Done step o' w' =>
        match step with
        | Return => fills env pool o w o' w' /\ received_amount o' = last_quoted_output o'
        | Next c' =>
            quiet env pool o w o' w' /\
            (max_checks <= c' \/ status o <> ACTIVE \/ tif_policy o = GTT)
        end
    | Raised _ _ _ => False
    | _ => True
    end).
  { intros w0 Q0. unfold bind at 1.
    pose proof (executeGTC_body_run env pool c o w0) as B.
    destruct (executeGTC_body env pool c o w0) as [[c'|] o1 w1|what o1 w1| |]; auto.
    - destruct B as [Q1 _]. specialize (IH c' o1 w1).
      pose proof (quiet_trans _ _ _ _ _ _ _ _ Q0 Q1) as Q01.
      destruct (executeGTC_loop fuel env pool c' o1 w1) as [[c''|] o2 w2|? ? ?| |]; auto.
      + destruct IH as [Q2 D]. split; [eapply quiet_trans; eassumption|].
        destruct Q1 as (I1&S1&_). destruct (identity_terms _ _ I1) as (_&_&_&_&T1&_).
        rewrite S1, T1 in D. exact D.
      + destruct IH as [F2 R2]. split; [eapply quiet_fills; eassumption|exact R2].
    - unfold ret. destruct B as [F R].
      split; [eapply quiet_fills; eassumption|exact R]. }
  mrun.
  destruct (OrderStatus_eqb (status o) ACTIVE) eqn:Es; mrun.
  2:{ split; [apply quiet_refl|]. right; left. intros E. rewrite E in Es. discriminate. }
  destruct (TimeInForce_eqb (tif_policy o) GTT) eqn:Etif; mrun.
  - assert (Ht : tif_policy o = GTT) by (destruct (tif_policy o); try discriminate; reflexivity).
    assert (Qa : quiet env pool o w o (advance w)) by settle.
    destruct (expiry_time o <=? now env (tick w)); mrun; [split; [exact Qa|auto]|].
    destruct (c <? max_checks) eqn:Ec; mrun; [exact (Hstep _ Qa)|].
    split; [exact Qa|auto].
  - destruct (c <? max_checks) eqn:Ec; mrun; [exact (Hstep _ (quiet_refl _ _ _ _))|].
    split; [apply quiet_refl|]. left. apply Z.ltb_ge. exact Ec.
Qed.

Lemma executeGTC_run fuel env :
  returns (executeGTC fuel env)
    (fun _ o w o' w' =>
       (fills env (pool_address o) o w o' w' /\
        received_amount o' = last_quoted_output o') \/
       (closes CANCELED env (pool_address o) o w o' w' /\
        failure_reason o' = "Demo limit reached"%string) \/
       (quiet env (pool_address o) o w o' w' /\
        (status o <> ACTIVE \/ tif_policy o = GTT))).
Proof.
  intros o w. unfold executeGTC. unfold bind at 1. unfold this at 1. unfold bind at 1.
  pose proof (executeGTC_loop_run env (pool_address o) fuel 0 o w) as L.
  destruct (executeGTC_loop fuel env (pool_address o) 0 o w)
    as [[c|] o1 w1|what o1 w1| |]; auto; [|mrun; left; exact L].
  destruct L as [Q D].
  destruct (max_checks <=? c) eqn:Ec; mrun.
  - right; left. split; [|reflexivity].
    eapply quiet_closes; [exact Q|]. settle.
  - right; right. split; [exact Q|].
    apply Z.leb_gt in Ec. destruct D as [D|D]; [lia|exact D].
Qed.

Lemma executeGTT_body_run env pool :
  returns (executeGTT_body env pool)
    (fun step o w o' w' =>
       match step with
       | Return => fills env pool o w o' w' /\ received_amount o' = received_amount o
       | Next _ => quiet env pool o w o' w'
       end).
Proof.
  intros o w. unfold executeGTT_body. mrun. ask_oracle; mrun; [|settle].
  destruct (isPriceMet _ _) eqn:Hmet; mrun; [|settle].
  destruct (getMinOutputWithSlippage _ _) eqn:Hmin; mrun; [|exact I].
  ask_oracle; mrun; settle.
Qed.

Lemma executeGTT_loop_run env pool fuel :
  returns (executeGTT_loop fuel env pool)
    (fun step o w o' w' =>
       match step with
       | Return => fills env pool o w o' w' /\ received_amount o' = received_amount o
       | Next _ => quiet env pool o w o' w'
       end).
Proof.
  induction fuel as [|fuel IH]; intros o w; cbn [executeGTT_loop]; [exact I|].
  assert (Hstep : forall w0,
    quiet env pool o w o w0 ->
    match (step <- executeGTT_body env pool ;;
           match step with
           | Return => ret Return
           | Next _ => executeGTT_loop fuel env pool
           end) o w0 with
    | Done step o' w' =>
        match step with
        | Return => fills env pool o w o' w' /\ received_amount o' = received_amount o
        | Next _ => quiet env pool o w o' w'
        end
    | Raised _ _ _ => False
    | _ => True
    end).
  { intros w0 Q0. unfold bind at 1.
    pose proof (executeGTT_body_run env pool o w0) as B.
    destruct (executeGTT_body env pool o w0) as [[u|] o1 w1|what o1 w1| |]; auto.
    - specialize (IH o1 w1).
      pose proof (quiet_trans _ _ _ _ _ _ _ _ Q0 B) as Q01.
      destruct (executeGTT_loop fuel env pool o1 w1) as [[u'|] o2 w2|? ? ?| |]; auto.
      + eapply quiet_trans; eassumption.
      + destruct IH as [F2 R2]. split; [eapply quiet_fills; eassumption|].
        destruct B as (_&_&_&_&R1&_). congruence.
    - unfold ret. destruct B as [F R].
      split; [eapply quiet_fills; eassumption|exact R]. }
  mrun.
  destruct (OrderStatus_eqb (status o) ACTIVE) eqn:Es; mrun; [|apply quiet_refl].
  destruct (TimeInForce_eqb (tif_policy o) GTT) eqn:Etif; mrun.
  - assert (Qa : quiet env pool o w o (advance w)) by settle.
    destruct (expiry_time o <=? now env (tick w)); mrun; [exact Qa|].
    rewrite Etif; mrun.
    assert (Qb : quiet env pool o w o (advance (advance w))) by settle.
    destruct (expiry_time o <=? now env (S (tick w))); mrun; [exact Qb|].
    exact (Hstep _ Qb).
  - rewrite Etif; mrun. exact (Hstep _ (quiet_refl _ _ _ _)).
Qed.

Lemma executeGTT_run fuel env :
  returns (executeGTT fuel env)
    (fun _ o w o' w' =>
       (fills env (pool_address o) o w o' w' /\
        received_amount o' = received_amount o) \/
       (closes EXPIRED env (pool_address o) o w o' w' /\
        failure_reason o' = "Order expired"%string /\ tif_policy o = GTT) \/
       quiet env (pool_address o) o w o' w').
Proof.
  intros o w. unfold executeGTT. unfold bind at 1. unfold this at 1. unfold bind at 1.
  pose proof (executeGTT_loop_run env (pool_address o) fuel o w) as L.
  destruct (executeGTT_loop fuel env (pool_address o) o w)
    as [[u|] o1 w1|what o1 w1| |]; auto; [|mrun; left; exact L].
  mrun.
  destruct (TimeInForce_eqb (tif_policy o1) GTT) eqn:Etif; mrun; [|right; right; exact L].
  assert (Ht : tif_policy o = GTT).
  { destruct L as (I1&_). destruct (identity_terms _ _ I1) as (_&_&_&_&T1&_).
    rewrite <- T1. destruct (tif_policy o1); try discriminate; reflexivity. }
  assert (Qa : quiet env (pool_address o) o w o1 (advance w1)).
  { eapply quiet_trans; [exact L|]. settle. }
  destruct (expiry_time o1 <=? now env (tick w1)); mrun; [|right; right; exact Qa].
  right; left. split; [|split; [reflexivity|exact Ht]].
  eapply quiet_closes; [exact L|]. settle.
Qed.

Lemma executeIOC_run env :
  returns (executeIOC env)
    (fun _ o w o' w' =>
       (fills env (pool_address o) o w o' w' /\
        received_amount o' = last_quoted_output o') \/
       (closes CANCELED env (pool_address o) o w o' w' /\
        failure_reason o' = "Price not met for any execution"%string) \/
       (closes FAILED env (pool_address o) o w o' w' /\
        exists what,
          thrown env what /\
          failure_reason o' = if is_empty what then failure_reason o else what)).
Proof.
  intros o w. unfold executeIOC. mrun. ask_oracle; mrun.
  2:{ right; right. split; [settle|].
      exists what. split; [repeat eexists; left; eassumption|].
      unfold updateStatus. destruct (is_empty what); reflexivity. }
  destruct (Double.to_uint64 _); mrun; [|exact I].
  destruct (isPriceMet _ _) eqn:Hmet; mrun.
  - destruct (getMinOutputWithSlippage _ _) eqn:Hmin; mrun; [|exact I].
    ask_oracle; mrun; [left; settle|].
    right; right. split; [settle|].
    exists what. split; [repeat eexists; right; eexists; eassumption|].
    unfold updateStatus. destruct (is_empty what); reflexivity.
  - fold_terms. rewrite (getMaxFillableAmount_not_met _ _ Hmet).
    change (0 <? 0) with false. mrun.
    right; left. split; [settle|reflexivity].
Qed.

Lemma executeFOK_run env :
  returns (executeFOK env)
    (fun _ o w o' w' =>
       (fills env (pool_address o) o w o' w' /\
        received_amount o' = last_quoted_output o') \/
       (closes CANCELED env (pool_address o) o w o' w' /\
        (failure_reason o' = "FOK: Price not met, order killed"%string \/
         failure_reason o' = "FOK: Insufficient liquidity for full order"%string)) \/
       (closes FAILED env (pool_address o) o w o' w' /\
        exists what,
          thrown env what /\
          failure_reason o' = if is_empty what then failure_reason o else what)).
Proof.
  intros o w. unfold executeFOK. mrun. ask_oracle; mrun.
  2:{ right; right. split; [settle|].
      exists what. split; [repeat eexists; left; eassumption|].
      unfold updateStatus. destruct (is_empty what); reflexivity. }
  destruct (isPriceMet _ _) eqn:Hmet; mrun.
  2:{ right; left. split; [settle|left; reflexivity]. }
  destruct (skip_liquidity_check env); mrun.
  - destruct (getMinOutputWithSlippage _ _) eqn:Hmin; mrun; [|exact I].
    ask_oracle; mrun; [left; settle|].
    right; right. split; [settle|].
    exists what. split; [repeat eexists; right; eexists; eassumption|].
    unfold updateStatus. destruct (is_empty what); reflexivity.
  - unfold executeFOK_liquidity. mrun.
    destruct (Double.to_uint64 _) eqn:Hprobe; mrun; [|exact I].
    ask_oracle; mrun.
    + destruct (0 <? _); mrun.
      2:{ right; left. split; [settle|right; reflexivity]. }
      destruct (getMinOutputWithSlippage _ _) eqn:Hmin; mrun; [|exact I].
      ask_oracle; mrun; [left; settle|].
      right; right. split; [settle|].
      exists what. split; [repeat eexists; right; eexists; eassumption|].
      unfold updateStatus. destruct (is_empty what); reflexivity.
    + destruct (getMinOutputWithSlippage _ _) eqn:Hmin; mrun; [|exact I].
      ask_oracle; mrun; [left; settle|].
      right; right. split; [settle|].
      exists what0. split; [repeat eexists; right; eexists; eassumption|].
      unfold updateStatus. destruct (is_empty what0); reflexivity.
Qed.

(** ** The dispatch loop *)

Lemma returns_weaken {A} (m : M A)
    (Q Q' : A -> LimitOrder -> World -> LimitOrder -> World -> Prop) :
  (forall a o w o' w', Q a o w o' w' -> Q' a o w o' w') -> returns m Q -> returns m Q'.
Proof.
  intros H K o w. specialize (K o w). destruct (m o w); auto.
Qed.

Lemma quiet_frame env pool o w o' w' :
  quiet env pool o w o' w' ->
  same_identity o o' /\ price_check_count o <= price_check_count o'.
Proof. intros (I&_&_&_&_&_&C&_). split; assumption. Qed.

Lemma fills_frame env pool o w o' w' :
  fills env pool o w o' w' ->
  same_identity o o' /\ price_check_count o <= price_check_count o'.
Proof. intros (I&_&_&_&_&C&_). split; assumption. Qed.

Lemma closes_frame s env pool o w o' w' :
  closes s env pool o w o' w' ->
  same_identity o o' /\ price_check_count o <= price_check_count o'.
Proof. intros (I&_&_&_&_&C&_). split; assumption. Qed.

Lemma strategy_frame fuel env tif :
  returns (strategy fuel env tif)
    (fun _ o w o' w' =>
       same_identity o o' /\ price_check_count o <= price_check_count o').
Proof.
  destruct tif; cbn [strategy].
  - eapply returns_weaken; [|apply executeGTC_run].
    intros _ o w o' w' [[F _]|[[C _]|[Q _]]];
      eauto using fills_frame, closes_frame, quiet_frame.
  - eapply returns_weaken; [|apply executeGTT_run].
    intros _ o w o' w' [[F _]|[[C _]|Q]];
      eauto using fills_frame, closes_frame, quiet_frame.
  - eapply returns_weaken; [|apply executeIOC_run].
    intros _ o w o' w' [[F _]|[[C _]|[C _]]];
      eauto using fills_frame, closes_frame, quiet_frame.
  - eapply returns_weaken; [|apply executeFOK_run].
    intros _ o w o' w' [[F _]|[[C _]|[C _]]];
      eauto using fills_frame, closes_frame, quiet_frame.
Qed.

Lemma processOrders_body_strategy fuel env o w :
  processOrders_body fuel env o w = Done tt o w \/
  processOrders_body fuel env o w = Done tt o (advance w) \/
  processOrders_body fuel env o w = strategy fuel env (tif_policy o) o w \/
  processOrders_body fuel env o w = strategy fuel env (tif_policy o) o (advance w).
Proof.
  unfold processOrders_body. mrun.
  destruct (OrderStatus_eqb (status o) ACTIVE); mrun; [|left; reflexivity].
  destruct (TimeInForce_eqb (tif_policy o) GTT) eqn:Etif; mrun.
  - destruct (expiry_time o <=? now env (tick w)); mrun; [right; left; reflexivity|].
    right; right; right. unfold strategy. destruct (tif_policy o); reflexivity.
  - right; right; left. unfold strategy. destruct (tif_policy o); reflexivity.
Qed.

Lemma processOrders_body_frame fuel env :
  returns (processOrders_body fuel env)
    (fun _ o w o' w' =>
       same_identity o o' /\ price_check_count o <= price_check_count o').
Proof.
  intros o w.
  assert (R : same_identity o o /\ price_check_count o <= price_check_count o)
    by (split; [apply same_identity_refl|lia]).
  destruct (processOrders_body_strategy fuel env o w) as [E|[E|[E|E]]]; rewrite E;
    try exact R; apply strategy_frame.
Qed.

Lemma processOrders_for_frame fuel env orders :
  forall w,
    match processOrders_for fuel env orders w with
    | Done _ orders' _ =>
        Forall2 (fun o o' =>
                   same_identity o o' /\ price_check_count o <= price_check_count o')
                orders orders'
    | Raised _ _ _ => False
    | _ => True
    end.
Proof.
  induction orders as [|o rest IH]; intros w; cbn [processOrders_for].
  - constructor.
  - pose proof (processOrders_body_frame fuel env o w) as B.
    destruct (processOrders_body fuel env o w) as [r o' w'|what o' w'| |]; auto.
    specialize (IH w').
    destruct (processOrders_for fuel env rest w'); auto; constructor; assumption.
Qed.

(** X1.  No exception thrown by the price source or by the settlement
    call escapes a strategy: every one is caught inside it.  So no
    exception ends [processOrders] before it has visited every order. *)
Theorem no_exception_escapes :
  (forall fuel env tif o w what o' w',
      strategy fuel env tif o w <> Raised what o' w') /\
  (forall fuel env engine w what engine' w',
      processOrders fuel env engine w <> Raised what engine' w').
Proof.
  split.
  - intros fuel env tif o w what o' w' E.
    pose proof (strategy_frame fuel env tif o w) as K. rewrite E in K. exact K.
  - intros fuel env engine w what engine' w' E. unfold processOrders in E.
    pose proof (processOrders_for_frame fuel env (active_orders engine) w) as K.
    destruct (processOrders_for fuel env (active_orders engine) w);
      try discriminate; exact K.
Qed.

(** X2.  A pass of [processOrders] returns the orders it was given, as
    many and in the same sequence: none is added, dropped or moved, and
    for each one the identification, the owner, the tokens, the pool and
    the terms are as they were. *)
Theorem processOrders_frame fuel env engine w engine' w' :
  processOrders fuel env engine w = Done tt engine' w' ->
  List.length (active_orders engine') = List.length (active_orders engine) /\
  Forall2 same_identity (active_orders engine) (active_orders engine').
Proof.
  intros E. unfold processOrders in E.
  pose proof (processOrders_for_frame fuel env (active_orders engine) w) as K.
  destruct (processOrders_for fuel env (active_orders engine) w); try discriminate.
  inversion E; subst. cbn [active_orders].
  split; [symmetry; eapply Forall2_length; exact K|].
  eapply Forall2_impl; [|exact K]. intros o o' [I _]. exact I.
Qed.

Lemma processOrders_frame_witness :
  exists engine' w',
    processOrders 1 (steady_pool 1010000) two_order_engine start = Done tt engine' w' /\
    List.length (active_orders engine') = List.length (active_orders two_order_engine) /\
    Forall2 same_identity (active_orders two_order_engine) (active_orders engine').
Proof.
  destruct (processOrders 1 (steady_pool 1010000) two_order_engine start)
    as [[] engine' w'| | |] eqn:E; try (vm_compute in E; discriminate).
  exists engine', w'. split; [reflexivity|].
  exact (processOrders_frame _ _ _ _ _ _ E).
Defined.

(** ** Fills and settlements *)

Lemma quiet_open env pool o w o' w' :
  quiet env pool o w o' w' ->
  status o' = status o /\ filled_amount o' = filled_amount o /\
  received_amount o' = received_amount o /\
  transaction_hash o' = transaction_hash o.
Proof. intros (_&S&_&F&R&H&_). repeat split; assumption. Qed.

Lemma closes_open s env pool o w o' w' :
  closes s env pool o w o' w' ->
  status o' = s /\ filled_amount o' = filled_amount o /\
  received_amount o' = received_amount o /\
  transaction_hash o' = transaction_hash o.
Proof. intros (_&S&F&R&H&_). repeat split; assumption. Qed.

(** What a strategy leaves behind, in three cases. *)
Lemma strategy_run fuel env tif :
  returns (strategy fuel env tif)
    (fun _ o w o' w' =>
       (fills env (pool_address o) o w o' w' /\
        received_amount o' =
          match tif with GTT => received_amount o | _ => last_quoted_output o' end) \/
       (exists s, closes s env (pool_address o) o w o' w' /\ s <> FILLED) \/
       quiet env (pool_address o) o w o' w').
Proof.
  destruct tif; cbn [strategy].
  - eapply returns_weaken; [|apply executeGTC_run].
    intros _ o w o' w' [F|[[C _]|[Q _]]]; [left; exact F| |right; right; exact Q].
    right; left. exists CANCELED. split; [exact C|discriminate].
  - eapply returns_weaken; [|apply executeGTT_run].
    intros _ o w o' w' [F|[[C _]|Q]]; [left; exact F| |right; right; exact Q].
    right; left. exists EXPIRED. split; [exact C|discriminate].
  - eapply returns_weaken; [|apply executeIOC_run].
    intros _ o w o' w' [F|[[C _]|[C _]]]; [left; exact F| |]; right; left;
      [exists CANCELED|exists FAILED]; (split; [exact C|discriminate]).
  - eapply returns_weaken; [|apply executeFOK_run].
    intros _ o w o' w' [F|[[C _]|[C _]]]; [left; exact F| |]; right; left;
      [exists CANCELED|exists FAILED]; (split; [exact C|discriminate]).
Qed.

(** X3.  A strategy fills an order only at a quote that meets its limit.
    When a strategy run on an ACTIVE order returns, either the order is
    FILLED: its filled amount is the full input amount, the last quote
    recorded meets the limit price, the last request made to the pool is
    the settlement of the full input amount with the slippage floor of
    that quote as minimum output, and the order carries the hash returned
    for it (its received amount is that quote, except under GTT which
    leaves the field as it was); or the order is not FILLED and its filled
    amount, received amount and transaction hash are untouched.  No
    partial fill exists. *)
Theorem fill_only_at_limit fuel env tif o w o' w' :
  status o = ACTIVE ->
  strategy fuel env tif o w = Done tt o' w' ->
  (status o' = FILLED /\
   filled_amount o' = input_amount o /\
   isPriceMet o (last_quoted_output o') = true /\
   received_amount o' =
     match tif with GTT => received_amount o | _ => last_quoted_output o' end /\
   exists min_dy n rest,
     getMinOutputWithSlippage o (last_quoted_output o') = Some min_dy /\
     executeSwap env n (pool_address o) (input_token_index o) (output_token_index o)
                 (input_amount o) min_dy = Returns (transaction_hash o') /\
     log w' = Swapped (pool_address o) (input_token_index o) (output_token_index o)
                      (input_amount o) min_dy :: rest) \/
  (status o' <> FILLED /\
   filled_amount o' = filled_amount o /\
   received_amount o' = received_amount o /\
   transaction_hash o' = transaction_hash o).
Proof.
  intros Ha E. pose proof (strategy_run fuel env tif o w) as K. rewrite E in K.
  destruct K as [[F R]|[(s & C & Hs)|Q]].
  - left. destruct F as (_&S&_&Fa&P&_&_&min_dy&n&rest&G&X&L&_).
    repeat (split; [assumption|]). exists min_dy, n, rest. repeat split; assumption.
  - right. destruct (closes_open _ _ _ _ _ _ _ C) as (S&F&R&H).
    repeat split; try assumption. rewrite S. exact Hs.
  - right. destruct (quiet_open _ _ _ _ _ _ Q) as (S&F&R&H).
    repeat split; try assumption. rewrite S, Ha. discriminate.
Qed.

(** A good-till-canceled order at limit 0.95 meets a quote of 1,010,000 for
    1,000,000 and is filled. *)
Lemma fill_only_at_limit_witness :
  exists o' w',
    strategy 1 (steady_pool 1010000) GTC
             (sample_order GTC 1000000 (Double.literal 95 100)) start = Done tt o' w' /\
    status o' = FILLED /\ filled_amount o' = 1000000 /\
    isPriceMet (sample_order GTC 1000000 (Double.literal 95 100))
               (last_quoted_output o') = true.
Proof.
  destruct (strategy 1 (steady_pool 1010000) GTC
                     (sample_order GTC 1000000 (Double.literal 95 100)) start)
    as [[] o' w'| | |] eqn:E; try (vm_compute in E; discriminate).
  exists o', w'. split; [reflexivity|].
  assert (Ha : status (sample_order GTC 1000000 (Double.literal 95 100)) = ACTIVE)
    by (vm_compute; reflexivity).
  destruct (fill_only_at_limit 1 (steady_pool 1010000) GTC _ start o' w' Ha E)
    as [(S&F&P&_)|(S&_)].
  - split; [exact S|]. split; [exact F|exact P].
  - exfalso. apply S. vm_compute in E. inversion E. reflexivity.
Defined.

Lemma justified_swap_met env pool o ev :
  justified env pool o ev -> is_swap ev = true ->
  exists n q,
    get_dy env n pool (input_token_index o) (output_token_index o) (input_amount o)
      = Returns q /\
    isPriceMet o q = true.
Proof.
  destruct ev as [p i j dx|p i j dx m]; cbn [justified is_swap]; [discriminate|].
  intros (_&Hi&Hj&Hd&n&q&G&P&_) _. subst. eauto.
Qed.

Lemma requests_no_swap env pool o w w' :
  requests env pool o w w' ->
  (forall n q,
      get_dy env n pool (input_token_index o) (output_token_index o) (input_amount o)
        = Returns q ->
      isPriceMet o q = false) ->
  swaps w' = swaps w.
Proof.
  intros (new & E & F) Hno. unfold swaps. rewrite E, filter_app.
  replace (filter is_swap new) with (@nil event); [reflexivity|].
  symmetry. clear E. induction F as [|ev new J F IH]; [reflexivity|].
  cbn [filter]. destruct (is_swap ev) eqn:Es; [|exact IH].
  destruct (justified_swap_met _ _ _ _ J Es) as (n & q & G & P).
  rewrite (Hno n q G) in P. discriminate.
Qed.



(** ** Where each policy can end *)

(** X5.  The states in which the strategy of each policy can leave an
    ACTIVE order, with the reason it records: good-till-canceled ends
    FILLED or CANCELED ("Demo limit reached"); good-till-time ends FILLED
    or EXPIRED ("Order expired"), or is still ACTIVE; immediate-or-cancel
    and fill-or-kill end FILLED, CANCELED with the reason of the policy,
    or FAILED with the message of the exception that the pool threw (the
    reason found is kept when that message is empty).  No strategy ends
    PARTIALLY_FILLED. *)
Theorem final_status_by_policy fuel env o w o' w' :
  status o = ACTIVE ->
  strategy fuel env (tif_policy o) o w = Done tt o' w' ->
  match tif_policy o with
  | GTC =>
      status o' = FILLED \/
      (status o' = CANCELED /\ failure_reason o' = "Demo limit reached"%string)
  | GTT =>
      status o' = FILLED \/
      (status o' = EXPIRED /\ failure_reason o' = "Order expired"%string) \/
      status o' = ACTIVE
  | IOC =>
      status o' = FILLED \/
      (status o' = CANCELED /\
       failure_reason o' = "Price not met for any execution"%string) \/
      (status o' = FAILED /\
       exists what,
         thrown env what /\
         failure_reason o' = if is_empty what then failure_reason o else what)
  | FOK =>
      status o' = FILLED \/
      (status o' = CANCELED /\
       (failure_reason o' = "FOK: Price not met, order killed"%string \/
        failure_reason o' = "FOK: Insufficient liquidity for full order"%string)) \/
      (status o' = FAILED /\
       exists what,
         thrown env what /\
         failure_reason o' = if is_empty what then failure_reason o else what)
  end.
Proof.
  intros Ha E. destruct (tif_policy o) eqn:Et; cbn [strategy] in E.
  - pose proof (executeGTC_run fuel env o w) as K. rewrite E in K.
    destruct K as [[F _]|[[C R]|[Q [N|N]]]].
    + left. destruct F as (_&S&_). exact S.
    + right. split; [|exact R]. destruct C as (_&S&_). exact S.
    + contradiction.
    + rewrite Et in N. discriminate.
  - pose proof (executeGTT_run fuel env o w) as K. rewrite E in K.
    destruct K as [[F _]|[[C [R _]]|Q]].
    + left. destruct F as (_&S&_). exact S.
    + right; left. split; [|exact R]. destruct C as (_&S&_). exact S.
    + right; right. destruct Q as (_&S&_). rewrite S. exact Ha.
  - pose proof (executeIOC_run env o w) as K. rewrite E in K.
    destruct K as [[F _]|[[C R]|[C R]]].
    + left. destruct F as (_&S&_). exact S.
    + right; left. split; [|exact R]. destruct C as (_&S&_). exact S.
    + right; right. split; [|exact R]. destruct C as (_&S&_). exact S.
  - pose proof (executeFOK_run env o w) as K. rewrite E in K.
    destruct K as [[F _]|[[C R]|[C R]]].
    + left. destruct F as (_&S&_). exact S.
    + right; left. split; [|exact R]. destruct C as (_&S&_). exact S.
    + right; right. split; [|exact R]. destruct C as (_&S&_). exact S.
Qed.

(** An immediate-or-cancel order against a pool that cannot be reached. *)
Lemma final_status_by_policy_witness :
  exists o' w',
    strategy 1 unreachable_pool IOC
             (sample_order IOC 1000000 (Double.literal 101 100)) start = Done tt o' w' /\
    (status o' = FILLED \/
     (status o' = CANCELED /\
      failure_reason o' = "Price not met for any execution"%string) \/
     (status o' = FAILED /\
      exists what,
        thrown unreachable_pool what /\
        failure_reason o' =
          if is_empty what
          then failure_reason (sample_order IOC 1000000 (Double.literal 101 100))
          else what)).
Proof.
  destruct (strategy 1 unreachable_pool IOC
                     (sample_order IOC 1000000 (Double.literal 101 100)) start)
    as [[] o' w'| | |] eqn:E; try (vm_compute in E; discriminate).
  exists o', w'. split; [reflexivity|].
  assert (Ha : status (sample_order IOC 1000000 (Double.literal 101 100)) = ACTIVE)
    by (vm_compute; reflexivity).
  exact (final_status_by_policy 1 unreachable_pool
           (sample_order IOC 1000000 (Double.literal 101 100)) start o' w' Ha E).
Defined.

(** ** Good-till-canceled: the demo limit and the retry loop *)

(** The watch of a good-till-canceled order whose [k] remaining checks
    all miss the limit. *)
Lemma executeGTC_loop_unmet env pool :
  forall k c fuel o w,
    c + Z.of_nat k = max_checks ->
    (k < fuel)%nat ->
    status o = ACTIVE -> tif_policy o = GTC ->
    (forall n, exists q,
        get_dy env n pool (input_token_index o) (output_token_index o) (input_amount o)
          = Returns q /\
        isPriceMet o q = false) ->
    exists o' w',
      executeGTC_loop fuel env pool c o w = Done (Next max_checks) o' w' /\
      price_check_count o' = price_check_count o + Z.of_nat k /\
      swaps w' = swaps w /\
      List.length (log w') = (List.length (log w) + k)%nat.
Proof.
  induction k as [|k IH]; intros c fuel o w Hc Hf Ha Ht Hq;
    (destruct fuel as [|fuel]; [lia|]); cbn [executeGTC_loop]; mrun;
    rewrite Ha; cbn [OrderStatus_eqb]; mrun; rewrite Ht; cbn [TimeInForce_eqb]; mrun.
  - replace (c <? max_checks) with false by (symmetry; apply Z.ltb_ge; lia). mrun.
    replace c with max_checks by lia.
    exists o, w. repeat split; lia.
  - replace (c <? max_checks) with true by (symmetry; apply Z.ltb_lt; lia). mrun.
    unfold executeGTC_body. mrun.
    destruct (Hq (tick w)) as (q & Eq & Hmet). rewrite Eq. mrun.
    fold_terms. rewrite Hmet. mrun.
    match goal with
    | |- context [executeGTC_loop fuel env pool (c + 1) ?o1 ?w1] =>
        destruct (IH (c + 1) fuel o1 w1) as (o' & w' & E & Hn & Hw & Hl);
          [lia|lia|exact Ha|exact Ht|exact Hq|]
    end.
    rewrite E. exists o', w'. split; [reflexivity|].
    split; [rewrite Hn; cbn [price_check_count set_price_check]; lia|].
    split; [rewrite Hw; reflexivity|].
    rewrite Hl. cbn [log advance record_event List.length]. lia.
Qed.

(** X6.  A good-till-canceled order stops at the demo limit: when the
    pool answers every quote and no quote meets the limit price, the
    strategy makes exactly ten price checks, requests no settlement, and
    returns with the order CANCELED for the reason "Demo limit reached";
    the ten checks are counted on the order (whose counter has room for
    them: it is an [int] at most ten below its maximum), and its filled
    amount, received amount and transaction hash are as they were. *)
Theorem gtc_canceled_at_demo_limit env o w fuel :
  int_min <= price_check_count o <= int_max - 10 ->
  status o = ACTIVE -> tif_policy o = GTC ->
  (forall n, exists q,
      get_dy env n (pool_address o) (input_token_index o) (output_token_index o)
             (input_amount o) = Returns q /\
      isPriceMet o q = false) ->
  (10 < fuel)%nat ->
  exists o' w',
    executeGTC fuel env o w = Done tt o' w' /\
    status o' = CANCELED /\
    failure_reason o' = "Demo limit reached"%string /\
    price_check_count o' = price_check_count o + 10 /\
    filled_amount o' = filled_amount o /\
    received_amount o' = received_amount o /\
    transaction_hash o' = transaction_hash o /\
    swaps w' = swaps w /\
    List.length (log w') = (List.length (log w) + 10)%nat.
Proof.
  intros _ Ha Ht Hq Hf.
  destruct (executeGTC_loop_unmet env (pool_address o) 10 0 fuel o w)
    as (o1 & w1 & E & Hn & Hw & Hl);
    [reflexivity|exact Hf|exact Ha|exact Ht|exact Hq|].
  assert (Ex : executeGTC fuel env o w
               = Done tt (updateStatus CANCELED "Demo limit reached" o1) w1).
  { unfold executeGTC. unfold bind at 1. unfold this at 1. unfold bind at 1.
    rewrite E. change (max_checks <=? max_checks) with true. mrun. reflexivity. }
  exists (updateStatus CANCELED "Demo limit reached" o1), w1.
  split; [exact Ex|]. split; [reflexivity|]. split; [reflexivity|].
  split; [exact Hn|].
  pose proof (executeGTC_run fuel env o w) as K. rewrite Ex in K.
  assert (C : closes CANCELED env (pool_address o) o w
                (updateStatus CANCELED "Demo limit reached" o1) w1).
  { destruct K as [[F _]|[[C _]|[Q _]]]; [|exact C|].
    - destruct F as (_&S&_). discriminate S.
    - destruct Q as (_&S&_). rewrite Ha in S. discriminate S. }
  destruct (closes_open _ _ _ _ _ _ _ C) as (_&F&R&H).
  repeat split; assumption.
Qed.

Lemma gtc_canceled_at_demo_limit_witness :
  exists o' w',
    executeGTC 11 (steady_pool 1005000)
               (sample_order GTC 1000000 (Double.literal 101 100)) start = Done tt o' w' /\
    status o' = CANCELED /\
    failure_reason o' = "Demo limit reached"%string /\
    price_check_count o' = 10 /\
    swaps w' = swaps start.
Proof.
  assert (Hc : int_min <= price_check_count
                          (sample_order GTC 1000000 (Double.literal 101 100))
               <= int_max - 10) by (vm_compute; split; discriminate).
  assert (Ha : status (sample_order GTC 1000000 (Double.literal 101 100)) = ACTIVE)
    by (vm_compute; reflexivity).
  assert (Ht : tif_policy (sample_order GTC 1000000 (Double.literal 101 100)) = GTC)
    by (vm_compute; reflexivity).
  assert (Hq : forall n : nat, exists q,
             get_dy (steady_pool 1005000) n
                    (pool_address (sample_order GTC 1000000 (Double.literal 101 100)))
                    (input_token_index (sample_order GTC 1000000 (Double.literal 101 100)))
                    (output_token_index (sample_order GTC 1000000 (Double.literal 101 100)))
                    (input_amount (sample_order GTC 1000000 (Double.literal 101 100)))
               = Returns q /\
             isPriceMet (sample_order GTC 1000000 (Double.literal 101 100)) q = false).
  { intros n. exists 1005000. split; [reflexivity|vm_compute; reflexivity]. }
  assert (Hf : (10 < 11)%nat) by lia.
  destruct (gtc_canceled_at_demo_limit (steady_pool 1005000)
              (sample_order GTC 1000000 (Double.literal 101 100)) start 11 Hc Ha Ht Hq Hf)
    as (o' & w' & E & S & R & C & _ & _ & _ & W & _).
  exists o', w'. repeat split; assumption.
Defined.

(** X7.  While the price source keeps throwing, a good-till-canceled order
    is never closed: a failed quote is not counted against the demo limit,
    so the strategy waits and asks again, without end (whatever fuel the
    run is given, it is used up). *)
Theorem gtc_retries_forever env o w :
  status o = ACTIVE -> tif_policy o = GTC ->
  (forall n, exists what,
      get_dy env n (pool_address o) (input_token_index o) (output_token_index o)
             (input_amount o) = Throws what) ->
  forall fuel, executeGTC fuel env o w = OutOfFuel.
Proof.
  intros Ha Ht Hq fuel.
  assert (L : forall fuel w0,
             executeGTC_loop fuel env (pool_address o) 0 o w0 = OutOfFuel).
  { clear fuel. induction fuel as [|fuel IH]; intros w0; cbn [executeGTC_loop];
      [reflexivity|].
    mrun. rewrite Ha; cbn [OrderStatus_eqb]; mrun. rewrite Ht; cbn [TimeInForce_eqb]; mrun.
    change (0 <? max_checks) with true. mrun.
    unfold executeGTC_body. mrun.
    destruct (Hq (tick w0)) as (what & Eq). rewrite Eq. mrun.
    apply IH. }
  unfold executeGTC. unfold bind at 1. unfold this at 1. unfold bind at 1.
  rewrite L. reflexivity.
Qed.

(** A thousand turns are not enough. *)
Lemma gtc_retries_forever_witness :
  executeGTC 1000 unreachable_pool
             (sample_order GTC 1000000 (Double.literal 101 100)) start = OutOfFuel.
Proof.
  assert (Ha : status (sample_order GTC 1000000 (Double.literal 101 100)) = ACTIVE)
    by (vm_compute; reflexivity).
  assert (Ht : tif_policy (sample_order GTC 1000000 (Double.literal 101 100)) = GTC)
    by (vm_compute; reflexivity).
  assert (Hq : forall n : nat, exists what,
             get_dy unreachable_pool n
                    (pool_address (sample_order GTC 1000000 (Double.literal 101 100)))
                    (input_token_index (sample_order GTC 1000000 (Double.literal 101 100)))
                    (output_token_index (sample_order GTC 1000000 (Double.literal 101 100)))
                    (input_amount (sample_order GTC 1000000 (Double.literal 101 100)))
             = Throws what)
    by (intros n; exists "CURL request failed"%string; reflexivity).
  exact (gtc_retries_forever unreachable_pool
           (sample_order GTC 1000000 (Double.literal 101 100)) start Ha Ht Hq 1000).
Defined.

(** ** Good-till-time: the expiry *)

Lemma clock_monotone env :
  (forall n, now env n <= now env (S n)) ->
  forall n k, now env n <= now env (k + n)%nat.
Proof.
  intros Hm n k. induction k as [|k IH]; cbn [Nat.add]; [lia|].
  specialize (Hm (k + n)%nat). lia.
Qed.

Lemma clock_later env n m :
  (forall n, now env n <= now env (S n)) -> (n <= m)%nat -> now env n <= now env m.
Proof.
  intros Hm Hle. replace m with ((m - n) + n)%nat by lia. apply clock_monotone. exact Hm.
Qed.

(** A turn of the watch ends, and never takes the world back. *)
Lemma executeGTT_body_tick env pool o w :
  match executeGTT_body env pool o w with
  | Done _ _ w' | Raised _ _ w' => (tick w <= tick w')%nat
  | OutOfFuel => False
  | Undefined => True
  end.
Proof.
  unfold executeGTT_body. mrun. ask_oracle; mrun; [|lia].
  destruct (isPriceMet _ _); mrun; [|lia].
  destruct (getMinOutputWithSlippage _ _); mrun; [|exact I].
  ask_oracle; mrun; lia.
Qed.

(** With a clock that has reached the expiry by its reading number [N],
    the watch of a good-till-time order ends, and if it ends without a
    fill the clock has been seen past the expiry. *)
Lemma executeGTT_loop_ends env pool N :
  (forall n, now env n <= now env (S n)) ->
  forall fuel o w,
    status o = ACTIVE -> tif_policy o = GTT ->
    expiry_time o <= now env N ->
    (0 < fuel)%nat -> (N < tick w + fuel)%nat ->
    match executeGTT_loop fuel env pool o w with
    | Done (Next _) _ w' => exists t, (t < tick w')%nat /\ expiry_time o <= now env t
    | OutOfFuel => False
    | _ => True
    end.
Proof.
  intros Hm. induction fuel as [|fuel IH]; intros o w Ha Ht He Hf Hn; [lia|].
  cbn [executeGTT_loop]. mrun.
  rewrite Ha; cbn [OrderStatus_eqb]; mrun. rewrite Ht; cbn [TimeInForce_eqb]; mrun.
  destruct (expiry_time o <=? now env (tick w)) eqn:E1; mrun.
  { exists (tick w). split; [lia|apply Z.leb_le; exact E1]. }
  rewrite Ht; cbn [TimeInForce_eqb]; mrun.
  destruct (expiry_time o <=? now env (S (tick w))) eqn:E2; mrun.
  { exists (S (tick w)). split; [lia|apply Z.leb_le; exact E2]. }
  assert (Hlt : (S (tick w) < N)%nat).
  { destruct (Nat.lt_ge_cases (S (tick w)) N) as [|G]; [assumption|exfalso].
    apply Z.leb_gt in E2.
    destruct (Nat.eq_dec N (S (tick w))) as [->|Hne]; [lia|].
    assert (N <= tick w)%nat by lia.
    pose proof (clock_later env N (S (tick w)) Hm ltac:(lia)). lia. }
  match goal with
  | |- context [executeGTT_body env pool o ?w0] =>
      pose proof (executeGTT_body_run env pool o w0) as B;
      pose proof (executeGTT_body_tick env pool o w0) as T;
      destruct (executeGTT_body env pool o w0) as [[u|] o1 w1|what o1 w1| |]
  end; try exact I; try contradiction.
  cbn [tick advance] in T.
  destruct B as (I1&S1&_). destruct (identity_terms _ _ I1) as (_&_&_&_&T1&X1&_).
  specialize (IH o1 w1).
  rewrite X1 in IH.
  assert (K := IH ltac:(congruence) ltac:(congruence) He ltac:(lia) ltac:(lia)).
  destruct (executeGTT_loop fuel env pool o1 w1) as [[u'|] o2 w2|? ? ?| |]; auto.
Qed.

(** X8.  A good-till-time order does not outlive its expiry.  With a
    clock that never goes back and has reached the expiry time by its
    reading number N, the strategy ends whatever the pool answers, quotes
    or exceptions; and when it returns, the order is FILLED, or it is
    EXPIRED with the reason "Order expired". *)
Theorem gtt_ends_by_expiry env o w N fuel :
  status o = ACTIVE -> tif_policy o = GTT ->
  (forall n, now env n <= now env (S n)) ->
  expiry_time o <= now env N ->
  (0 < fuel)%nat -> (N < tick w + fuel)%nat ->
  executeGTT fuel env o w <> OutOfFuel /\
  (forall o' w',
      executeGTT fuel env o w = Done tt o' w' ->
      status o' = FILLED \/
      (status o' = EXPIRED /\ failure_reason o' = "Order expired"%string)).
Proof.
  intros Ha Ht Hm He Hf Hn.
  pose proof (executeGTT_loop_ends env (pool_address o) N Hm fuel o w Ha Ht He Hf Hn) as L.
  pose proof (executeGTT_loop_run env (pool_address o) fuel o w) as R.
  assert (Hx : executeGTT fuel env o w
               = match executeGTT_loop fuel env (pool_address o) o w with
                 | Done after o1 w1 =>
                     match after with
                     | Return => ret tt
                     | Next _ =>
                         expired <- isExpired env ;;
                         if expired then modify (updateStatus EXPIRED "Order expired")
                         else ret tt
                     end o1 w1
                 | Raised what o1 w1 => Raised what o1 w1
                 | Undefined => Undefined
                 | OutOfFuel => OutOfFuel
                 end) by reflexivity.
  rewrite Hx. clear Hx.
  destruct (executeGTT_loop fuel env (pool_address o) o w)
    as [[u|] o1 w1|what o1 w1| |]; try contradiction.
  - destruct L as (t & Ht1 & Ht2).
    destruct R as (I1&S1&_). destruct (identity_terms _ _ I1) as (_&_&_&_&T1&X1&_).
    mrun. rewrite T1, Ht; cbn [TimeInForce_eqb]; mrun.
    replace (expiry_time o1 <=? now env (tick w1)) with true.
    2:{ symmetry. apply Z.leb_le. rewrite X1.
        pose proof (clock_later env t (tick w1) Hm ltac:(lia)). lia. }
    mrun. split; [discriminate|].
    intros o' w' E. inversion E; subst. right. split; reflexivity.
  - mrun. split; [discriminate|].
    intros o' w' E. inversion E; subst. left. destruct R as [(_&S&_) _]. exact S.
  - split; [discriminate|]. intros o' w' E. discriminate E.
Qed.

(** An order that expires at time 5, limit 2 against quotes of 1,010,000
    for 1,000,000, under a clock that ticks: it ends EXPIRED. *)
Lemma gtt_ends_by_expiry_witness :
  exists o' w',
    executeGTT 6 (ticking_pool 1010000) (gtt_order 1000000 (Double.literal 2 1) 5) start
      = Done tt o' w' /\
    (status o' = FILLED \/
     (status o' = EXPIRED /\ failure_reason o' = "Order expired"%string)).
Proof.
  destruct (executeGTT 6 (ticking_pool 1010000)
                       (gtt_order 1000000 (Double.literal 2 1) 5) start)
    as [[] o' w'| | |] eqn:E; try (vm_compute in E; discriminate).
  exists o', w'. split; [reflexivity|].
  assert (Ha : status (gtt_order 1000000 (Double.literal 2 1) 5) = ACTIVE)
    by (vm_compute; reflexivity).
  assert (Ht : tif_policy (gtt_order 1000000 (Double.literal 2 1) 5) = GTT)
    by (vm_compute; reflexivity).
  assert (Hm : forall n : nat,
             now (ticking_pool 1010000) n <= now (ticking_pool 1010000) (S n))
    by (intros n; cbn [now ticking_pool]; lia).
  assert (He : expiry_time (gtt_order 1000000 (Double.literal 2 1) 5)
               <= now (ticking_pool 1010000) 5)
    by (vm_compute; discriminate).
  assert (Hf : (0 < 6)%nat) by lia.
  assert (Hn : (5 < tick start + 6)%nat) by (cbn [tick start]; lia).
  exact (proj2 (gtt_ends_by_expiry (ticking_pool 1010000)
                  (gtt_order 1000000 (Double.literal 2 1) 5) start 5 6
                  Ha Ht Hm He Hf Hn) o' w' E).
Defined.

(** ** Orders that are past their expiry when the engine reaches them *)

(** X9.  [processOrders] never marks as EXPIRED a good-till-time order
    that is already past its expiry when the loop reaches it: the order
    is not executable, so it is skipped and stays ACTIVE, with no quote
    asked.  Only the strategy itself, were it run on that order, would
    close it as EXPIRED with the reason "Order expired". *)
Theorem expired_gtt_left_active fuel env o w :
  status o = ACTIVE -> tif_policy o = GTT ->
  expiry_time o <= now env (tick w) ->
  processOrders_body fuel env o w = Done tt o (advance w) /\
  processOrders fuel env {| active_orders := [o] |} w
    = Done tt {| active_orders := [o] |} (advance w) /\
  (expiry_time o <= now env (S (tick w)) ->
   executeGTT (S fuel) env o w
     = Done tt (updateStatus EXPIRED "Order expired" o) (advance (advance w))).
Proof.
  intros Ha Ht He.
  assert (B : processOrders_body fuel env o w = Done tt o (advance w)).
  { unfold processOrders_body. mrun.
    rewrite Ha; cbn [OrderStatus_eqb]; mrun. rewrite Ht; cbn [TimeInForce_eqb]; mrun.
    replace (expiry_time o <=? now env (tick w)) with true
      by (symmetry; apply Z.leb_le; exact He).
    reflexivity. }
  split; [exact B|]. split.
  - unfold processOrders. cbn [active_orders processOrders_for]. rewrite B. reflexivity.
  - intros He'. unfold executeGTT. cbn [executeGTT_loop]. mrun.
    rewrite Ha; cbn [OrderStatus_eqb]; mrun. rewrite Ht; cbn [TimeInForce_eqb]; mrun.
    replace (expiry_time o <=? now env (tick w)) with true
      by (symmetry; apply Z.leb_le; exact He).
    mrun. rewrite Ht; cbn [TimeInForce_eqb]; mrun.
    replace (expiry_time o <=? now env (S (tick w))) with true
      by (symmetry; apply Z.leb_le; exact He').
    reflexivity.
Qed.

(** An order that expired at time 0. *)
Lemma expired_gtt_left_active_witness :
  processOrders 1 (steady_pool 1010000)
                {| active_orders := [gtt_order 1000000 (Double.literal 95 100) 0] |} start
    = Done tt {| active_orders := [gtt_order 1000000 (Double.literal 95 100) 0] |}
           (advance start) /\
  status (gtt_order 1000000 (Double.literal 95 100) 0) = ACTIVE.
Proof.
  assert (Ha : status (gtt_order 1000000 (Double.literal 95 100) 0) = ACTIVE)
    by (vm_compute; reflexivity).
  assert (Ht : tif_policy (gtt_order 1000000 (Double.literal 95 100) 0) = GTT)
    by (vm_compute; reflexivity).
  assert (He : expiry_time (gtt_order 1000000 (Double.literal 95 100) 0)
               <= now (steady_pool 1010000) (tick start))
    by (vm_compute; discriminate).
  split; [|exact Ha].
  exact (proj1 (proj2 (expired_gtt_left_active 1 (steady_pool 1010000)
                         (gtt_order 1000000 (Double.literal 95 100) 0) start Ha Ht He))).
Defined.

(** ** Immediate-or-cancel and fill-or-kill, case by case *)

(** X10.  An immediate-or-cancel order whose one quote meets the limit is
    filled at once (its counter of price checks being an [int] below its
    maximum): the strategy records the price check, requests the
    settlement of the full input amount with the slippage floor of the
    quote as minimum output, and returns with the order FILLED, its
    filled amount the input amount, its received amount the quote and its
    transaction hash the one returned. *)
Theorem ioc_fills_at_once env o w q expected min_dy tx_hash :
  int_min <= price_check_count o < int_max ->
  get_dy env (tick w) (pool_address o) (input_token_index o) (output_token_index o)
         (input_amount o) = Returns q ->
  isPriceMet o q = true ->
  Double.to_uint64 (Double.mul (Double.of_uint64 (input_amount o)) (limit_price o))
    = Some expected ->
  getMinOutputWithSlippage o q = Some min_dy ->
  executeSwap env (S (S (tick w))) (pool_address o) (input_token_index o)
              (output_token_index o) (input_amount o) min_dy = Returns tx_hash ->
  exists o' w',
    executeIOC env o w = Done tt o' w' /\
    status o' = FILLED /\
    filled_amount o' = input_amount o /\
    received_amount o' = q /\
    transaction_hash o' = tx_hash /\
    failure_reason o' = failure_reason o /\
    last_quoted_output o' = q /\
    price_check_count o' = price_check_count o + 1 /\
    log w' = [Swapped (pool_address o) (input_token_index o) (output_token_index o)
                      (input_amount o) min_dy;
              Quoted (pool_address o) (input_token_index o) (output_token_index o)
                     (input_amount o)] ++ log w.
Proof.
  intros _ Hq Hmet Hexp Hmin Hswap.
  unfold executeIOC. mrun. rewrite Hq. mrun. rewrite Hexp. mrun.
  fold_terms. rewrite Hmet. mrun. fold_terms. rewrite Hmin. mrun. rewrite Hswap. mrun.
  eexists _, _. split; [reflexivity|].
  unfold updateStatus. cbn. repeat split; reflexivity.
Qed.

Lemma ioc_fills_at_once_witness :
  exists o' w',
    executeIOC (steady_pool 1010000) (sample_order IOC 1000000 (Double.literal 95 100)) start
      = Done tt o' w' /\
    status o' = FILLED /\ filled_amount o' = 1000000 /\ received_amount o' = 1010000 /\
    transaction_hash o' = "0xffff"%string.
Proof.
  assert (Hc : int_min <= price_check_count (sample_order IOC 1000000 (Double.literal 95 100)) < int_max)
    by (vm_compute; split; [discriminate|reflexivity]).
  assert (Hq : get_dy (steady_pool 1010000) (tick start)
                 (pool_address (sample_order IOC 1000000 (Double.literal 95 100)))
                 (input_token_index (sample_order IOC 1000000 (Double.literal 95 100)))
                 (output_token_index (sample_order IOC 1000000 (Double.literal 95 100)))
                 (input_amount (sample_order IOC 1000000 (Double.literal 95 100)))
               = Returns 1010000) by reflexivity.
  assert (Hmet : isPriceMet (sample_order IOC 1000000 (Double.literal 95 100)) 1010000 = true)
    by (vm_compute; reflexivity).
  assert (Hexp : Double.to_uint64
                   (Double.mul
                      (Double.of_uint64
                         (input_amount (sample_order IOC 1000000 (Double.literal 95 100))))
                      (limit_price (sample_order IOC 1000000 (Double.literal 95 100))))
                 = Some 950000) by (vm_compute; reflexivity).
  assert (Hmin : getMinOutputWithSlippage
                   (sample_order IOC 1000000 (Double.literal 95 100)) 1010000
                 = Some 1004950) by (vm_compute; reflexivity).
  assert (Hswap : executeSwap (steady_pool 1010000) (S (S (tick start)))
                    (pool_address (sample_order IOC 1000000 (Double.literal 95 100)))
                    (input_token_index (sample_order IOC 1000000 (Double.literal 95 100)))
                    (output_token_index (sample_order IOC 1000000 (Double.literal 95 100)))
                    (input_amount (sample_order IOC 1000000 (Double.literal 95 100)))
                    1004950
                  = Returns "0xffff"%string) by reflexivity.
  destruct (ioc_fills_at_once (steady_pool 1010000)
              (sample_order IOC 1000000 (Double.literal 95 100)) start
              1010000 950000 1004950 "0xffff" Hc Hq Hmet Hexp Hmin Hswap)
    as (o' & w' & E & S & F & R & H & _).
  exists o', w'. split; [exact E|]. split; [exact S|].
  split; [rewrite F; vm_compute; reflexivity|]. split; [exact R|exact H].
Defined.

(** X11.  An immediate-or-cancel order whose one quote misses the limit
    is canceled at once (its counter of price checks being an [int] below
    its maximum): one price check is recorded, no settlement is
    requested, nothing is filled, and the order is CANCELED for the reason
    "Price not met for any execution". *)
Theorem ioc_canceled_below_limit env o w q expected :
  int_min <= price_check_count o < int_max ->
  get_dy env (tick w) (pool_address o) (input_token_index o) (output_token_index o)
         (input_amount o) = Returns q ->
  isPriceMet o q = false ->
  Double.to_uint64 (Double.mul (Double.of_uint64 (input_amount o)) (limit_price o))
    = Some expected ->
  exists o' w',
    executeIOC env o w = Done tt o' w' /\
    status o' = CANCELED /\
    failure_reason o' = "Price not met for any execution"%string /\
    filled_amount o' = filled_amount o /\
    received_amount o' = received_amount o /\
    transaction_hash o' = transaction_hash o /\
    last_quoted_output o' = q /\
    price_check_count o' = price_check_count o + 1 /\
    log w' = Quoted (pool_address o) (input_token_index o) (output_token_index o)
                    (input_amount o) :: log w.
Proof.
  intros _ Hq Hmet Hexp.
  unfold executeIOC. mrun. rewrite Hq. mrun. rewrite Hexp. mrun.
  fold_terms. rewrite Hmet. mrun. fold_terms.
  rewrite (getMaxFillableAmount_not_met _ _ Hmet). change (0 <? 0) with false. mrun.
  eexists _, _. split; [reflexivity|].
  unfold updateStatus. cbn. repeat split; reflexivity.
Qed.

Lemma ioc_canceled_below_limit_witness :
  exists o' w',
    executeIOC (steady_pool 1010000) (sample_order IOC 1000000 (Double.literal 2 1)) start
      = Done tt o' w' /\
    status o' = CANCELED /\
    failure_reason o' = "Price not met for any execution"%string /\
    price_check_count o' = 1 /\
    swaps w' = [].
Proof.
  assert (Hc : int_min <= price_check_count (sample_order IOC 1000000 (Double.literal 2 1)) < int_max)
    by (vm_compute; split; [discriminate|reflexivity]).
  assert (Hq : get_dy (steady_pool 1010000) (tick start)
                 (pool_address (sample_order IOC 1000000 (Double.literal 2 1)))
                 (input_token_index (sample_order IOC 1000000 (Double.literal 2 1)))
                 (output_token_index (sample_order IOC 1000000 (Double.literal 2 1)))
                 (input_amount (sample_order IOC 1000000 (Double.literal 2 1)))
               = Returns 1010000) by reflexivity.
  assert (Hmet : isPriceMet (sample_order IOC 1000000 (Double.literal 2 1)) 1010000 = false)
    by (vm_compute; reflexivity).
  assert (Hexp : Double.to_uint64
                   (Double.mul
                      (Double.of_uint64
                         (input_amount (sample_order IOC 1000000 (Double.literal 2 1))))
                      (limit_price (sample_order IOC 1000000 (Double.literal 2 1))))
                 = Some 2000000) by (vm_compute; reflexivity).
  destruct (ioc_canceled_below_limit (steady_pool 1010000)
              (sample_order IOC 1000000 (Double.literal 2 1)) start
              1010000 2000000 Hc Hq Hmet Hexp)
    as (o' & w' & E & S & R & _ & _ & _ & _ & C & L).
  exists o', w'. split; [exact E|]. split; [exact S|]. split; [exact R|].
  split; [rewrite C; vm_compute; reflexivity|].
  unfold swaps. rewrite L. reflexivity.
Defined.

(** X12.  The liquidity check of a fill-or-kill order fails open.  When
    the quote for the full amount meets the limit, the order is filled in
    full if the probe quote (for the input amount times 1.01) is positive,
    and also if the probe throws: an exception of the probe is swallowed
    and the settlement is requested all the same.  One price check is
    counted, on a counter that is an [int] below its maximum. *)
Theorem fok_fills_unless_probe_finds_nothing env o w q probe min_dy tx_hash :
  int_min <= price_check_count o < int_max ->
  get_dy env (tick w) (pool_address o) (input_token_index o) (output_token_index o)
         (input_amount o) = Returns q ->
  isPriceMet o q = true ->
  skip_liquidity_check env = false ->
  probe_amount o = Some probe ->
  match get_dy env (S (S (tick w))) (pool_address o) (input_token_index o)
               (output_token_index o) probe with
  | Returns test_output => 0 < test_output
  | Throws _ => True
  end ->
  getMinOutputWithSlippage o q = Some min_dy ->
  executeSwap env (S (S (S (tick w)))) (pool_address o) (input_token_index o)
              (output_token_index o) (input_amount o) min_dy = Returns tx_hash ->
  exists o' w',
    executeFOK env o w = Done tt o' w' /\
    status o' = FILLED /\
    filled_amount o' = input_amount o /\
    received_amount o' = q /\
    transaction_hash o' = tx_hash /\
    failure_reason o' = failure_reason o /\
    price_check_count o' = price_check_count o + 1 /\
    log w' = [Swapped (pool_address o) (input_token_index o) (output_token_index o)
                      (input_amount o) min_dy;
              Quoted (pool_address o) (input_token_index o) (output_token_index o) probe;
              Quoted (pool_address o) (input_token_index o) (output_token_index o)
                     (input_amount o)] ++ log w.
Proof.
  intros _ Hq Hmet Hskip Hprobe Hliq Hmin Hswap.
  unfold executeFOK. mrun. rewrite Hq. mrun.
  fold_terms. rewrite Hmet. mrun. rewrite Hskip. mrun.
  unfold executeFOK_liquidity. mrun.
  unfold probe_amount in Hprobe. rewrite Hprobe. mrun.
  destruct (get_dy env (S (S (tick w))) (pool_address o) (input_token_index o)
                   (output_token_index o) probe) as [test_output|what]; mrun.
  - replace (0 <? test_output) with true by (symmetry; apply Z.ltb_lt; exact Hliq).
    mrun. fold_terms. rewrite Hmin. mrun. rewrite Hswap. mrun.
    eexists _, _. split; [reflexivity|].
    unfold updateStatus. cbn. repeat split; reflexivity.
  - fold_terms. rewrite Hmin. mrun. rewrite Hswap. mrun.
    eexists _, _. split; [reflexivity|].
    unfold updateStatus. cbn. repeat split; reflexivity.
Qed.

(** The probe for 1,010,000 units throws; the order for 1,000,000 is
    filled all the same. *)
Lemma fok_fills_unless_probe_finds_nothing_witness :
  get_dy (probe_failing_pool 1000000 1010000) 2 "0xPool" 1 0 1010000
    = Throws "RPC Error: execution reverted"%string /\
  exists o' w',
    executeFOK (probe_failing_pool 1000000 1010000)
               (sample_order FOK 1000000 (Double.literal 95 100)) start = Done tt o' w' /\
    status o' = FILLED /\ filled_amount o' = 1000000 /\ received_amount o' = 1010000.
Proof.
  split; [reflexivity|].
  assert (Hc : int_min <= price_check_count (sample_order FOK 1000000 (Double.literal 95 100)) < int_max)
    by (vm_compute; split; [discriminate|reflexivity]).
  assert (Hq : get_dy (probe_failing_pool 1000000 1010000) (tick start)
                 (pool_address (sample_order FOK 1000000 (Double.literal 95 100)))
                 (input_token_index (sample_order FOK 1000000 (Double.literal 95 100)))
                 (output_token_index (sample_order FOK 1000000 (Double.literal 95 100)))
                 (input_amount (sample_order FOK 1000000 (Double.literal 95 100)))
               = Returns 1010000) by (vm_compute; reflexivity).
  assert (Hmet : isPriceMet (sample_order FOK 1000000 (Double.literal 95 100)) 1010000 = true)
    by (vm_compute; reflexivity).
  assert (Hskip : skip_liquidity_check (probe_failing_pool 1000000 1010000) = false)
    by reflexivity.
  assert (Hprobe : probe_amount (sample_order FOK 1000000 (Double.literal 95 100))
                   = Some 1010000) by (vm_compute; reflexivity).
  assert (Hliq : match get_dy (probe_failing_pool 1000000 1010000) (S (S (tick start)))
                         (pool_address (sample_order FOK 1000000 (Double.literal 95 100)))
                         (input_token_index
                            (sample_order FOK 1000000 (Double.literal 95 100)))
                         (output_token_index
                            (sample_order FOK 1000000 (Double.literal 95 100)))
                         1010000 with
                 | Returns test_output => 0 < test_output
                 | Throws _ => True
                 end) by (vm_compute; exact I).
  assert (Hmin : getMinOutputWithSlippage
                   (sample_order FOK 1000000 (Double.literal 95 100)) 1010000
                 = Some 1004950) by (vm_compute; reflexivity).
  assert (Hswap : executeSwap (probe_failing_pool 1000000 1010000) (S (S (S (tick start))))
                    (pool_address (sample_order FOK 1000000 (Double.literal 95 100)))
                    (input_token_index (sample_order FOK 1000000 (Double.literal 95 100)))
                    (output_token_index (sample_order FOK 1000000 (Double.literal 95 100)))
                    (input_amount (sample_order FOK 1000000 (Double.literal 95 100)))
                    1004950
                  = Returns "0xffff"%string) by reflexivity.
  destruct (fok_fills_unless_probe_finds_nothing (probe_failing_pool 1000000 1010000)
              (sample_order FOK 1000000 (Double.literal 95 100)) start
              1010000 1010000 1004950 "0xffff" Hc Hq Hmet Hskip Hprobe Hliq Hmin Hswap)
    as (o' & w' & E & S & F & R & _).
  exists o', w'. split; [exact E|]. split; [exact S|].
  split; [rewrite F; vm_compute; reflexivity|exact R].
Defined.

(** X13.  A fill-or-kill order is killed when the probe quote is zero:
    although the quote for the full amount meets the limit, no settlement
    is requested, nothing is filled, and the order is CANCELED for the
    reason "FOK: Insufficient liquidity for full order".  One price check
    is counted, on a counter that is an [int] below its maximum. *)
Theorem fok_killed_without_liquidity env o w q probe :
  int_min <= price_check_count o < int_max ->
  get_dy env (tick w) (pool_address o) (input_token_index o) (output_token_index o)
         (input_amount o) = Returns q ->
  isPriceMet o q = true ->
  skip_liquidity_check env = false ->
  probe_amount o = Some probe ->
  get_dy env (S (S (tick w))) (pool_address o) (input_token_index o)
         (output_token_index o) probe = Returns 0 ->
  exists o' w',
    executeFOK env o w = Done tt o' w' /\
    status o' = CANCELED /\
    failure_reason o' = "FOK: Insufficient liquidity for full order"%string /\
    filled_amount o' = filled_amount o /\
    received_amount o' = received_amount o /\
    transaction_hash o' = transaction_hash o /\
    price_check_count o' = price_check_count o + 1 /\
    swaps w' = swaps w.
Proof.
  intros _ Hq Hmet Hskip Hprobe Hliq.
  unfold executeFOK. mrun. rewrite Hq. mrun.
  fold_terms. rewrite Hmet. mrun. rewrite Hskip. mrun.
  unfold executeFOK_liquidity. mrun.
  unfold probe_amount in Hprobe. rewrite Hprobe. mrun. rewrite Hliq. mrun.
  change (0 <? 0) with false. mrun.
  eexists _, _. split; [reflexivity|].
  unfold updateStatus, swaps. cbn. repeat split; reflexivity.
Qed.

Lemma fok_killed_without_liquidity_witness :
  exists o' w',
    executeFOK (shallow_pool 1000000 1010000)
               (sample_order FOK 1000000 (Double.literal 95 100)) start = Done tt o' w' /\
    status o' = CANCELED /\
    failure_reason o' = "FOK: Insufficient liquidity for full order"%string /\
    swaps w' = swaps start.
Proof.
  assert (Hc : int_min <= price_check_count (sample_order FOK 1000000 (Double.literal 95 100)) < int_max)
    by (vm_compute; split; [discriminate|reflexivity]).
  assert (Hq : get_dy (shallow_pool 1000000 1010000) (tick start)
                 (pool_address (sample_order FOK 1000000 (Double.literal 95 100)))
                 (input_token_index (sample_order FOK 1000000 (Double.literal 95 100)))
                 (output_token_index (sample_order FOK 1000000 (Double.literal 95 100)))
                 (input_amount (sample_order FOK 1000000 (Double.literal 95 100)))
               = Returns 1010000) by (vm_compute; reflexivity).
  assert (Hmet : isPriceMet (sample_order FOK 1000000 (Double.literal 95 100)) 1010000 = true)
    by (vm_compute; reflexivity).
  assert (Hskip : skip_liquidity_check (shallow_pool 1000000 1010000) = false)
    by reflexivity.
  assert (Hprobe : probe_amount (sample_order FOK 1000000 (Double.literal 95 100))
                   = Some 1010000) by (vm_compute; reflexivity).
  assert (Hliq : get_dy (shallow_pool 1000000 1010000) (S (S (tick start)))
                   (pool_address (sample_order FOK 1000000 (Double.literal 95 100)))
                   (input_token_index (sample_order FOK 1000000 (Double.literal 95 100)))
                   (output_token_index (sample_order FOK 1000000 (Double.literal 95 100)))
                   1010000
                 = Returns 0) by (vm_compute; reflexivity).
  destruct (fok_killed_without_liquidity (shallow_pool 1000000 1010000)
              (sample_order FOK 1000000 (Double.literal 95 100)) start
              1010000 1010000 Hc Hq Hmet Hskip Hprobe Hliq)
    as (o' & w' & E & S & R & _ & _ & _ & _ & W).
  exists o', w'. repeat split; assumption.
Defined.

(** X14.  When the one quote of an immediate-or-cancel or fill-or-kill
    order throws, the strategy catches the exception and closes the order
    as FAILED with the message of the exception as reason (the reason
    found is kept when the message is empty); no price check is recorded,
    no settlement is requested, and nothing else of the order changes. *)
Theorem quote_failure_fails_order env o w what :
  get_dy env (tick w) (pool_address o) (input_token_index o) (output_token_index o)
         (input_amount o) = Throws what ->
  executeIOC env o w
    = Done tt (updateStatus FAILED what o)
           (record_event (Quoted (pool_address o) (input_token_index o)
                                 (output_token_index o) (input_amount o)) w) /\
  executeFOK env o w
    = Done tt (updateStatus FAILED what o)
           (record_event (Quoted (pool_address o) (input_token_index o)
                                 (output_token_index o) (input_amount o)) w) /\
  status (updateStatus FAILED what o) = FAILED /\
  failure_reason (updateStatus FAILED what o)
    = (if is_empty what then failure_reason o else what) /\
  same_but_status_and_reason o (updateStatus FAILED what o).
Proof.
  intros Hq. split; [|split; [|split; [|split]]].
  - unfold executeIOC. mrun. rewrite Hq. mrun. reflexivity.
  - unfold executeFOK. mrun. rewrite Hq. mrun. reflexivity.
  - apply status_updateStatus.
  - unfold updateStatus. destruct (is_empty what); reflexivity.
  - apply updateStatus_same.
Qed.

Lemma quote_failure_fails_order_witness :
  exists o' w',
    executeFOK unreachable_pool (sample_order FOK 1000000 (Double.literal 101 100)) start
      = Done tt o' w' /\
    status o' = FAILED /\ failure_reason o' = "CURL request failed"%string /\
    price_check_count o' = 0 /\ swaps w' = [].
Proof.
  assert (Hq : get_dy unreachable_pool (tick start)
                 (pool_address (sample_order FOK 1000000 (Double.literal 101 100)))
                 (input_token_index (sample_order FOK 1000000 (Double.literal 101 100)))
                 (output_token_index (sample_order FOK 1000000 (Double.literal 101 100)))
                 (input_amount (sample_order FOK 1000000 (Double.literal 101 100)))
               = Throws "CURL request failed"%string) by reflexivity.
  destruct (quote_failure_fails_order unreachable_pool
              (sample_order FOK 1000000 (Double.literal 101 100)) start
              "CURL request failed" Hq) as (_ & E & S & R & _).
  eexists _, _. split; [exact E|]. split; [exact S|]. split; [exact R|].
  split; vm_compute; reflexivity.
Defined.

(** * The encoding helpers *)

(** ** Strings *)

Lemma length_append s1 s2 :
  String.length (String.append s1 s2) = (String.length s1 + String.length s2)%nat.
Proof. induction s1 as [|c s1 IH]; cbn; [reflexivity|rewrite IH; reflexivity]. Qed.

Lemma append_assoc s1 s2 s3 :
  String.append (String.append s1 s2) s3 = String.append s1 (String.append s2 s3).
Proof. induction s1 as [|c s1 IH]; cbn; [reflexivity|rewrite IH; reflexivity]. Qed.

Lemma append_empty_r s : String.append s EmptyString = s.
Proof. induction s as [|c s IH]; cbn; [reflexivity|rewrite IH; reflexivity]. Qed.

Lemma length_replicate n c : String.length (replicate n c) = n.
Proof. induction n as [|n IH]; cbn; [reflexivity|rewrite IH; reflexivity]. Qed.

Lemma replicate_add n m c :
  replicate (n + m) c = String.append (replicate n c) (replicate m c).
Proof. induction n as [|n IH]; cbn; [reflexivity|rewrite IH; reflexivity]. Qed.

Lemma substring_0_0 s : substring 0 0 s = EmptyString.
Proof. destruct s; reflexivity. Qed.

Lemma substring_0_all s n : (String.length s <= n)%nat -> substring 0 n s = s.
Proof.
  revert n. induction s as [|c s IH]; intros n H.
  - destruct n; reflexivity.
  - destruct n as [|n]; cbn in *; [lia|]. rewrite IH by lia. reflexivity.
Qed.

Lemma substring_0_append_l s1 s2 n :
  (n <= String.length s1)%nat -> substring 0 n (String.append s1 s2) = substring 0 n s1.
Proof.
  revert n. induction s1 as [|c s1 IH]; intros n H; cbn in *.
  - replace n with O by lia. apply substring_0_0.
  - destruct n as [|n]; [reflexivity|]. rewrite IH by lia. reflexivity.
Qed.

Lemma substring_0_append_r s1 s2 n :
  substring 0 (String.length s1 + n) (String.append s1 s2)
  = String.append s1 (substring 0 n s2).
Proof. induction s1 as [|c s1 IH]; cbn; [reflexivity|rewrite IH; reflexivity]. Qed.

Lemma substring_skip s1 s2 m :
  substring (String.length s1) m (String.append s1 s2) = substring 0 m s2.
Proof. induction s1 as [|c s1 IH]; cbn; [reflexivity|exact IH]. Qed.

Lemma substr_from_append s1 s2 :
  substr_from (String.length s1) (String.append s1 s2) = s2.
Proof.
  unfold substr_from. rewrite substring_skip, length_append.
  apply substring_0_all. lia.
Qed.

(** A string splits at any position into what comes before and what
    comes from there on. *)
Lemma substring_split s k :
  (k <= String.length s)%nat ->
  s = String.append (substring 0 k s) (substr_from k s) /\
  String.length (substring 0 k s) = k.
Proof.
  revert k. induction s as [|c s IH]; intros k H; cbn in H.
  - replace k with O by lia. split; reflexivity.
  - destruct k as [|k].
    + split; [|reflexivity]. unfold substr_from. cbn [substring String.append].
      rewrite Nat.sub_0_r. cbn [String.length].
      rewrite (substring_0_all s) by lia. reflexivity.
    + destruct (IH k ltac:(lia)) as [E L]. unfold substr_from in *.
      cbn [substring String.append String.length Nat.sub]. split; [|rewrite L; reflexivity].
      rewrite <- E. reflexivity.
Qed.

(** ** Hexadecimal digits *)

Lemma hex_value_digit d : 0 <= d < 16 -> hex_value (hex_digit d) = Some d.
Proof.
  intros H.
  assert (C : d = 0 \/ d = 1 \/ d = 2 \/ d = 3 \/ d = 4 \/ d = 5 \/ d = 6 \/ d = 7 \/
              d = 8 \/ d = 9 \/ d = 10 \/ d = 11 \/ d = 12 \/ d = 13 \/ d = 14 \/ d = 15)
    by lia.
  repeat (destruct C as [->|C]; [reflexivity|]). subst. reflexivity.
Qed.

Lemma hex_value_range c d : hex_value c = Some d -> 0 <= d < 16.
Proof.
  destruct c as [[] [] [] [] [] [] [] []]; cbn; intros E;
    first [discriminate | injection E as <-; lia].
Qed.

Lemma all_hex_append s1 s2 :
  all_hex (String.append s1 s2) = all_hex s1 && all_hex s2.
Proof.
  induction s1 as [|c s1 IH]; cbn; [reflexivity|].
  destruct (hex_value c); [exact IH|reflexivity].
Qed.

Lemma all_hex_replicate n : all_hex (replicate n "0"%char) = true.
Proof. induction n as [|n IH]; cbn; [reflexivity|exact IH]. Qed.

Lemma hex_number_from_append a s1 s2 :
  hex_number_from a (String.append s1 s2)
  = match hex_number_from a s1 with
    | Some v => hex_number_from v s2
    | None => None
    end.
Proof.
  revert a. induction s1 as [|c s1 IH]; intros a; cbn; [reflexivity|].
  destruct (hex_value c); [apply IH|reflexivity].
Qed.

Lemma hex_number_from_zeros n s :
  hex_number_from 0 (String.append (replicate n "0"%char) s) = hex_number_from 0 s.
Proof. induction n as [|n IH]; cbn; [reflexivity|exact IH]. Qed.

(** The digits of a string of hexadecimal digits spell a number below
    [16 ^ length], shifted by what was read before. *)
Lemma hex_number_from_spec s :
  all_hex s = true ->
  exists v,
    0 <= v < 16 ^ Z.of_nat (String.length s) /\
    forall a, hex_number_from a s = Some (a * 16 ^ Z.of_nat (String.length s) + v).
Proof.
  induction s as [|c s IH]; cbn [all_hex hex_number_from String.length]; intros H.
  - exists 0. split; [cbn; lia|]. intros a. cbn. f_equal. lia.
  - destruct (hex_value c) as [d|] eqn:Ed; [|discriminate].
    destruct (IH H) as (v & Bv & Hv).
    pose proof (hex_value_range c d Ed) as Bd.
    set (L := Z.of_nat (String.length s)) in *.
    assert (HL : 0 <= L) by (unfold L; lia).
    assert (HP : 0 < 16 ^ L) by (apply Z.pow_pos_nonneg; lia).
    replace (Z.of_nat (S (String.length s))) with (L + 1) by (unfold L; lia).
    rewrite Z.pow_add_r by lia. change (16 ^ 1) with 16.
    exists (d * 16 ^ L + v). split; [nia|].
    intros a. rewrite Hv. f_equal. ring.
Qed.

(** What [std::hex] prints spells the number printed. *)
Lemma hex_digits_spec fuel :
  forall n acc,
    0 <= n < 16 ^ Z.of_nat fuel -> (0 < fuel)%nat ->
    exists digits,
      hex_digits fuel n acc = String.append digits acc /\
      (1 <= String.length digits <= fuel)%nat /\
      all_hex digits = true /\
      forall a, hex_number_from a digits
                = Some (a * 16 ^ Z.of_nat (String.length digits) + n).
Proof.
  induction fuel as [|fuel IH]; intros n acc Hn Hf; [lia|].
  cbn [hex_digits].
  pose proof (Z.mod_pos_bound n 16 ltac:(lia)) as Hm.
  pose proof (Z.div_mod n 16 ltac:(lia)) as Hd.
  destruct (n / 16 =? 0) eqn:Ez.
  - apply Z.eqb_eq in Ez.
    exists (String (hex_digit (n mod 16)) EmptyString).
    split; [reflexivity|]. split; [cbn; lia|].
    split; [cbn; rewrite hex_value_digit by lia; reflexivity|].
    intros a. cbn. rewrite hex_value_digit by lia. cbn. f_equal. lia.
  - apply Z.eqb_neq in Ez.
    assert (Hq : 0 <= n / 16 < 16 ^ Z.of_nat fuel).
    { split; [apply Z.div_pos; lia|].
      apply Z.div_lt_upper_bound; [lia|].
      replace (Z.of_nat (S fuel)) with (1 + Z.of_nat fuel) in Hn by lia.
      rewrite Z.pow_add_r in Hn by lia. change (16 ^ 1) with 16 in Hn. lia. }
    assert (Hf' : (0 < fuel)%nat).
    { destruct fuel; [|lia]. cbn in Hq. lia. }
    destruct (IH (n / 16) (String (hex_digit (n mod 16)) acc) Hq Hf')
      as (ds & E & L & A & P).
    exists (String.append ds (String (hex_digit (n mod 16)) EmptyString)).
    split; [rewrite E, append_assoc; reflexivity|].
    split; [rewrite length_append; cbn; lia|].
    split; [rewrite all_hex_append, A; cbn; rewrite hex_value_digit by lia; reflexivity|].
    intros a. rewrite hex_number_from_append, P. cbn.
    rewrite hex_value_digit by lia. cbn. f_equal.
    rewrite length_append. cbn [String.length].
    replace (Z.of_nat (String.length ds + 1)) with (Z.of_nat (String.length ds) + 1) by lia.
    rewrite Z.pow_add_r by lia. change (16 ^ 1) with 16. lia.
Qed.

Lemma to_hex_spec n :
  0 <= n < 2 ^ 64 ->
  (1 <= String.length (to_hex n) <= 16)%nat /\
  all_hex (to_hex n) = true /\
  hex_number (to_hex n) = Some n.
Proof.
  intros Hn. unfold to_hex.
  destruct (hex_digits_spec 16 n EmptyString) as (ds & E & L & A & P);
    [change (16 ^ Z.of_nat 16) with (2 ^ 64); exact Hn|lia|].
  rewrite E, append_empty_r. split; [exact L|]. split; [exact A|].
  unfold hex_number. rewrite P. f_equal.
Qed.

(** ** Reading a hexadecimal word *)

Lemma all_hex_no_prefix s :
  all_hex s = true -> String.eqb (substring 0 2 s) "0x" = false.
Proof.
  intros H. apply String.eqb_neq. intros E.
  destruct s as [|c1 [|c2 s]]; cbn in E; try discriminate.
  injection E as E1 E2 _. subst. cbn in H. discriminate.
Qed.

Lemma substring_0_2_prefixed s : substring 0 2 (String.append "0x" s) = "0x"%string.
Proof. cbn. rewrite substring_0_0. reflexivity. Qed.

(** One [0x] in front is dropped before anything else is looked at. *)
Lemma hexToUint64_prefixed s :
  String.eqb (substring 0 2 s) "0x" = false ->
  hexToUint64 (String.append "0x" s) = hexToUint64 s.
Proof.
  intros H. unfold hexToUint64.
  rewrite substring_0_2_prefixed, H. cbn [String.eqb Ascii.eqb Bool.eqb].
  replace (substr_from 2 (String.append "0x" s)) with s
    by (symmetry; exact (substr_from_append "0x" s)).
  reflexivity.
Qed.

Lemma hex_number_from_digits s a v : hex_number_from a s = Some v -> all_hex s = true.
Proof.
  revert a. induction s as [|c s IH]; intros a; cbn; [reflexivity|].
  destruct (hex_value c); [apply IH|discriminate].
Qed.

Lemma stoull16_hex s v :
  s <> EmptyString -> hex_number s = Some v -> 0 <= v < 2 ^ 64 -> stoull16 s = Some v.
Proof.
  intros Hs Hv Hr. unfold stoull16. destruct s as [|c s]; [contradiction|].
  rewrite Hv. replace (v <=? Double.uint64_max) with true; [reflexivity|].
  symmetry. apply Z.leb_le. unfold Double.uint64_max. lia.
Qed.

(** The value of [hexToUint64] on a string of digits: the number they
    spell, reduced to its low 64 bits. *)
Lemma hexToUint64_digits s :
  all_hex s = true ->
  exists n, hex_number s = Some n /\ 0 <= n /\ hexToUint64 s = n mod 2 ^ 64.
Proof.
  intros H.
  destruct (hex_number_from_spec s H) as (n & Bn & Hn).
  exists n. unfold hex_number. rewrite Hn. split; [f_equal|]. split; [lia|].
  unfold hexToUint64. rewrite (all_hex_no_prefix s H), H. cbn [negb orb].
  destruct s as [|c s]; [cbn in *; rewrite Z.mod_small; lia|].
  cbn [is_empty orb].
  destruct (String.eqb (String c s) "0") eqn:E0.
  { apply String.eqb_eq in E0. rewrite E0 in Hn. specialize (Hn 0). cbn in Hn.
    injection Hn as <-. reflexivity. }
  set (t := String c s) in *.
  destruct (16 <? String.length t)%nat eqn:El.
  - apply Nat.ltb_lt in El.
    destruct (substring_split t (String.length t - 16) ltac:(lia)) as [Et Lp].
    set (pre := substring 0 (String.length t - 16) t) in *.
    set (suf := substr_from (String.length t - 16) t) in *.
    assert (Ls : String.length suf = 16%nat).
    { assert (String.length t = (String.length pre + String.length suf)%nat)
        by (rewrite Et at 1; apply length_append). lia. }
    assert (A : all_hex pre = true /\ all_hex suf = true).
    { rewrite Et, all_hex_append in H. apply andb_prop in H. exact H. }
    destruct A as [Ap As].
    destruct (hex_number_from_spec pre Ap) as (vp & Bp & Hp).
    destruct (hex_number_from_spec suf As) as (vs & Bs & Hs).
    rewrite Ls in Bs, Hs. change (16 ^ Z.of_nat 16) with (2 ^ 64) in Bs, Hs.
    assert (En : n = vp * 2 ^ 64 + vs).
    { specialize (Hn 0). rewrite Et, hex_number_from_append, Hp, Hs in Hn.
      injection Hn as Hn. lia. }
    rewrite (stoull16_hex suf vs).
    + rewrite En, Z.add_comm, Z.mod_add by lia. rewrite Z.mod_small by lia. reflexivity.
    + intros E. rewrite E in Ls. discriminate.
    + unfold hex_number. rewrite Hs. f_equal.
    + exact Bs.
  - apply Nat.ltb_ge in El.
    assert (Hr : 0 <= n < 2 ^ 64).
    { split; [lia|]. eapply Z.lt_le_trans; [apply Bn|].
      change (2 ^ 64) with (16 ^ 16). apply Z.pow_le_mono_r; lia. }
    rewrite (stoull16_hex t n); [rewrite Z.mod_small by lia; reflexivity| | |exact Hr].
    + discriminate.
    + unfold hex_number. rewrite Hn. f_equal.
Qed.

(** X15.  [encodeUint256] and [hexToUint64] are inverse on 64-bit values:
    the encoding of [v] is one word of 64 hexadecimal digits that spell
    [v], and [hexToUint64] reads [v] back from it, with or without a [0x]
    in front. *)
Theorem encodeUint256_roundtrip v :
  0 <= v < 2 ^ 64 ->
  String.length (encodeUint256 v) = 64%nat /\
  all_hex (encodeUint256 v) = true /\
  hex_number (encodeUint256 v) = Some v /\
  hexToUint64 (encodeUint256 v) = v /\
  hexToUint64 (String.append "0x" (encodeUint256 v)) = v.
Proof.
  intros Hv. destruct (to_hex_spec v Hv) as (L & A & P).
  assert (Hlen : String.length (encodeUint256 v) = 64%nat).
  { unfold encodeUint256, pad_left. rewrite length_append, length_replicate. lia. }
  assert (Hall : all_hex (encodeUint256 v) = true).
  { unfold encodeUint256, pad_left. rewrite all_hex_append, all_hex_replicate, A.
    reflexivity. }
  assert (Hnum : hex_number (encodeUint256 v) = Some v).
  { unfold encodeUint256, pad_left, hex_number. rewrite hex_number_from_zeros. exact P. }
  assert (Hread : hexToUint64 (encodeUint256 v) = v).
  { destruct (hexToUint64_digits _ Hall) as (n & En & _ & Hn).
    rewrite Hnum in En. injection En as <-. rewrite Hn. apply Z.mod_small. exact Hv. }
  repeat split; try assumption.
  rewrite hexToUint64_prefixed; [exact Hread|]. apply all_hex_no_prefix. exact Hall.
Qed.

Lemma encodeUint256_roundtrip_witness :
  encodeUint256 1000000
    = "00000000000000000000000000000000000000000000000000000000000f4240"%string /\
  hexToUint64 (encodeUint256 1000000) = 1000000 /\
  hexToUint64 (String.append "0x" (encodeUint256 (2 ^ 64 - 1))) = 2 ^ 64 - 1.
Proof.
  assert (H1 : 0 <= 1000000 < 2 ^ 64) by (vm_compute; split; [discriminate|reflexivity]).
  assert (H2 : 0 <= 2 ^ 64 - 1 < 2 ^ 64) by (vm_compute; split; [discriminate|reflexivity]).
  split; [vm_compute; reflexivity|]. split.
  - exact (proj1 (proj2 (proj2 (proj2 (encodeUint256_roundtrip 1000000 H1))))).
  - exact (proj2 (proj2 (proj2 (proj2 (encodeUint256_roundtrip (2 ^ 64 - 1) H2))))).
Defined.

(** X16.  What [hexToUint64] returns, for every string.  After one
    optional [0x] in front: a string of hexadecimal digits of any length
    gives the number it spells reduced modulo 2^64 (only the last 16
    digits count, so a 256-bit word above 2^64 is silently truncated; the
    empty string gives 0); a string with any other character gives 0, as
    does a string that still starts with [0x].  The function never
    fails, and a malformed reply cannot be told from a zero one. *)
Theorem hexToUint64_value :
  (forall s, all_hex s = true ->
     exists n,
       hex_number s = Some n /\
       hexToUint64 s = n mod 2 ^ 64 /\
       hexToUint64 (String.append "0x" s) = n mod 2 ^ 64) /\
  (forall s, all_hex s = false ->
     hexToUint64 (String.append "0x" s) = 0 /\
     (String.eqb (substring 0 2 s) "0x" = false -> hexToUint64 s = 0)) /\
  (forall s, 0 <= hexToUint64 s < 2 ^ 64).
Proof.
  assert (Hbad : forall s, all_hex s = false ->
                           String.eqb (substring 0 2 s) "0x" = false -> hexToUint64 s = 0).
  { intros s H Hp. unfold hexToUint64. rewrite Hp, H. cbn [negb].
    rewrite Bool.orb_true_r. reflexivity. }
  split; [|split].
  - intros s H. destruct (hexToUint64_digits s H) as (n & En & _ & Hn).
    exists n. split; [exact En|]. split; [exact Hn|].
    rewrite hexToUint64_prefixed; [exact Hn|]. apply all_hex_no_prefix. exact H.
  - intros s H. split; [|apply Hbad; exact H].
    unfold hexToUint64. rewrite substring_0_2_prefixed. cbn [String.eqb Ascii.eqb Bool.eqb].
    replace (substr_from 2 (String.append "0x" s)) with s
      by (symmetry; exact (substr_from_append "0x" s)).
    rewrite H. cbn [negb]. rewrite Bool.orb_true_r. reflexivity.
  - intros s. unfold hexToUint64.
    set (c := if String.eqb (substring 0 2 s) "0x" then substr_from 2 s else s).
    destruct (is_empty c || String.eqb c "0" || negb (all_hex c)); [lia|].
    unfold stoull16.
    destruct (if (16 <? String.length c)%nat
              then substr_from (String.length c - 16) c else c) as [|a t]; [lia|].
    destruct (hex_number (String a t)) as [v|] eqn:Ev; [|lia].
    destruct (v <=? Double.uint64_max) eqn:Em; [|lia].
    apply Z.leb_le in Em. unfold Double.uint64_max in Em.
    assert (0 <= v); [|lia].
    destruct (all_hex (String a t)) eqn:A.
    + destruct (hex_number_from_spec _ A) as (n & Bn & Hn).
      unfold hex_number in Ev. rewrite Hn in Ev. injection Ev as <-. lia.
    + rewrite (hex_number_from_digits _ _ _ Ev) in A. discriminate.
Qed.

Lemma encodeUint256_digits v :
  0 <= v < 2 ^ 64 ->
  String.length (encodeUint256 v) = 64%nat /\ hexToUint64 (encodeUint256 v) = v.
Proof.
  intros Hv. destruct (to_hex_spec v Hv) as (L & A & P).
  split.
  - unfold encodeUint256, pad_left. rewrite length_append, length_replicate. lia.
  - assert (Hall : all_hex (encodeUint256 v) = true).
    { unfold encodeUint256, pad_left. rewrite all_hex_append, all_hex_replicate, A.
      reflexivity. }
    destruct (hexToUint64_digits _ Hall) as (n & En & _ & Hn).
    unfold encodeUint256, pad_left, hex_number in En.
    rewrite hex_number_from_zeros in En. unfold hex_number in P. rewrite P in En.
    injection En as <-. rewrite Hn. apply Z.mod_small. exact Hv.
Qed.

(** A 256-bit word whose value is 2^64 + 5 reads as 5. *)
Lemma hexToUint64_value_witness :
  hexToUint64 "0x0000000000000000000000000000000000000000000000010000000000000005" = 5 /\
  hexToUint64 "0xnot-a-number" = 0.
Proof.
  split.
  - assert (A : all_hex "0000000000000000000000000000000000000000000000010000000000000005"
                = true) by (vm_compute; reflexivity).
    destruct (proj1 hexToUint64_value _ A) as (n & En & _ & Hn).
    change (String.append "0x"
              "0000000000000000000000000000000000000000000000010000000000000005")
      with "0x0000000000000000000000000000000000000000000000010000000000000005"%string
      in Hn.
    rewrite Hn. vm_compute in En. injection En as <-. vm_compute. reflexivity.
  - assert (A : all_hex "not-a-number" = false) by (vm_compute; reflexivity).
    exact (proj1 (proj1 (proj2 hexToUint64_value) _ A)).
Defined.

(** ** The call data of a quote, and addresses *)

Lemma substring_word s1 w rest :
  String.length w = 64%nat ->
  substring (String.length s1) 64 (String.append s1 (String.append w rest)) = w.
Proof.
  intros H. rewrite substring_skip, substring_0_append_l by lia.
  apply substring_0_all. lia.
Qed.

(** X17.  The call data that [get_dy] sends is the 10 characters of the
    selector followed by three words of 64 digits, 202 characters in all,
    and each argument can be read back from its word: the two token
    indices (a negative index wrapped around to 2^64 + i) and the
    amount. *)
Theorem get_dy_call_data_decodes i j dx :
  - 2 ^ 31 <= i < 2 ^ 31 -> - 2 ^ 31 <= j < 2 ^ 31 -> 0 <= dx < 2 ^ 64 ->
  String.length (get_dy_call_data i j dx) = 202%nat /\
  substring 0 10 (get_dy_call_data i j dx) = "0x5e0d443f"%string /\
  hexToUint64 (substring 10 64 (get_dy_call_data i j dx)) = i mod 2 ^ 64 /\
  hexToUint64 (substring 74 64 (get_dy_call_data i j dx)) = j mod 2 ^ 64 /\
  hexToUint64 (substring 138 64 (get_dy_call_data i j dx)) = dx.
Proof.
  intros Hi Hj Hdx.
  assert (Ri : 0 <= uint64_of_int32 i < 2 ^ 64)
    by (unfold uint64_of_int32, two64; apply Z.mod_pos_bound; lia).
  assert (Rj : 0 <= uint64_of_int32 j < 2 ^ 64)
    by (unfold uint64_of_int32, two64; apply Z.mod_pos_bound; lia).
  destruct (encodeUint256_digits _ Ri) as (Li & Vi).
  destruct (encodeUint256_digits _ Rj) as (Lj & Vj).
  destruct (encodeUint256_digits _ Hdx) as (Lx & Vx).
  unfold get_dy_call_data.
  set (wi := encodeUint256 (uint64_of_int32 i)) in *.
  set (wj := encodeUint256 (uint64_of_int32 j)) in *.
  set (wx := encodeUint256 dx) in *.
  split; [rewrite !length_append, Li, Lj, Lx; reflexivity|].
  split; [apply (substring_0_append_l "0x5e0d443f"); cbn; lia|].
  split; [|split].
  - replace (substring 10 64 (String.append "0x5e0d443f"
                                (String.append wi (String.append wj wx)))) with wi
      by (symmetry; exact (substring_word "0x5e0d443f" wi (String.append wj wx) Li)).
    exact Vi.
  - rewrite <- (append_assoc "0x5e0d443f" wi (String.append wj wx)).
    replace 74%nat with (String.length (String.append "0x5e0d443f" wi))
      by (rewrite length_append, Li; reflexivity).
    rewrite <- (append_empty_r wx) at 1.
    rewrite (substring_word _ wj _ Lj). exact Vj.
  - rewrite <- (append_assoc "0x5e0d443f" wi (String.append wj wx)).
    rewrite <- (append_assoc (String.append "0x5e0d443f" wi) wj wx).
    replace 138%nat
      with (String.length (String.append (String.append "0x5e0d443f" wi) wj))
      by (rewrite !length_append, Li, Lj; reflexivity).
    rewrite <- (append_empty_r wx) at 1.
    rewrite (substring_word _ wx EmptyString Lx). exact Vx.
Qed.

(** A quote for 1,000,000 units from token 1 to token 0. *)
Lemma get_dy_call_data_decodes_witness :
  get_dy_call_data 1 0 1000000
    = String.append "0x5e0d443f"
        (String.append "0000000000000000000000000000000000000000000000000000000000000001"
           (String.append
              "0000000000000000000000000000000000000000000000000000000000000000"
              "00000000000000000000000000000000000000000000000000000000000f4240")) /\
  hexToUint64 (substring 10 64 (get_dy_call_data 1 0 1000000)) = 1 mod 2 ^ 64 /\
  hexToUint64 (substring 138 64 (get_dy_call_data 1 0 1000000)) = 1000000.
Proof.
  assert (Hi : - 2 ^ 31 <= 1 < 2 ^ 31) by (vm_compute; split; [discriminate|reflexivity]).
  assert (Hj : - 2 ^ 31 <= 0 < 2 ^ 31) by (vm_compute; split; [discriminate|reflexivity]).
  assert (Hx : 0 <= 1000000 < 2 ^ 64) by (vm_compute; split; [discriminate|reflexivity]).
  split; [vm_compute; reflexivity|].
  destruct (get_dy_call_data_decodes 1 0 1000000 Hi Hj Hx) as (_ & _ & A & _ & C).
  split; [exact A|exact C].
Defined.

(** X18.  An address that [isSepoliaAddress] accepts ([0x] and 40 more
    characters) is encoded by [encodeAddress] as one word of 64
    characters: 24 zeros, then the 40 characters after the [0x], as they
    are. *)
Theorem encodeAddress_word address :
  isSepoliaAddress address = true ->
  String.length (encodeAddress address) = 64%nat /\
  encodeAddress address = String.append (replicate 24 "0"%char) (substr_from 2 address) /\
  substring 0 24 (encodeAddress address) = replicate 24 "0"%char /\
  substr_from 24 (encodeAddress address) = substr_from 2 address /\
  address = String.append "0x" (substr_from 24 (encodeAddress address)).
Proof.
  unfold isSepoliaAddress. intros H. apply andb_prop in H as [Hl Hp].
  apply Nat.eqb_eq in Hl.
  assert (E : encodeAddress address
              = String.append (replicate 24 "0"%char) (substr_from 2 address)).
  { unfold encodeAddress. rewrite Hp. reflexivity. }
  destruct (substring_split address 2 ltac:(lia)) as [Es Lp].
  apply String.eqb_eq in Hp. rewrite Hp in Es.
  assert (Ls : String.length (substr_from 2 address) = 40%nat).
  { assert (String.length address
            = (String.length "0x" + String.length (substr_from 2 address))%nat)
      by (rewrite Es at 1; apply length_append).
    cbn [String.length] in *. lia. }
  assert (Ef : substr_from 24 (encodeAddress address) = substr_from 2 address).
  { rewrite E.
    exact (substr_from_append (replicate 24 "0"%char) (substr_from 2 address)). }
  split; [rewrite E, length_append, length_replicate, Ls; reflexivity|].
  split; [exact E|]. split; [|split; [exact Ef|rewrite Ef; exact Es]].
  rewrite E. rewrite (substring_0_append_l (replicate 24 "0"%char)) by
    (rewrite length_replicate; lia).
  apply substring_0_all. rewrite length_replicate. lia.
Qed.

(** The wallet address of the configuration. *)
Lemma encodeAddress_word_witness :
  encodeAddress "0x00Da5B17c4b3A17f787491868A6200A4bFe01DE8"
    = "00000000000000000000000000Da5B17c4b3A17f787491868A6200A4bFe01DE8"%string /\
  String.length (encodeAddress "0x00Da5B17c4b3A17f787491868A6200A4bFe01DE8") = 64%nat.
Proof.
  assert (H : isSepoliaAddress "0x00Da5B17c4b3A17f787491868A6200A4bFe01DE8" = true)
    by (vm_compute; reflexivity).
  split; [vm_compute; reflexivity|].
  exact (proj1 (encodeAddress_word _ H)).
Defined.

(** * The demo signer *)

Lemma length_hex_digits fuel :
  forall n acc, (String.length acc <= String.length (hex_digits fuel n acc))%nat.
Proof.
  induction fuel as [|fuel IH]; intros n acc; cbn [hex_digits]; [lia|].
  destruct (n / 16 =? 0); [cbn; lia|].
  specialize (IH (n / 16) (String (hex_digit (n mod 16)) acc)). cbn in IH. lia.
Qed.

Lemma hex_digits_nonempty fuel n acc :
  (String.length acc + 1 <= String.length (hex_digits (S fuel) n acc))%nat.
Proof.
  cbn [hex_digits]. destruct (n / 16 =? 0); [cbn; lia|].
  pose proof (length_hex_digits fuel (n / 16) (String (hex_digit (n mod 16)) acc)) as H.
  cbn [String.length] in H. lia.
Qed.

Lemma to_hex_nonempty n : (1 <= String.length (to_hex n))%nat.
Proof. exact (hex_digits_nonempty 15 n EmptyString). Qed.

Lemma hex_digits_byte fuel b :
  is_byte b ->
  hex_digits (S (S fuel)) b EmptyString
  = if b / 16 =? 0 then String (hex_digit (b mod 16)) EmptyString
    else String (hex_digit (b / 16 mod 16)) (String (hex_digit (b mod 16)) EmptyString).
Proof.
  intros Hb. unfold is_byte in Hb. cbn [hex_digits].
  destruct (b / 16 =? 0); [reflexivity|].
  replace (b / 16 / 16) with 0; [reflexivity|].
  symmetry. apply Z.div_small. split; [apply Z.div_pos; lia|].
  apply Z.div_lt_upper_bound; lia.
Qed.

Lemma byte_hex_spec b :
  is_byte b -> String.length (byte_hex b) = 2%nat /\ all_hex (byte_hex b) = true.
Proof.
  intros Hb. unfold byte_hex, pad_left, to_hex.
  rewrite (hex_digits_byte 14 b Hb). unfold is_byte in Hb.
  pose proof (Z.mod_pos_bound b 16 ltac:(lia)) as M1.
  pose proof (Z.mod_pos_bound (b / 16) 16 ltac:(lia)) as M2.
  destruct (b / 16 =? 0) eqn:E1;
    cbn [String.length Nat.sub replicate String.append all_hex];
    rewrite !hex_value_digit by lia; cbn [hex_value]; split; reflexivity.
Qed.

Lemma concat_hex_spec bytes :
  Forall is_byte bytes ->
  String.length (concat_hex bytes) = (2 * List.length bytes)%nat /\
  all_hex (concat_hex bytes) = true.
Proof.
  induction 1 as [|b bytes Hb _ [IL IA]]; cbn [concat_hex List.length]; [split; reflexivity|].
  destruct (byte_hex_spec b Hb) as [L A].
  rewrite length_append, all_hex_append, L, A, IL, IA. split; [lia|reflexivity].
Qed.

Lemma concat_hex_app l1 l2 :
  concat_hex (l1 ++ l2) = String.append (concat_hex l1) (concat_hex l2).
Proof.
  induction l1 as [|b l1 IH]; cbn [concat_hex app]; [reflexivity|].
  rewrite IH, append_assoc. reflexivity.
Qed.

Lemma simpleHash_from_spec n :
  forall i data,
    List.length (simpleHash_from i n data) = n /\
    Forall is_byte (simpleHash_from i n data).
Proof.
  induction n as [|n IH]; intros i data; cbn [simpleHash_from]; [split; constructor|].
  destruct data as [|c rest].
  - destruct (IH (i + 1) EmptyString) as [L F].
    split; [cbn; rewrite L; reflexivity|constructor; [unfold is_byte; lia|exact F]].
  - destruct (IH (i + 1) rest) as [L F].
    split; [cbn; rewrite L; reflexivity|].
    constructor; [unfold is_byte; apply Z.mod_pos_bound; lia|exact F].
Qed.

(** The demo hash looks at no character beyond the first [n]. *)
Lemma simpleHash_from_prefix n :
  forall i data, simpleHash_from i n data = simpleHash_from i n (substring 0 n data).
Proof.
  induction n as [|n IH]; intros i data; cbn [simpleHash_from]; [reflexivity|].
  destruct data as [|c rest]; cbn [substring]; [reflexivity|].
  rewrite (IH (i + 1) rest). reflexivity.
Qed.

Lemma simpleHash_from_firstn n k :
  forall i data,
    (k <= n)%nat -> firstn k (simpleHash_from i n data) = simpleHash_from i k data.
Proof.
  revert k. induction n as [|n IH]; intros k i data Hk.
  - replace k with O by lia. reflexivity.
  - destruct k as [|k]; [reflexivity|]. cbn [simpleHash_from].
    destruct data as [|c rest]; cbn [firstn]; rewrite IH by lia; reflexivity.
Qed.

Lemma signature_of_spec hash :
  List.length (signature_of hash) = (2 * List.length hash + 1)%nat /\
  Forall is_byte (signature_of hash).
Proof.
  unfold signature_of. split.
  - rewrite !length_app, !length_map. cbn. lia.
  - apply Forall_app. split; [|apply Forall_app; split].
    + apply Forall_forall. intros b Hb. apply in_map_iff in Hb as (h & <- & _).
      unfold is_byte. apply Z.mod_pos_bound. lia.
    + apply Forall_forall. intros b Hb. apply in_map_iff in Hb as (h & <- & _).
      unfold is_byte. apply Z.mod_pos_bound. lia.
    + constructor; [unfold is_byte; lia|constructor].
Qed.

(** X19.  What [signTransaction] returns, for every transaction: [0x],
    then the 130 hexadecimal digits of a 65-byte signature, then the
    encoding of the transaction in clear; so the result is 132 characters
    longer than the encoding (always more than 100 characters), and the
    encoding, which names the recipient and carries the call data, can be
    read off its end. *)
Theorem signTransaction_shape signer tx :
  exists signature_hex,
    signTransaction signer tx
      = String.append "0x" (String.append signature_hex (encodeTransaction tx)) /\
    String.length signature_hex = 130%nat /\
    all_hex signature_hex = true /\
    String.length (signTransaction signer tx)
      = (132 + String.length (encodeTransaction tx))%nat /\
    (100 < String.length (signTransaction signer tx))%nat /\
    substr_from 132 (signTransaction signer tx) = encodeTransaction tx.
Proof.
  unfold signTransaction, bytesToHex.
  set (enc := encodeTransaction tx).
  destruct (simpleHash_from_spec 32 0 enc) as [Lh Fh]. fold (simpleHash enc) in Lh, Fh.
  destruct (signature_of_spec (simpleHash enc)) as [Ls Fs]. rewrite Lh in Ls.
  destruct (concat_hex_spec _ Fs) as [Lc Ac]. rewrite Ls in Lc.
  set (sig := concat_hex (signature_of (simpleHash enc))) in *.
  exists sig. rewrite append_assoc.
  split; [reflexivity|]. split; [exact Lc|]. split; [exact Ac|].
  assert (Ltot : String.length (String.append "0x" (String.append sig enc))
                 = (132 + String.length enc)%nat).
  { rewrite !length_append, Lc. reflexivity. }
  split; [exact Ltot|]. split; [lia|].
  rewrite <- append_assoc.
  replace 132%nat with (String.length (String.append "0x" sig))
    by (rewrite length_append, Lc; reflexivity).
  apply substr_from_append.
Qed.

(** X20.  The signature looks neither at the private key nor at anything
    past the first 32 characters of the encoding: two signers, with
    whatever keys, put the same 65 bytes in front of any two transactions
    whose encodings start with the same 32 characters. *)
Theorem signature_ignores_key_and_tail signer1 signer2 tx1 tx2 :
  substring 0 32 (encodeTransaction tx1) = substring 0 32 (encodeTransaction tx2) ->
  substring 0 132 (signTransaction signer1 tx1)
  = substring 0 132 (signTransaction signer2 tx2).
Proof.
  intros H.
  assert (Hh : simpleHash (encodeTransaction tx1) = simpleHash (encodeTransaction tx2)).
  { unfold simpleHash.
    rewrite (simpleHash_from_prefix 32 0 (encodeTransaction tx1)),
            (simpleHash_from_prefix 32 0 (encodeTransaction tx2)), H.
    reflexivity. }
  assert (L : forall tx,
             String.length (bytesToHex (signature_of (simpleHash (encodeTransaction tx))))
             = 132%nat).
  { intros tx. unfold bytesToHex.
    destruct (simpleHash_from_spec 32 0 (encodeTransaction tx)) as [Lh _].
    fold (simpleHash (encodeTransaction tx)) in Lh.
    destruct (signature_of_spec (simpleHash (encodeTransaction tx))) as [Ls Fs].
    destruct (concat_hex_spec _ Fs) as [Lc _].
    rewrite length_append, Lc, Ls, Lh. reflexivity. }
  unfold signTransaction.
  rewrite !substring_0_append_l by (rewrite L; lia).
  rewrite Hh. reflexivity.
Qed.

(** Two swaps of different amounts through the same pool, signed with
    different keys, carry the same signature. *)
Lemma signature_ignores_key_and_tail_witness :
  createSwapTransaction {| signer_private_key := "key one" |}
                        "0xbEbc44782C7dB0a1A60Cb6fe97d0b483032FF1C7"
                        (get_dy_call_data 1 0 1000000) "0xUser"
    <> createSwapTransaction {| signer_private_key := "key two" |}
                             "0xbEbc44782C7dB0a1A60Cb6fe97d0b483032FF1C7"
                             (get_dy_call_data 1 0 2000000) "0xUser" /\
  substring 0 132
    (createSwapTransaction {| signer_private_key := "key one" |}
                           "0xbEbc44782C7dB0a1A60Cb6fe97d0b483032FF1C7"
                           (get_dy_call_data 1 0 1000000) "0xUser")
  = substring 0 132
      (createSwapTransaction {| signer_private_key := "key two" |}
                             "0xbEbc44782C7dB0a1A60Cb6fe97d0b483032FF1C7"
                             (get_dy_call_data 1 0 2000000) "0xUser").
Proof.
  split; [vm_compute; discriminate|].
  unfold createSwapTransaction.
  apply signature_ignores_key_and_tail. vm_compute. reflexivity.
Defined.

(** ** The hash that stands for a broadcast *)

Lemma substring_0_append s1 s2 n :
  substring 0 n (String.append s1 s2)
  = String.append (substring 0 n s1) (substring 0 (n - String.length s1) s2).
Proof.
  revert n. induction s1 as [|c s1 IH]; intros n; cbn [String.append String.length].
  - rewrite Nat.sub_0_r. destruct n; reflexivity.
  - destruct n as [|n]; cbn [substring Nat.sub String.append].
    + rewrite substring_0_0. reflexivity.
    + rewrite IH. reflexivity.
Qed.

Lemma length_substring_0 s n :
  (n <= String.length s)%nat -> String.length (substring 0 n s) = n.
Proof. intros H. exact (proj2 (substring_split s n H)). Qed.

Lemma all_hex_substring_0 s n : all_hex s = true -> all_hex (substring 0 n s) = true.
Proof.
  revert n. induction s as [|c s IH]; intros n H.
  - destruct n; reflexivity.
  - destruct n as [|n]; [reflexivity|]. cbn in *.
    destruct (hex_value c); [apply IH; exact H|discriminate].
Qed.

Lemma concat_hex_firstn bytes :
  Forall is_byte bytes ->
  forall k, (k <= List.length bytes)%nat ->
            substring 0 (2 * k) (concat_hex bytes) = concat_hex (firstn k bytes).
Proof.
  induction 1 as [|b bytes Hb F IH]; intros k Hk; cbn [List.length] in Hk.
  - replace k with O by lia. reflexivity.
  - destruct k as [|k]; [cbn [firstn concat_hex]; apply substring_0_0|].
    cbn [firstn concat_hex].
    destruct (byte_hex_spec b Hb) as [L _].
    rewrite substring_0_append, L.
    rewrite (substring_0_all (byte_hex b)) by lia.
    replace (2 * S k - 2)%nat with (2 * k)%nat by lia.
    rewrite IH by lia. reflexivity.
Qed.

(** The first 31 bytes of the signature come from the first 31
    characters of the encoding. *)
Lemma signature_head data :
  firstn 31 (signature_of (simpleHash data))
  = map (fun h => Z.lxor h 170 mod 256) (simpleHash_from 0 31 (substring 0 31 data)).
Proof.
  unfold signature_of.
  destruct (simpleHash_from_spec 32 0 data) as [L _]. fold (simpleHash data) in L.
  rewrite firstn_app, length_map, L.
  change (31 - 32)%nat with 0%nat. rewrite firstn_O, app_nil_r.
  rewrite firstn_map. unfold simpleHash.
  rewrite simpleHash_from_firstn by lia.
  rewrite <- simpleHash_from_prefix. reflexivity.
Qed.

Lemma broadcast_of_signed signer signer' tx :
  broadcastTransaction signer (signTransaction signer' tx)
  = String.append "0x0x"
      (concat_hex (map (fun h => Z.lxor h 170 mod 256)
                       (simpleHash_from 0 31 (substring 0 31 (encodeTransaction tx))))).
Proof.
  unfold broadcastTransaction, signTransaction, bytesToHex.
  set (enc := encodeTransaction tx).
  destruct (simpleHash_from_spec 32 0 enc) as [Lh _]. fold (simpleHash enc) in Lh.
  destruct (signature_of_spec (simpleHash enc)) as [Ls Fs]. rewrite Lh in Ls.
  destruct (concat_hex_spec _ Fs) as [Lc _]. rewrite Ls in Lc.
  rewrite append_assoc.
  change 64%nat with (String.length "0x" + 62)%nat.
  rewrite substring_0_append_r.
  rewrite substring_0_append_l by (rewrite Lc; lia).
  change 62%nat with (2 * 31)%nat.
  rewrite (concat_hex_firstn _ Fs 31) by lia.
  rewrite signature_head. reflexivity.
Qed.

(** X21.  The transaction hash that the signer hands back without
    sending anything, for every signed transaction: 66 characters, [0x]
    twice and then 62 hexadecimal digits, computed from the first 31
    characters of the encoding alone.  So the hash does not depend on the
    value, the call data or the chain of the transaction, nor on the key:
    two transactions to the same recipient (an address of 25 characters
    or more) with the same nonce, gas price and gas limit get the same
    hash, whatever they ask the recipient to do. *)
Theorem transaction_hash_ignores_call_data signer1 signer2 tx1 tx2 :
  nonce tx1 = nonce tx2 ->
  gas_price tx1 = gas_price tx2 ->
  gas_limit tx1 = gas_limit tx2 ->
  to_address tx1 = to_address tx2 ->
  (25 <= String.length (to_address tx1))%nat ->
  broadcastTransaction signer1 (signTransaction signer1 tx1)
  = broadcastTransaction signer2 (signTransaction signer2 tx2) /\
  exists digits,
    broadcastTransaction signer1 (signTransaction signer1 tx1)
      = String.append "0x0x" digits /\
    String.length digits = 62%nat /\ all_hex digits = true.
Proof.
  intros Hn Hp Hl Ht Hlen. rewrite !broadcast_of_signed.
  assert (E : substring 0 31 (encodeTransaction tx1)
              = substring 0 31 (encodeTransaction tx2)).
  { unfold encodeTransaction. rewrite <- Hn, <- Hp, <- Hl, <- Ht.
    pose proof (to_hex_nonempty (nonce tx1)).
    pose proof (to_hex_nonempty (gas_price tx1)).
    pose proof (to_hex_nonempty (gas_limit tx1)).
    rewrite !substring_0_append. cbn [String.length].
    replace (31 - String.length (to_hex (nonce tx1)) - 1
             - String.length (to_hex (gas_price tx1)) - 1
             - String.length (to_hex (gas_limit tx1)) - 1
             - String.length (to_address tx1))%nat with 0%nat by lia.
    cbn [Nat.sub]. rewrite !substring_0_0. reflexivity. }
  rewrite E. split; [reflexivity|].
  eexists. split; [reflexivity|].
  assert (F : Forall is_byte
                (map (fun h => Z.lxor h 170 mod 256)
                     (simpleHash_from 0 31 (substring 0 31 (encodeTransaction tx2))))).
  { apply Forall_forall. intros b Hb. apply in_map_iff in Hb as (h & <- & _).
    unfold is_byte. apply Z.mod_pos_bound. lia. }
  destruct (concat_hex_spec _ F) as [L A]. split; [|exact A].
  rewrite L, length_map.
  destruct (simpleHash_from_spec 31 0 (substring 0 31 (encodeTransaction tx2))) as [L31 _].
  rewrite L31. reflexivity.
Qed.

(** Two swaps of different amounts through the same pool get the same
    hash. *)
Lemma transaction_hash_ignores_call_data_witness :
  broadcastTransaction {| signer_private_key := "key one" |}
    (createSwapTransaction {| signer_private_key := "key one" |}
       "0xbEbc44782C7dB0a1A60Cb6fe97d0b483032FF1C7" (get_dy_call_data 1 0 1000000) "0xUser")
  = broadcastTransaction {| signer_private_key := "key two" |}
      (createSwapTransaction {| signer_private_key := "key two" |}
         "0xbEbc44782C7dB0a1A60Cb6fe97d0b483032FF1C7" (get_dy_call_data 1 0 2000000)
         "0xUser").
Proof.
  unfold createSwapTransaction.
  apply transaction_hash_ignores_call_data; try reflexivity.
  vm_compute. repeat constructor.
Defined.

(** * The order value object, once more *)

(** ** The two ends of the fill percentage *)

(** A normal double divided by itself is exactly 1. *)
Lemma div_self m e :
  Z.pos (digits2_pos m) = 53 -> -52 <= e <= 12 ->
  Double.div (S754_finite false m e) (S754_finite false m e) = Double.one.
Proof.
  intros Hd He.
  unfold Double.div, SFdiv, SFdiv_core_binary. cbn [Zdigits2 xorb]. rewrite Hd.
  replace (53 + e - (53 + e)) with 0 by lia. rewrite Z.sub_diag.
  change (Z.min (fexp Double.prec Double.emax 0) 0) with (-53).
  change (0 - -53) with 53. cbn [Z.leb Z.compare].
  rewrite Z.shiftl_mul_pow2 by lia.
  assert (Hq : Z.div_eucl (Z.pos m * 2 ^ 53) (Z.pos m) = (2 ^ 53, 0)).
  { pose proof (Z.div_eucl_eq (Z.pos m * 2 ^ 53) (Z.pos m) ltac:(lia)) as E.
    pose proof (Z.mod_pos_bound (Z.pos m * 2 ^ 53) (Z.pos m) ltac:(lia)) as B.
    pose proof (Z_div_mult_full (2 ^ 53) (Z.pos m) ltac:(lia)) as D.
    rewrite Z.mul_comm in D.
    pose proof (Z.mod_mul (2 ^ 53) (Z.pos m) ltac:(lia)) as R. rewrite Z.mul_comm in R.
    unfold Z.div, Z.modulo in *.
    destruct (Z.div_eucl (Z.pos m * 2 ^ 53) (Z.pos m)) as [q r]. congruence. }
  rewrite Hq.
  replace (new_location (Z.pos m) 0) with loc_Exact
    by (unfold new_location; destruct (Z.even (Z.pos m)); reflexivity).
  change (2 ^ 53) with (Z.pos 4503599627370496 * 2 ^ 1).
  rewrite (binary_round_aux_exact false 4503599627370496 (-53) 1);
    [reflexivity|lia|reflexivity|unfold Double.emax, Double.prec; lia].
Qed.

(** X22.  The fill percentage is exact at both ends, for every nonzero
    64-bit input amount, also those that a double cannot hold exactly:
    it is [+0.0] when nothing is filled and exactly [100.0] when the
    filled amount is the input amount. *)
Theorem getFillPercentage_ends o :
  0 < input_amount o < 2 ^ 64 ->
  (filled_amount o = 0 -> getFillPercentage o = Double.zero) /\
  (filled_amount o = input_amount o -> getFillPercentage o = Double.hundred).
Proof.
  intros Hi. unfold getFillPercentage.
  replace (input_amount o =? 0) with false by (symmetry; apply Z.eqb_neq; lia).
  destruct (input_amount o) as [|p|p] eqn:Ei; try lia.
  destruct (of_uint64_normal p ltac:(lia)) as (m & e & E & Hd & He).
  split; intros Hf; rewrite Hf.
  - rewrite E. reflexivity.
  - rewrite E, (div_self m e Hd He). vm_compute. reflexivity.
Qed.

(** An order for 2^53 + 1 units, completely filled. *)
Lemma getFillPercentage_ends_witness :
  getFillPercentage
    (set_filled_amount 9007199254740993 (sample_order IOC 9007199254740993 Double.one))
  = Double.hundred /\
  getFillPercentage (sample_order IOC 9007199254740993 Double.one) = Double.zero.
Proof.
  assert (H1 : 0 < input_amount
                     (set_filled_amount 9007199254740993
                        (sample_order IOC 9007199254740993 Double.one)) < 2 ^ 64)
    by (vm_compute; split; reflexivity).
  assert (H2 : 0 < input_amount (sample_order IOC 9007199254740993 Double.one) < 2 ^ 64)
    by (vm_compute; split; reflexivity).
  split.
  - apply (proj2 (getFillPercentage_ends _ H1)). vm_compute. reflexivity.
  - apply (proj1 (getFillPercentage_ends _ H2)). vm_compute. reflexivity.
Defined.

(** ** Expiry *)

(** X23.  Only good-till-time orders expire.  An order made by
    [createGTT] carries the expiry it was given, and [isExpired] on it
    reads the clock once and answers whether that reading has reached the
    expiry (the expiry itself included).  An order made by one of the
    other three factories never expires: [isExpired] answers false
    without reading the clock, and [setExpiryTime] does not change the
    order, whatever time it is given. *)
Theorem expiry_only_for_gtt :
  (forall t id input_token output_token input_amount limit_price slippage expiry
          user_address private_key o,
      OrderFactory.createGTT t id input_token output_token input_amount limit_price
                             slippage expiry user_address private_key = Some o ->
      expiry_time o = expiry /\
      forall env w,
        isExpired env o w = Done (expiry <=? now env (tick w)) o (advance w)) /\
  (forall t id input_token output_token input_amount limit_price slippage
          user_address private_key o,
      OrderFactory.createGTC t id input_token output_token input_amount limit_price
                             slippage user_address private_key = Some o \/
      OrderFactory.createIOC t id input_token output_token input_amount limit_price
                             slippage user_address private_key = Some o \/
      OrderFactory.createFOK t id input_token output_token input_amount limit_price
                             slippage user_address private_key = Some o ->
      forall expiry env w,
        setExpiryTime expiry o = o /\
        isExpired env o w = Done false o w).
Proof.
  split.
  - intros t id it ot ia lp sl expiry ua pk o H.
    unfold OrderFactory.createGTT, new_LimitOrder in H.
    destruct (Double.to_uint64 _) as [min_out|]; [|discriminate].
    cbn [option_map] in H. injection H as <-.
    split; [reflexivity|]. intros env w. reflexivity.
  - intros t id it ot ia lp sl ua pk o H expiry env w.
    unfold OrderFactory.createGTC, OrderFactory.createIOC, OrderFactory.createFOK,
      new_LimitOrder in H.
    destruct (Double.to_uint64 _) as [min_out|];
      [|destruct H as [H|[H|H]]; discriminate].
    destruct H as [H|[H|H]]; injection H as <-; split; reflexivity.
Qed.

(** An order with expiry 5 under a clock that reads 0, then one with a
    clock that has reached 5. *)
Lemma expiry_only_for_gtt_witness :
  (exists o,
      OrderFactory.createGTT 0 "ORDER" "0xTokenA" "0xTokenB" 1000 Double.one
                             (Double.literal 1 100) 5 "0xUser" "key" = Some o /\
      isExpired (steady_pool 1000) o start = Done false o (advance start) /\
      isExpired (ticking_pool 1000) o {| tick := 5; log := [] |}
        = Done true o (advance {| tick := 5; log := [] |})) /\
  (exists o,
      OrderFactory.createGTC 0 "ORDER" "0xTokenA" "0xTokenB" 1000 Double.one
                             (Double.literal 1 100) "0xUser" "key" = Some o /\
      setExpiryTime (-1) o = o /\
      isExpired (steady_pool 1000) o start = Done false o start).
Proof.
  split.
  - destruct (OrderFactory.createGTT 0 "ORDER" "0xTokenA" "0xTokenB" 1000 Double.one
                (Double.literal 1 100) 5 "0xUser" "key") as [o|] eqn:E;
      [|vm_compute in E; discriminate].
    exists o. split; [reflexivity|].
    destruct (proj1 expiry_only_for_gtt _ _ _ _ _ _ _ _ _ _ _ E) as [_ H].
    split; [exact (H (steady_pool 1000) start)|].
    exact (H (ticking_pool 1000) {| tick := 5; log := [] |}).
  - destruct (OrderFactory.createGTC 0 "ORDER" "0xTokenA" "0xTokenB" 1000 Double.one
                (Double.literal 1 100) "0xUser" "key") as [o|] eqn:E;
      [|vm_compute in E; discriminate].
    exists o. split; [reflexivity|].
    exact (proj2 expiry_only_for_gtt _ _ _ _ _ _ _ _ _ _ (or_introl E)
             (-1) (steady_pool 1000) start).
Defined.

(** ** The order that [main] creates *)




(** * Accuracy of the arithmetic on amounts

    Every amount is converted to double, multiplied or divided there and
    truncated back.  Each of these steps rounds; the lemmas below bound
    what the roundings can add up to. *)

Module DoubleBounds.
Import Double DoubleFacts.

Lemma two_neq_0 : ~ (2 == 0)%Q.
Proof. discriminate. Qed.

Lemma pow2_Q k : 0 <= k -> (inject_Z (2 ^ k) == 2 ^ k)%Q.
Proof. intros Hk. rewrite Zpower_Qpower by assumption. reflexivity. Qed.

Lemma pow2_add a b : (2 ^ (a + b) == 2 ^ a * 2 ^ b)%Q.
Proof. apply Qpower_plus. exact two_neq_0. Qed.

Lemma pow2_Qpos a : (0 < 2 ^ a)%Q.
Proof. apply Qpower_0_lt. reflexivity. Qed.

(** The value of a finite double is its mantissa times a power of 2. *)
Lemma value_pow2 s m e :
  (value (S754_finite s m e) == inject_Z (signed s m) * 2 ^ e)%Q.
Proof.
  rewrite value_finite. destruct (0 <=? e) eqn:E.
  - apply Z.leb_le in E. rewrite inject_Z_mult, pow2_Q by assumption. reflexivity.
  - apply Z.leb_gt in E.
    assert (H : (2 ^ e == / inject_Z (2 ^ (- e)))%Q).
    { rewrite pow2_Q by lia. rewrite <- Qpower_opp, Z.opp_involutive. reflexivity. }
    rewrite H, Qmake_Qdiv. unfold Qdiv.
    rewrite Z2Pos.id by (apply pow2_pos; lia). reflexivity.
Qed.

(** From a bound over the integers to a bound over the rationals. *)
Lemma relative_bounds A B (G : Q) :
  (2 ^ 52 - 1) * B <= 2 ^ 52 * A <= (2 ^ 52 + 1) * B -> (0 <= G)%Q ->
  (inject_Z B * G * (1 - one_ulp) <= inject_Z A * G <= inject_Z B * G * (1 + one_ulp))%Q.
Proof.
  intros [L U] HG.
  rewrite Zle_Qle in L, U. rewrite !inject_Z_mult in L, U.
  change (inject_Z (2 ^ 52 - 1)) with (4503599627370495 # 1)%Q in L.
  change (inject_Z (2 ^ 52 + 1)) with (4503599627370497 # 1)%Q in U.
  change (inject_Z (2 ^ 52)) with (4503599627370496 # 1)%Q in L, U.
  unfold one_ulp.
  split; nra.
Qed.

(** *** Rounding an integer scaled by a power of 2

    [binary_normalize] rounds [p * 2^ex] to 53 bits.  In the normal
    range the result is within one unit in the last place. *)
Lemma normalize_bounds p ex :
  emin prec emax <= ex + Z.pos (digits2_pos p) - 53 ->
  ex + Z.pos (digits2_pos p) - 52 <= emax - prec ->
  exists m e,
    binary_normalize prec emax (Z.pos p) ex false = S754_finite false m e /\
    Z.pos (digits2_pos m) = 53 /\
    ex + Z.pos (digits2_pos p) - 53 <= e <= ex + Z.pos (digits2_pos p) - 52 /\
    (inject_Z (Z.pos p) * 2 ^ ex * (1 - one_ulp) <= inject_Z (Z.pos m) * 2 ^ e
       <= inject_Z (Z.pos p) * 2 ^ ex * (1 + one_ulp))%Q.
Proof.
  set (d := Z.pos (digits2_pos p)). intros Hlo Hhi.
  assert (Hf : fexp prec emax (d + ex) = d + ex - 53)
    by (unfold fexp, emin, prec, emax in *; lia).
  pose proof (pow2_Qpos ex) as Hex.
  unfold binary_normalize, binary_round, shl_align. fold d. rewrite Hf.
  replace (d + ex - 53 - ex) with (d - 53) by lia.
  destruct (d - 53) as [|k|k] eqn:Ek.
  - (* 53 bits: nothing to round *)
    exists p, ex.
    rewrite binary_round_aux_canonical.
    + split; [reflexivity|]. split; [fold d; lia|]. split; [lia|].
      apply relative_bounds; [lia|]. apply Qlt_le_weak. exact Hex.
    + unfold canonical_mantissa. apply Z.eqb_eq. fold d. rewrite Hf. lia.
    + lia.
  - (* more than 53 bits: the low [k] bits are rounded away *)
    destruct (binary_round_aux_normal false p ex loc_Exact)
      as (m & e & c & E & Hd & Hc & He & Hb); fold d; try lia.
    fold d in He, Hb. rewrite Ek in He, Hb.
    exists m, e. split; [exact E|]. split; [exact Hd|]. split; [lia|].
    pose proof (digits2_pos_bounds p) as [Lp _]. fold d in Lp.
    replace (d - 1) with (52 + Z.pos k) in Lp by lia.
    rewrite Z.pow_add_r in Lp by lia.
    assert (Hpk : 0 < 2 ^ Z.pos k) by (apply pow2_pos; lia).
    pose proof (Z.div_mod (Z.pos p) (2 ^ Z.pos k) ltac:(lia)) as Hq.
    pose proof (Z.mod_pos_bound (Z.pos p) (2 ^ Z.pos k) Hpk) as Hr.
    assert (HA : (inject_Z (Z.pos m) * 2 ^ e
                  == inject_Z (Z.pos m * 2 ^ c * 2 ^ Z.pos k) * 2 ^ ex)%Q).
    { rewrite He, !inject_Z_mult, !pow2_add, !pow2_Q by lia. ring. }
    rewrite HA.
    apply relative_bounds; [|apply Qlt_le_weak; exact Hex].
    remember (2 ^ Z.pos k) as K. remember (Z.pos m * 2 ^ c) as T.
    remember (Z.pos p / K) as F. remember (Z.pos p mod K) as R.
    change (2 ^ 52) with 4503599627370496 in *.
    split; nia.
  - (* fewer than 53 bits: the mantissa is shifted left, exactly *)
    exists (Pos.iter xO p k), (d + ex - 53).
    pose proof (iter_xO_digits k p) as Hdig. fold d in Hdig.
    rewrite binary_round_aux_canonical.
    + split; [reflexivity|]. split; [lia|]. split; [lia|].
      assert (HA : (inject_Z (Z.pos (Pos.iter xO p k)) * 2 ^ (d + ex - 53)
                    == inject_Z (Z.pos p) * 2 ^ ex)%Q).
      { rewrite iter_xO_value, inject_Z_mult, pow2_Q by lia.
        replace (d + ex - 53) with (Z.neg k + ex) by lia.
        rewrite pow2_add.
        replace (Z.neg k) with (- Z.pos k) by reflexivity.
        rewrite Qpower_opp. field. apply Qpower_not_0. exact two_neq_0. }
      rewrite HA.
      apply relative_bounds; [lia|]. apply Qlt_le_weak. exact Hex.
    + unfold canonical_mantissa. apply Z.eqb_eq.
      unfold fexp, emin, prec, emax in *. lia.
    + lia.
Qed.

(** *** Conversion, product and quotient *)

Lemma of_uint64_bounds n :
  0 < n < 2 ^ 64 ->
  exists m e,
    of_uint64 n = S754_finite false m e /\
    Z.pos (digits2_pos m) = 53 /\ -52 <= e <= 12 /\
    (inject_Z n * (1 - one_ulp) <= value (of_uint64 n) <= inject_Z n * (1 + one_ulp))%Q.
Proof.
  intros [Hn Hlt]. destruct n as [|p|p]; try lia.
  pose proof (digits2_pos_le p 64 Hlt ltac:(lia)) as Hd64.
  destruct (normalize_bounds p 0) as (m & e & E & Hd & He & Hb);
    try (unfold emin, prec, emax; lia).
  exists m, e. unfold of_uint64. rewrite E.
  split; [reflexivity|]. split; [exact Hd|]. split; [lia|].
  rewrite value_pow2. cbn [signed].
  rewrite Qpower_0_r, !Qmult_1_r in Hb. exact Hb.
Qed.

Lemma mul_bounds m1 e1 m2 e2 :
  Z.pos (digits2_pos m1) = 53 -> Z.pos (digits2_pos m2) = 53 ->
  emin prec emax <= e1 + e2 + 52 -> e1 + e2 + 54 <= emax - prec ->
  exists m e,
    mul (S754_finite false m1 e1) (S754_finite false m2 e2) = S754_finite false m e /\
    Z.pos (digits2_pos m) = 53 /\ e1 + e2 + 52 <= e <= e1 + e2 + 54 /\
    (value (S754_finite false m1 e1) * value (S754_finite false m2 e2) * (1 - one_ulp)
     <= value (S754_finite false m e)
     <= value (S754_finite false m1 e1) * value (S754_finite false m2 e2) * (1 + one_ulp))%Q.
Proof.
  intros Hd1 Hd2 Hmin Hmax.
  pose proof (digits2_pos_bounds m1) as [L1 U1]. rewrite Hd1 in L1, U1.
  pose proof (digits2_pos_bounds m2) as [L2 U2]. rewrite Hd2 in L2, U2.
  change (2 ^ (53 - 1)) with (2 ^ 52) in L1, L2.
  assert (Hd : 105 <= Z.pos (digits2_pos (m1 * m2)) <= 106).
  { split.
    - apply digits2_pos_ge. rewrite Pos2Z.inj_mul.
      change (2 ^ (105 - 1)) with (2 ^ 52 * 2 ^ 52).
      apply Z.mul_le_mono_nonneg; lia.
    - apply digits2_pos_le; [|lia]. rewrite Pos2Z.inj_mul.
      change (2 ^ 106) with (2 ^ 53 * 2 ^ 53).
      apply Z.mul_lt_mono_nonneg; lia. }
  (* the product of the mantissas is rounded as an integer is *)
  assert (Hn : mul (S754_finite false m1 e1) (S754_finite false m2 e2)
               = binary_normalize prec emax (Z.pos (m1 * m2)) (e1 + e2) false).
  { unfold mul, SFmul, binary_normalize, binary_round, shl_align. cbn [xorb].
    assert (Hf : fexp prec emax (Z.pos (digits2_pos (m1 * m2)) + (e1 + e2))
                 = Z.pos (digits2_pos (m1 * m2)) + (e1 + e2) - 53)
      by (unfold fexp, emin, prec, emax in *; lia).
    rewrite Hf.
    destruct (Z.pos (digits2_pos (m1 * m2)) + (e1 + e2) - 53 - (e1 + e2)) eqn:Ek;
      try lia; reflexivity. }
  destruct (normalize_bounds (m1 * m2) (e1 + e2)) as (m & e & E & Hdm & He & Hb);
    try (unfold emin, prec, emax in *; lia).
  exists m, e. rewrite Hn. split; [exact E|]. split; [exact Hdm|]. split; [lia|].
  rewrite !value_pow2. cbn [signed].
  rewrite Pos2Z.inj_mul, inject_Z_mult, pow2_add in Hb.
  destruct Hb as [Hlo Hhi]. split.
  - eapply Qle_trans; [|exact Hlo]. apply Qle_lteq. right. ring.
  - eapply Qle_trans; [exact Hhi|]. apply Qle_lteq. right. ring.
Qed.

Lemma div_bounds m1 e1 m2 e2 :
  Z.pos (digits2_pos m1) = 53 -> Z.pos (digits2_pos m2) = 53 ->
  emin prec emax <= e1 - e2 - 53 -> e1 - e2 - 51 <= emax - prec ->
  exists m e,
    div (S754_finite false m1 e1) (S754_finite false m2 e2) = S754_finite false m e /\
    Z.pos (digits2_pos m) = 53 /\ e1 - e2 - 53 <= e <= e1 - e2 - 51 /\
    (value (S754_finite false m1 e1) * (1 - one_ulp)
     <= value (S754_finite false m e) * value (S754_finite false m2 e2)
     <= value (S754_finite false m1 e1) * (1 + one_ulp))%Q.
Proof.
  intros Hd1 Hd2 Hmin Hmax.
  destruct (div_core false m1 e1 false m2 e2 Hd1 Hd2 Hmin Hmax)
    as (m & e & k & c & t & E & Hd & Hk & Hc & He & Bt & Bm & Bq).
  exists m, e. split; [exact E|]. split; [exact Hd|]. split; [lia|].
  rewrite !value_pow2. cbn [signed].
  assert (HA : (inject_Z (Z.pos m) * 2 ^ e * (inject_Z (Z.pos m2) * 2 ^ e2)
                == inject_Z (Z.pos m * 2 ^ c * (2 ^ k * Z.pos m2)) * 2 ^ (e1 - 53))%Q).
  { replace e with (c + (k + (e1 - 53 - e2))) by lia.
    replace (e1 - 53 - e2) with ((e1 - 53) + - e2) by lia.
    rewrite !inject_Z_mult, !pow2_add, !pow2_Q by lia.
    rewrite Qpower_opp. field. apply Qpower_not_0. exact two_neq_0. }
  assert (HB : (inject_Z (Z.pos m1) * 2 ^ e1
                == inject_Z (Z.pos m1 * 2 ^ 53) * 2 ^ (e1 - 53))%Q).
  { replace e1 with (53 + (e1 - 53)) at 1 by lia.
    rewrite inject_Z_mult, pow2_add, pow2_Q by lia. ring. }
  rewrite HA, HB.
  apply relative_bounds; [|apply Qlt_le_weak; apply pow2_Qpos].
  assert (HW : 0 < 2 ^ k * Z.pos m2) by (destruct Hk as [-> | ->]; lia).
  rewrite <- !Z.mul_assoc in Bq.
  remember (2 ^ k * Z.pos m2) as W. remember (Z.pos m * 2 ^ c) as T.
  remember (Z.pos m1 * 2 ^ 53) as B.
  change (2 ^ 52) with 4503599627370496 in *.
  change (2 ^ 53) with 9007199254740992 in *.
  assert (H1 : t * W <= T * W) by nia.
  assert (H2 : T * W <= t * W + W) by nia.
  assert (H3 : 4503599627370496 * W <= t * W) by nia.
  split; nia.
Qed.

End DoubleBounds.

(** *** An amount scaled by a factor

    [static_cast<uint64_t>(n * y)]: the amount is converted, the product
    is rounded and the result is truncated. *)

Module ScaledAmount.
Import Double DoubleFacts DoubleBounds.

Lemma normal_inv y :
  normal y = true ->
  exists m e, y = S754_finite false m e /\ Z.pos (digits2_pos m) = 53 /\ -1074 <= e <= 971.
Proof.
  destruct y as [s|s| |[] m e]; try discriminate. cbn [normal]. intros H.
  apply andb_prop in H as [H H3]. apply andb_prop in H as [H1 H2].
  apply Z.eqb_eq in H1. apply Z.leb_le in H2, H3.
  exists m, e. repeat split; assumption.
Qed.

Lemma normal_is_valid y : normal y = true -> valid y = true /\ is_finite y = true.
Proof.
  intros H. destruct (normal_inv y H) as (m & e & -> & Hd & He).
  split; [|reflexivity]. apply normal_valid; [exact Hd|].
  unfold emin, prec, emax. lia.
Qed.

Lemma normal_positive y : normal y = true -> (0 < value y)%Q.
Proof.
  intros H. destruct (normal_inv y H) as (m & e & -> & _).
  exact (value_sign false m e).
Qed.

(** A normal double below 2^64 has a small exponent. *)
Lemma normal_exponent m e :
  Z.pos (digits2_pos m) = 53 ->
  (value (S754_finite false m e) < inject_Z two64)%Q -> e < 12.
Proof.
  intros Hd Hlt.
  pose proof (digits2_pos_bounds m) as [L _]. rewrite Hd in L.
  change (2 ^ (53 - 1)) with (2 ^ 52) in L.
  destruct (Z.lt_ge_cases e 12) as [|Hge]; [assumption|exfalso].
  rewrite value_pow2 in Hlt. cbn [signed] in Hlt.
  assert (H12 : (2 ^ 12 <= 2 ^ e)%Q) by (apply Qpower_le_compat_l; [lia|discriminate]).
  rewrite Zle_Qle in L.
  change (inject_Z (2 ^ 52)) with (4503599627370496 # 1)%Q in L.
  change (inject_Z two64) with (18446744073709551616 # 1)%Q in Hlt.
  change (2 ^ 12)%Q with (4096 # 1)%Q in H12.
  pose proof (pow2_Qpos e).
  nra.
Qed.

Lemma floor_bounds (x : Q) : (x - 1 < inject_Z (Qfloor x) <= x)%Q.
Proof.
  split.
  - pose proof (Qlt_floor x) as H.
    rewrite inject_Z_plus in H. change (inject_Z 1) with 1%Q in H. lra.
  - apply Qfloor_le.
Qed.

(** The truncated product is the exact product, up to two roundings and
    the fraction dropped. *)
Lemma scaled_amount n y :
  0 <= n < 2 ^ 64 -> normal y = true ->
  (inject_Z n * value y * (1 + one_ulp) * (1 + one_ulp) < inject_Z two64)%Q ->
  exists r,
    to_uint64 (mul (of_uint64 n) y) = Some r /\ 0 <= r < 2 ^ 64 /\
    (inject_Z n * value y * (1 - one_ulp) * (1 - one_ulp) - 1 < inject_Z r
     <= inject_Z n * value y * (1 + one_ulp) * (1 + one_ulp))%Q.
Proof.
  intros [Hn Hlt] Hy Hfit.
  pose proof (normal_positive y Hy) as Hpos.
  destruct (normal_inv y Hy) as (my & ey & -> & Hdy & Hey).
  destruct (Z.eq_dec n 0) as [->|Hn0].
  - (* nothing to scale *)
    exists 0. split; [reflexivity|]. split; [lia|].
    change (inject_Z 0) with 0%Q. unfold one_ulp. split; nra.
  - destruct (of_uint64_bounds n ltac:(lia)) as (mx & ex & Ex & Hdx & Hex & Bx).
    rewrite Ex in Bx |- *.
    pose proof (value_sign false mx ex) as Hx. cbn beta iota in Hx.
    set (X := value (S754_finite false mx ex)) in *.
    set (Y := value (S754_finite false my ey)) in *.
    assert (Hn1 : (1 <= inject_Z n)%Q).
    { change 1%Q with (inject_Z 1). rewrite <- Zle_Qle. lia. }
    (* the factor is below 2^64, hence its exponent is small *)
    assert (HY : (Y < inject_Z two64)%Q).
    { change (inject_Z two64) with (18446744073709551616 # 1)%Q in *.
      unfold one_ulp in Hfit. nra. }
    pose proof (normal_exponent my ey Hdy HY) as Hey'.
    destruct (mul_bounds mx ex my ey Hdx Hdy) as (m & e & E & Hd & He & Bm);
      try (unfold emin, prec, emax; lia).
    fold X Y in Bm. rewrite E.
    set (P := value (S754_finite false m e)) in *.
    pose proof (value_sign false m e) as HP. cbn beta iota in HP. fold P in HP.
    assert (Hup : (P <= inject_Z n * Y * (1 + one_ulp) * (1 + one_ulp))%Q).
    { unfold one_ulp in *. nra. }
    assert (Hdn : (inject_Z n * Y * (1 - one_ulp) * (1 - one_ulp) <= P)%Q).
    { unfold one_ulp in *. nra. }
    assert (HP64 : (P < inject_Z two64)%Q) by (eapply Qle_lt_trans; eassumption).
    exists (Qfloor P).
    split; [apply to_uint64_floor; [reflexivity|apply Qlt_le_weak; exact HP|exact HP64]|].
    pose proof (floor_bounds P) as [F1 F2].
    split.
    + split.
      * change 0 with (Qfloor 0). apply Qfloor_resp_le. apply Qlt_le_weak. exact HP.
      * rewrite Zlt_Qlt. eapply Qle_lt_trans; [exact F2|]. exact HP64.
    + split; [|eapply Qle_trans; eassumption]. lra.
Qed.

End ScaledAmount.

(** *** One minus a tolerance *)

Module OneMinus.
Import Double DoubleFacts DoubleBounds.

(** A tolerance strictly between 0 and 1, as the machine holds it. *)
Lemma below_one_inv s :
  valid s = true -> is_finite s = true -> (0 < value s)%Q -> (value s < 1)%Q ->
  exists m e,
    s = S754_finite false m e /\ -1074 <= e <= -53 /\
    Z.pos m < 2 ^ 53 /\ Z.pos m < 2 ^ (- e).
Proof.
  intros Hv Hf H0 H1.
  destruct s as [sz|si| |ss m e]; try discriminate.
  destruct ss.
  - exfalso. pose proof (value_sign true m e) as Hneg. cbn beta iota in Hneg.
    exact (Qlt_irrefl _ (Qlt_trans _ _ _ H0 Hneg)).
  - exists m, e. split; [reflexivity|].
    unfold valid, valid_binary, bounded in Hv. apply andb_prop in Hv as [Hc _].
    pose proof (canonical_bounds _ _ Hc) as (Le & Dm & Nm).
    unfold emin, prec, emax in Le, Nm.
    pose proof (digits2_pos_bounds m) as [Lm Um].
    assert (Um' : Z.pos m < 2 ^ 53).
    { eapply Z.lt_le_trans; [exact Um|]. apply Z.pow_le_mono_r; lia. }
    (* the value is below one, over the integers *)
    assert (HZ : Z.pos m * 2 ^ (e + 1074) < 2 ^ 1074).
    { assert (Hp : (0 < inject_Z (2 ^ 1074))%Q).
      { replace 0%Q with (inject_Z 0) by reflexivity. rewrite <- Zlt_Qlt.
        apply pow2_pos; lia. }
      apply (Qmult_lt_r _ _ _ Hp) in H1.
      rewrite (value_scale false m e 1074) in H1 by lia.
      rewrite Qmult_1_l in H1. cbn [signed] in H1.
      rewrite <- Zlt_Qlt in H1. exact H1. }
    assert (He : e <= -53).
    { destruct (Z.le_gt_cases e (-53)) as [|G]; [assumption|exfalso].
      specialize (Nm ltac:(lia)). rewrite Nm in Lm.
      change (2 ^ (53 - 1)) with (2 ^ 52) in Lm.
      assert (2 ^ 1022 <= 2 ^ (e + 1074)) by (apply Z.pow_le_mono_r; lia).
      assert (2 ^ 52 * 2 ^ 1022 <= Z.pos m * 2 ^ (e + 1074))
        by (apply Z.mul_le_mono_nonneg; lia).
      rewrite <- Z.pow_add_r in * by lia. change (52 + 1022) with 1074 in *. lia. }
    split; [lia|]. split; [exact Um'|].
    replace 1074 with (- e + (e + 1074)) in HZ at 2 by lia.
    rewrite (Z.pow_add_r 2 (- e) (e + 1074)) in HZ by lia.
    pose proof (pow2_pos (e + 1074) ltac:(lia)).
    pose proof (pow2_pos (- e) ltac:(lia)).
    nia.
Qed.

(** [1.0 - s] is a normal double, one rounding away from the exact
    difference. *)
Lemma sub_one_bounds s :
  valid s = true -> is_finite s = true -> (0 < value s)%Q -> (value s < 1)%Q ->
  normal (sub one s) = true /\
  ((1 - value s) * (1 - one_ulp) <= value (sub one s) <= (1 - value s) * (1 + one_ulp))%Q.
Proof.
  intros Hv Hf H0 H1.
  destruct (below_one_inv s Hv Hf H0 H1) as (ms & es & -> & Hes & Hms & Hlt).
  assert (Hpe : 0 < 2 ^ (- es)) by (apply pow2_pos; lia).
  (* the exact difference, as an integer at the exponent of [s] *)
  assert (Hsub : sub one (S754_finite false ms es)
                 = binary_normalize prec emax (2 ^ (- es) - Z.pos ms) es false).
  { unfold sub, SFsub, one.
    replace (Z.min (-52) es) with es by lia.
    unfold shl_align. rewrite Z.sub_diag.
    destruct (es - -52) as [|k|k] eqn:Ek; try lia.
    cbn [fst cond_Zopp]. rewrite iter_xO_value.
    change (Z.pos 4503599627370496) with (2 ^ 52).
    rewrite <- Z.pow_add_r by lia.
    replace (52 + Z.pos k) with (- es) by lia. reflexivity. }
  rewrite Hsub.
  destruct (2 ^ (- es) - Z.pos ms) as [|pD|pD] eqn:ED; try lia.
  pose proof (digits2_pos_bounds pD) as [LD UD].
  assert (Hd1 : 1 <= Z.pos (digits2_pos pD)) by lia.
  assert (Hd2 : Z.pos (digits2_pos pD) <= - es) by (apply digits2_pos_le; lia).
  assert (Hd3 : -1021 <= es + Z.pos (digits2_pos pD)).
  { destruct (Z.le_gt_cases (-1022) es) as [|G]; [lia|].
    assert (- es <= Z.pos (digits2_pos pD)); [|lia].
    apply digits2_pos_ge.
    assert (2 ^ 53 <= 2 ^ (- es - 1)) by (apply Z.pow_le_mono_r; lia).
    replace (- es) with (1 + (- es - 1)) in ED by lia.
    rewrite Z.pow_add_r in ED by lia. change (2 ^ 1) with 2 in ED. lia. }
  destruct (normalize_bounds pD es) as (m & e & E & Hd & He & Hb);
    try (unfold emin, prec, emax; lia).
  rewrite E. split.
  - cbn [normal]. rewrite Hd, Z.eqb_refl.
    replace (-1074 <=? e) with true by (symmetry; apply Z.leb_le; lia).
    replace (e <=? 971) with true by (symmetry; apply Z.leb_le; lia).
    reflexivity.
  - rewrite !value_pow2. cbn [signed].
    assert (HA : (inject_Z (Z.pos pD) * 2 ^ es == 1 - inject_Z (Z.pos ms) * 2 ^ es)%Q).
    { rewrite <- ED. unfold Z.sub. rewrite inject_Z_plus, inject_Z_opp, pow2_Q by lia.
      rewrite Qpower_opp. field. apply Qpower_not_0. exact two_neq_0. }
    rewrite HA in Hb. exact Hb.
Qed.

End OneMinus.

(** ** The price check away from the limit *)

Import DoubleBounds ScaledAmount OneMinus.

(** The computed rate, times the exact input amount, is the exact quote up
    to three roundings. *)
Lemma rate_bounds q a :
  0 <= q < 2 ^ 64 -> 0 < a < 2 ^ 64 ->
  (0 <= Double.value (Double.div (Double.of_uint64 q) (Double.of_uint64 a)))%Q /\
  (inject_Z q * (1 - one_ulp) * (1 - one_ulp)
   <= Double.value (Double.div (Double.of_uint64 q) (Double.of_uint64 a))
      * inject_Z a * (1 + one_ulp))%Q /\
  (Double.value (Double.div (Double.of_uint64 q) (Double.of_uint64 a))
     * inject_Z a * (1 - one_ulp)
   <= inject_Z q * (1 + one_ulp) * (1 + one_ulp))%Q.
Proof.
  intros Hq Ha.
  assert (Ha0 : (0 < inject_Z a)%Q).
  { change 0%Q with (inject_Z 0). rewrite <- Zlt_Qlt. lia. }
  destruct (of_uint64_bounds a Ha) as (m2 & e2 & E2 & D2 & B2 & V2).
  rewrite E2 in V2 |- *.
  destruct (Z.eq_dec q 0) as [->|Hq0].
  - change (Double.div (Double.of_uint64 0) (S754_finite false m2 e2))
      with (S754_zero false).
    change (Double.value (S754_zero false)) with 0%Q.
    change (inject_Z 0) with 0%Q.
    split; [apply Qle_refl|]. split; apply Qle_lteq; right; ring.
  - destruct (of_uint64_bounds q ltac:(lia)) as (m1 & e1 & E1 & D1 & B1 & V1).
    rewrite E1 in V1 |- *.
    destruct (div_bounds m1 e1 m2 e2 D1 D2) as (m & e & E & D & Be & V);
      try (unfold emin, Double.prec, Double.emax; lia).
    rewrite E.
    pose proof (value_sign false m e) as HR. cbn beta iota in HR.
    pose proof (value_sign false m2 e2) as HN. cbn beta iota in HN.
    assert (Hq1 : (0 < inject_Z q)%Q).
    { change 0%Q with (inject_Z 0). rewrite <- Zlt_Qlt. lia. }
    set (R := Double.value (S754_finite false m e)) in *.
    set (Na := Double.value (S754_finite false m2 e2)) in *.
    set (Nq := Double.value (S754_finite false m1 e1)) in *.
    split; [apply Qlt_le_weak; exact HR|].
    unfold one_ulp in *. split; nra.
Qed.

Lemma isPriceMet_above o q :
  0 <= q < 2 ^ 64 -> 0 < input_amount o < 2 ^ 64 ->
  Double.is_finite (limit_price o) = true -> Double.valid (limit_price o) = true ->
  (Double.value (limit_price o) * inject_Z (input_amount o) * (1 + tolerance)
   <= inject_Z q)%Q ->
  isPriceMet o q = true.
Proof.
  intros Hq Hi Hf Hv Hle.
  apply (isPriceMet_value o q Hq Hi Hf Hv).
  destruct (rate_bounds q (input_amount o) Hq Hi) as (HR & Hlo & Hhi).
  assert (Ha0 : (0 < inject_Z (input_amount o))%Q).
  { change 0%Q with (inject_Z 0). rewrite <- Zlt_Qlt. lia. }
  set (R := Double.value (Double.div (Double.of_uint64 q)
                                     (Double.of_uint64 (input_amount o)))) in *.
  set (L := Double.value (limit_price o)) in *.
  set (a := inject_Z (input_amount o)) in *.
  destruct (Qlt_le_dec R L) as [Hlt|]; [exfalso|assumption].
  assert (H1 : (R * a < L * a)%Q) by nra.
  assert (H2 : (0 < L * a)%Q) by nra.
  unfold one_ulp, tolerance in *. lra.
Qed.

Lemma isPriceMet_below o q :
  0 <= q < 2 ^ 64 -> 0 < input_amount o < 2 ^ 64 ->
  Double.is_finite (limit_price o) = true -> Double.valid (limit_price o) = true ->
  (inject_Z q * (1 + tolerance)
   < Double.value (limit_price o) * inject_Z (input_amount o))%Q ->
  isPriceMet o q = false.
Proof.
  intros Hq Hi Hf Hv Hlt.
  pose proof (isPriceMet_value o q Hq Hi Hf Hv) as Hiff.
  destruct (rate_bounds q (input_amount o) Hq Hi) as (HR & Hlo & Hhi).
  assert (Ha0 : (0 < inject_Z (input_amount o))%Q).
  { change 0%Q with (inject_Z 0). rewrite <- Zlt_Qlt. lia. }
  assert (Hq0 : (0 <= inject_Z q)%Q).
  { change 0%Q with (inject_Z 0). rewrite <- Zle_Qle. lia. }
  set (R := Double.value (Double.div (Double.of_uint64 q)
                                     (Double.of_uint64 (input_amount o)))) in *.
  set (L := Double.value (limit_price o)) in *.
  set (a := inject_Z (input_amount o)) in *.
  destruct (isPriceMet o q) eqn:E; [exfalso|reflexivity].
  assert (HLR : (L <= R)%Q) by (apply Hiff; reflexivity).
  assert (H1 : (L * a <= R * a)%Q) by nra.
  unfold one_ulp, tolerance in *. lra.
Qed.

(** X25.  Away from the limit the price check is the exact comparison.
    For amounts of 64 bits and a finite limit price: a quote of at least
    [limit_price * input_amount * (1 + 2^-50)] is accepted, and a quote
    [q] with [q * (1 + 2^-50) < limit_price * input_amount] is refused.
    The roundings of the two conversions and of the division can change
    the answer only within that relative distance of the limit. *)
Theorem isPriceMet_away_from_limit (o : LimitOrder) (q : Z) :
  0 <= q < 2 ^ 64 -> 0 < input_amount o < 2 ^ 64 ->
  Double.is_finite (limit_price o) = true -> Double.valid (limit_price o) = true ->
  ((Double.value (limit_price o) * inject_Z (input_amount o) * (1 + tolerance)
    <= inject_Z q)%Q ->
   isPriceMet o q = true) /\
  ((inject_Z q * (1 + tolerance)
    < Double.value (limit_price o) * inject_Z (input_amount o))%Q ->
   isPriceMet o q = false).
Proof.
  intros Hq Hi Hf Hv. split.
  - apply isPriceMet_above; assumption.
  - apply isPriceMet_below; assumption.
Qed.

(** At limit 1.5 and input 1,000,000: a quote of 1,500,001 is accepted, a
    quote of 1,499,999 is refused. *)
Lemma isPriceMet_away_from_limit_witness :
  isPriceMet (sample_order GTC 1000000 (Double.literal 3 2)) 1500001 = true /\
  isPriceMet (sample_order GTC 1000000 (Double.literal 3 2)) 1499999 = false.
Proof.
  assert (Hi : 0 < input_amount (sample_order GTC 1000000 (Double.literal 3 2)) < 2 ^ 64)
    by (vm_compute; split; reflexivity).
  assert (Hf : Double.is_finite
                 (limit_price (sample_order GTC 1000000 (Double.literal 3 2))) = true)
    by (vm_compute; reflexivity).
  assert (Hv : Double.valid
                 (limit_price (sample_order GTC 1000000 (Double.literal 3 2))) = true)
    by (vm_compute; reflexivity).
  split.
  - assert (Hq : 0 <= 1500001 < 2 ^ 64) by (vm_compute; split; [discriminate|reflexivity]).
    apply (proj1 (isPriceMet_away_from_limit _ 1500001 Hq Hi Hf Hv)).
    vm_compute. discriminate.
  - assert (Hq : 0 <= 1499999 < 2 ^ 64) by (vm_compute; split; [discriminate|reflexivity]).
    apply (proj2 (isPriceMet_away_from_limit _ 1499999 Hq Hi Hf Hv)).
    vm_compute. reflexivity.
Defined.

(** ** Scaled amounts: minimum output, slippage floor, mock quote *)

Lemma amount_nonneg n : 0 <= n -> (0 <= inject_Z n)%Q.
Proof. intros H. change 0%Q with (inject_Z 0). rewrite <- Zle_Qle. exact H. Qed.

Lemma amount_below n : n < 2 ^ 64 -> (inject_Z n <= 18446744073709551615 # 1)%Q.
Proof.
  intros H. change (18446744073709551615 # 1)%Q with (inject_Z (2 ^ 64 - 1)).
  rewrite <- Zle_Qle. lia.
Qed.

(** X26.  The minimum output that the constructor computes is the exact
    product [input_amount * limit_price] up to the two roundings and the
    truncation: for a 64-bit amount and a positive normal limit price
    whose product stays below 2^64 with a margin of 2^-50, the order is
    built and [min_output_amount] lies within a relative 2^-50 of the
    exact product, less at most one unit. *)
Theorem min_output_amount_accuracy now id input_token output_token input_amt
    limit_rate slippage tif user_addr priv_key :
  0 <= input_amt < 2 ^ 64 -> normal limit_rate = true ->
  (inject_Z input_amt * Double.value limit_rate * (1 + tolerance) < inject_Z two64)%Q ->
  exists o,
    new_LimitOrder now id input_token output_token input_amt limit_rate slippage tif
                   user_addr priv_key = Some o /\
    0 <= min_output_amount o < 2 ^ 64 /\
    (inject_Z input_amt * Double.value limit_rate * (1 - tolerance) - 1
     < inject_Z (min_output_amount o)
     <= inject_Z input_amt * Double.value limit_rate * (1 + tolerance))%Q.
Proof.
  intros Hn Hy Hfit.
  pose proof (normal_positive _ Hy) as Hpos.
  pose proof (amount_nonneg input_amt ltac:(lia)) as Hn0.
  assert (HX : (0 <= inject_Z input_amt * Double.value limit_rate)%Q) by nra.
  destruct (scaled_amount input_amt limit_rate Hn Hy) as (r & Er & Hr & Lo & Hi).
  { unfold one_ulp, tolerance in *. nra. }
  unfold new_LimitOrder. rewrite Er.
  eexists. split; [reflexivity|]. cbn [min_output_amount].
  split; [exact Hr|].
  unfold one_ulp, tolerance in *. split; nra.
Qed.

(** One million units at limit 1.02: the minimum output is 1,020,000. *)
Lemma min_output_amount_accuracy_witness :
  exists o,
    new_LimitOrder 0 "ORDER" "0xTokenA" "0xTokenB" 1000000 (Double.literal 102 100)
                   (Double.literal 5 1000) GTC "0xUser" "key" = Some o /\
    0 <= min_output_amount o < 2 ^ 64 /\
    (inject_Z 1000000 * Double.value (Double.literal 102 100) * (1 - tolerance) - 1
     < inject_Z (min_output_amount o)
     <= inject_Z 1000000 * Double.value (Double.literal 102 100) * (1 + tolerance))%Q.
Proof.
  apply min_output_amount_accuracy.
  - vm_compute. split; [discriminate|reflexivity].
  - vm_compute. reflexivity.
  - vm_compute. reflexivity.
Defined.

Lemma slippage_floor o q :
  0 <= q < 2 ^ 64 ->
  Double.valid (slippage_tolerance o) = true ->
  Double.is_finite (slippage_tolerance o) = true ->
  (tolerance <= Double.value (slippage_tolerance o))%Q ->
  (Double.value (slippage_tolerance o) < 1)%Q ->
  exists r,
    getMinOutputWithSlippage o q = Some r /\ 0 <= r <= q /\
    (inject_Z q * (1 - Double.value (slippage_tolerance o)) * (1 - tolerance) - 1
     < inject_Z r
     <= inject_Z q * (1 - Double.value (slippage_tolerance o)) * (1 + tolerance))%Q.
Proof.
  intros Hq Hv Hf Hlo Hhi.
  assert (H0 : (0 < Double.value (slippage_tolerance o))%Q).
  { eapply Qlt_le_trans; [|exact Hlo]. reflexivity. }
  destruct (sub_one_bounds _ Hv Hf H0 Hhi) as (Hy & Ylo & Yhi).
  pose proof (normal_positive _ Hy) as Hpos.
  pose proof (amount_nonneg q ltac:(lia)) as Hq0.
  pose proof (amount_below q ltac:(lia)) as Hq1.
  set (s := Double.value (slippage_tolerance o)) in *.
  set (y := Double.value (Double.sub Double.one (slippage_tolerance o))) in *.
  assert (HX : (0 <= inject_Z q * y)%Q) by nra.
  assert (HS : (0 <= inject_Z q * (1 - s))%Q) by nra.
  assert (HY1 : (inject_Z q * y <= inject_Z q * (1 - s) * (1 + one_ulp))%Q) by nra.
  assert (HY2 : (inject_Z q * (1 - s) * (1 - one_ulp) <= inject_Z q * y)%Q) by nra.
  assert (HS1 : (inject_Z q * (1 - s) <= inject_Z q * (1 - tolerance))%Q) by nra.
  destruct (scaled_amount q _ Hq Hy) as (r & Er & Hr & Lo & Hi).
  { fold y. change (inject_Z two64) with (18446744073709551616 # 1)%Q.
    unfold one_ulp, tolerance in *. lra. }
  fold y in Lo, Hi.
  exists r. split; [exact Er|].
  assert (Hrq : (inject_Z r <= inject_Z q)%Q).
  { unfold one_ulp, tolerance in *. lra. }
  rewrite <- Zle_Qle in Hrq.
  split; [lia|].
  unfold one_ulp, tolerance in *. split; lra.
Qed.

(** X27.  The slippage floor never exceeds the quote.  For a 64-bit quote
    [q] and a slippage tolerance [s] that is a double with
    [2^-50 <= s < 1], [getMinOutputWithSlippage] is defined, its result
    is at most [q], and it lies within a relative 2^-50 of the exact
    [q * (1 - s)], less at most one unit. *)
Theorem slippage_floor_below_quote o q :
  0 <= q < 2 ^ 64 ->
  Double.valid (slippage_tolerance o) = true ->
  Double.is_finite (slippage_tolerance o) = true ->
  (tolerance <= Double.value (slippage_tolerance o))%Q ->
  (Double.value (slippage_tolerance o) < 1)%Q ->
  exists r,
    getMinOutputWithSlippage o q = Some r /\ 0 <= r <= q /\
    (inject_Z q * (1 - Double.value (slippage_tolerance o)) * (1 - tolerance) - 1
     < inject_Z r
     <= inject_Z q * (1 - Double.value (slippage_tolerance o)) * (1 + tolerance))%Q.
Proof. exact (slippage_floor o q). Qed.

(** The tolerance 0.005 of [main] and a quote of 1,010,000. *)
Lemma slippage_floor_below_quote_witness :
  exists r,
    getMinOutputWithSlippage (sample_order GTC 1000000 Double.one) 1010000 = Some r /\
    0 <= r <= 1010000 /\
    (inject_Z 1010000
       * (1 - Double.value (slippage_tolerance (sample_order GTC 1000000 Double.one)))
       * (1 - tolerance) - 1
     < inject_Z r
     <= inject_Z 1010000
        * (1 - Double.value (slippage_tolerance (sample_order GTC 1000000 Double.one)))
        * (1 + tolerance))%Q.
Proof.
  apply slippage_floor_below_quote.
  - vm_compute. split; [discriminate|reflexivity].
  - vm_compute. reflexivity.
  - vm_compute. reflexivity.
  - vm_compute. discriminate.
  - vm_compute. reflexivity.
Defined.

(** *** Mock pricing *)

Lemma mock_rate_value :
  ((999 # 1000) * (1 - one_ulp) <= Double.value mock_rate
   <= (999 # 1000) * (1 + one_ulp))%Q.
Proof. vm_compute. split; discriminate. Qed.

Lemma get_dy_mock_bounds dx :
  0 <= dx < 2 ^ 64 ->
  exists q,
    get_dy_mock dx = Some q /\ 0 <= q <= dx /\
    (inject_Z dx * (999 # 1000) * (1 - tolerance) - 1 < inject_Z q
     <= inject_Z dx * (999 # 1000) * (1 + tolerance))%Q.
Proof.
  intros Hdx.
  assert (Hy : normal mock_rate = true) by (vm_compute; reflexivity).
  pose proof mock_rate_value as [Vlo Vhi].
  pose proof (amount_nonneg dx ltac:(lia)) as Hd0.
  pose proof (amount_below dx ltac:(lia)) as Hd1.
  set (v := Double.value mock_rate) in *.
  assert (H1 : (inject_Z dx * v <= inject_Z dx * (999 # 1000) * (1 + one_ulp))%Q) by nra.
  assert (H2 : (inject_Z dx * (999 # 1000) * (1 - one_ulp) <= inject_Z dx * v)%Q) by nra.
  destruct (scaled_amount dx mock_rate Hdx Hy) as (r & Er & Hr & Lo & Hi).
  { fold v. change (inject_Z two64) with (18446744073709551616 # 1)%Q.
    unfold one_ulp in *. lra. }
  fold v in Lo, Hi.
  exists r. split; [exact Er|].
  assert (Hrq : (inject_Z r <= inject_Z dx)%Q).
  { unfold one_ulp in *. lra. }
  rewrite <- Zle_Qle in Hrq.
  split; [lia|].
  unfold one_ulp, tolerance in *. split; lra.
Qed.

(** X28.  The mock price source ([USE_MOCK_PRICING=1]) answers every
    64-bit amount: the quote is defined, it is never above the amount
    asked for, and it is 0.999 times that amount up to a relative 2^-50,
    less at most one unit. *)
Theorem mock_quote_bounds dx :
  0 <= dx < 2 ^ 64 ->
  exists q,
    get_dy_mock dx = Some q /\ 0 <= q <= dx /\
    (inject_Z dx * (999 # 1000) * (1 - tolerance) - 1 < inject_Z q
     <= inject_Z dx * (999 # 1000) * (1 + tolerance))%Q.
Proof. exact (get_dy_mock_bounds dx). Qed.

(** The largest amount, 2^64 - 1. *)
Lemma mock_quote_bounds_witness :
  exists q,
    get_dy_mock 18446744073709551615 = Some q /\ 0 <= q <= 18446744073709551615 /\
    (inject_Z 18446744073709551615 * (999 # 1000) * (1 - tolerance) - 1 < inject_Z q
     <= inject_Z 18446744073709551615 * (999 # 1000) * (1 + tolerance))%Q.
Proof.
  apply mock_quote_bounds. vm_compute. split; [discriminate|reflexivity].
Defined.

(** Under mock pricing no quote for the full amount meets a limit of 1 or
    more. *)
Lemma mock_pricing_unmet env o :
  mock_pricing env ->
  0 <= input_amount o < 2 ^ 64 ->
  Double.is_finite (limit_price o) = true -> Double.valid (limit_price o) = true ->
  (1 <= Double.value (limit_price o))%Q ->
  forall n q,
    get_dy env n (pool_address o) (input_token_index o) (output_token_index o)
           (input_amount o) = Returns q ->
    isPriceMet o q = false.
Proof.
  intros Hmock Ha Hf Hv HL n q G.
  destruct (get_dy_mock_bounds (input_amount o) Ha) as (q0 & Em & Hq0 & Lo & Hi).
  rewrite (Hmock _ _ _ _ _ _ Em) in G. injection G as <-.
  destruct (Z.eq_dec (input_amount o) 0) as [E0|N0].
  - unfold isPriceMet. rewrite E0. reflexivity.
  - apply isPriceMet_below; try assumption; try lia.
    assert (Ha1 : (1 <= inject_Z (input_amount o))%Q).
    { change 1%Q with (inject_Z 1). rewrite <- Zle_Qle. lia. }
    set (L := Double.value (limit_price o)) in *.
    set (a := inject_Z (input_amount o)) in *.
    assert (H1 : (a <= L * a)%Q) by nra.
    unfold tolerance in *. lra.
Qed.

(** X29.  Under mock pricing an order whose limit price is 1 or more is
    never filled.  Whatever the policy, when the strategy returns the
    order is not FILLED, no settlement was submitted, and the filled
    amount, the received amount and the transaction hash are as they
    were.  (The default limit price of [main] is 1.01.) *)
Theorem mock_pricing_never_fills fuel env tif o w o' w' :
  mock_pricing env ->
  0 <= input_amount o < 2 ^ 64 ->
  Double.is_finite (limit_price o) = true -> Double.valid (limit_price o) = true ->
  (1 <= Double.value (limit_price o))%Q ->
  status o = ACTIVE ->
  strategy fuel env tif o w = Done tt o' w' ->
  status o' <> FILLED /\
  swaps w' = swaps w /\
  filled_amount o' = filled_amount o /\
  received_amount o' = received_amount o /\
  transaction_hash o' = transaction_hash o.
Proof.
  intros Hmock Ha Hf Hv HL Hs E.
  pose proof (mock_pricing_unmet env o Hmock Ha Hf Hv HL) as Hno.
  pose proof (strategy_run fuel env tif o w) as K. rewrite E in K.
  destruct K as [[F _]|[(s & C & Hne)|Q]].
  - exfalso. destruct F as (_&_&_&_&P&_&_&_&_&_&_&_&_&k&G).
    rewrite (Hno k _ G) in P. discriminate.
  - destruct (closes_open _ _ _ _ _ _ _ C) as (S&Fa&R&H).
    destruct C as (_&_&_&_&_&_&Rq).
    split; [rewrite S; exact Hne|].
    split; [exact (requests_no_swap _ _ _ _ _ Rq Hno)|].
    repeat split; assumption.
  - destruct (quiet_open _ _ _ _ _ _ Q) as (S&Fa&R&H).
    destruct Q as (_&_&_&_&_&_&_&Rq).
    split; [rewrite S, Hs; discriminate|].
    split; [exact (requests_no_swap _ _ _ _ _ Rq Hno)|].
    repeat split; assumption.
Qed.

Lemma demo_pool_mock_pricing : mock_pricing demo_pool.
Proof. intros n pool i j dx dy H. cbn [get_dy demo_pool]. rewrite H. reflexivity. Qed.

Lemma demo_pool_mock_settlement : mock_settlement demo_pool.
Proof. intros n pool i j dx min_dy. reflexivity. Qed.

(** The default order of [main]: one million units, good till canceled,
    at limit 1.01.  It is canceled after the ten checks of the demo. *)
Lemma mock_pricing_never_fills_witness :
  exists o' w',
    strategy 20 demo_pool GTC (sample_order GTC 1000000 (Double.literal 101 100)) start
      = Done tt o' w' /\
    status o' <> FILLED /\
    swaps w' = swaps start /\
    filled_amount o' = filled_amount (sample_order GTC 1000000 (Double.literal 101 100)) /\
    received_amount o'
      = received_amount (sample_order GTC 1000000 (Double.literal 101 100)) /\
    transaction_hash o'
      = transaction_hash (sample_order GTC 1000000 (Double.literal 101 100)).
Proof.
  destruct (strategy 20 demo_pool GTC (sample_order GTC 1000000 (Double.literal 101 100))
                     start) as [[] o' w'| | |] eqn:E;
    try (vm_compute in E; discriminate).
  exists o', w'. split; [reflexivity|].
  assert (Ha : 0 <= input_amount (sample_order GTC 1000000 (Double.literal 101 100))
               < 2 ^ 64) by (vm_compute; split; [discriminate|reflexivity]).
  assert (Hf : Double.is_finite
                 (limit_price (sample_order GTC 1000000 (Double.literal 101 100))) = true)
    by (vm_compute; reflexivity).
  assert (Hv : Double.valid
                 (limit_price (sample_order GTC 1000000 (Double.literal 101 100))) = true)
    by (vm_compute; reflexivity).
  assert (HL : (1 <= Double.value
                       (limit_price (sample_order GTC 1000000 (Double.literal 101 100))))%Q)
    by (vm_compute; discriminate).
  assert (Hs : status (sample_order GTC 1000000 (Double.literal 101 100)) = ACTIVE)
    by (vm_compute; reflexivity).
  exact (mock_pricing_never_fills 20 demo_pool GTC _ start o' w'
           demo_pool_mock_pricing Ha Hf Hv HL Hs E).
Defined.

(** Under mock pricing a quote for 1001 units or more meets every limit
    up to 0.998. *)
Lemma mock_pricing_met o q :
  get_dy_mock (input_amount o) = Some q ->
  1001 <= input_amount o < 2 ^ 64 ->
  Double.is_finite (limit_price o) = true -> Double.valid (limit_price o) = true ->
  (Double.value (limit_price o) <= 998 # 1000)%Q ->
  isPriceMet o q = true.
Proof.
  intros Em Ha Hf Hv HL.
  destruct (get_dy_mock_bounds (input_amount o) ltac:(lia)) as (q0 & Em' & Hq0 & Lo & Hi).
  rewrite Em in Em'. injection Em' as <-.
  apply isPriceMet_above; try assumption; try lia.
  assert (Ha1 : (1001 # 1 <= inject_Z (input_amount o))%Q).
  { change (1001 # 1)%Q with (inject_Z 1001). rewrite <- Zle_Qle. lia. }
  set (L := Double.value (limit_price o)) in *.
  set (a := inject_Z (input_amount o)) in *.
  assert (H1 : (L * a <= (998 # 1000) * a)%Q) by nra.
  unfold tolerance in *. lra.
Qed.

(** X30.  Under mock pricing, with settlements that are not sent, an
    order of 1001 units or more whose limit price is at most 0.998 is
    filled at the first price check, under GTC as under IOC: the
    strategy returns with the order FILLED, its received amount the mock
    quote, its transaction hash the placeholder hash, and the one
    settlement submitted asks for the full amount with the slippage floor
    of the quote, which does not exceed the quote. *)
Theorem mock_pricing_fills fuel env o w :
  mock_pricing env -> mock_settlement env ->
  1001 <= input_amount o < 2 ^ 64 ->
  normal (limit_price o) = true ->
  (Double.value (limit_price o) <= 998 # 1000)%Q ->
  Double.valid (slippage_tolerance o) = true ->
  Double.is_finite (slippage_tolerance o) = true ->
  (tolerance <= Double.value (slippage_tolerance o))%Q ->
  (Double.value (slippage_tolerance o) < 1)%Q ->
  status o = ACTIVE -> tif_policy o = GTC \/ tif_policy o = IOC -> (0 < fuel)%nat ->
  exists o' w' q min_dy,
    strategy fuel env (tif_policy o) o w = Done tt o' w' /\
    get_dy_mock (input_amount o) = Some q /\
    getMinOutputWithSlippage o q = Some min_dy /\
    min_dy <= q <= input_amount o /\
    status o' = FILLED /\
    filled_amount o' = input_amount o /\
    received_amount o' = q /\
    transaction_hash o' = mock_tx_hash /\
    swaps w' = Swapped (pool_address o) (input_token_index o) (output_token_index o)
                       (input_amount o) min_dy :: swaps w.
Proof.
  intros Hmock Hset Ha HnL HL Hsv Hsf Hslo Hshi Hs Ht Hfuel.
  destruct (normal_is_valid _ HnL) as [Hv Hf].
  destruct (get_dy_mock_bounds (input_amount o) ltac:(lia)) as (q & Em & Hq & Lo & Hi).
  pose proof (mock_pricing_met o q Em Ha Hf Hv HL) as Hmet.
  destruct (slippage_floor o q ltac:(lia) Hsv Hsf Hslo Hshi) as (min_dy & Emin & Hmin & _).
  pose proof (fun n => Hmock n (pool_address o) (input_token_index o)
                             (output_token_index o) _ _ Em) as Hquote.
  exists (updateStatus FILLED ""
            (set_received_amount q
               (set_filled_amount (input_amount o)
                  (set_transaction_hash mock_tx_hash
                     (set_price_check (now env (S (tick w))) q o))))).
  destruct Ht as [Ht|Ht]; rewrite Ht; cbn [strategy].
  - (* good till canceled: the first turn of the loop *)
    destruct fuel as [|fuel]; [lia|].
    eexists _, q, min_dy.
    split.
    { unfold executeGTC. cbn [executeGTC_loop]. mrun.
      rewrite Hs. cbn [OrderStatus_eqb]. mrun. rewrite Ht. cbn [TimeInForce_eqb]. mrun.
      change (0 <? max_checks) with true. mrun.
      unfold executeGTC_body. mrun. rewrite Hquote. mrun.
      fold_terms. rewrite Hmet. mrun. fold_terms. rewrite Emin. mrun.
      rewrite Hset. mrun. reflexivity. }
    split; [exact Em|]. split; [exact Emin|]. split; [lia|].
    unfold updateStatus, swaps. cbn. repeat split; reflexivity.
  - (* immediate or cancel *)
    pose proof (normal_positive _ HnL) as Hpos.
    pose proof (amount_nonneg (input_amount o) ltac:(lia)) as Ha0.
    pose proof (amount_below (input_amount o) ltac:(lia)) as Ha1.
    destruct (scaled_amount (input_amount o) (limit_price o) ltac:(lia) HnL)
      as (expected & Eexp & _).
    { change (inject_Z two64) with (18446744073709551616 # 1)%Q.
      set (L := Double.value (limit_price o)) in *.
      set (a := inject_Z (input_amount o)) in *.
      assert (H1 : (a * L <= a * (998 # 1000))%Q) by nra.
      assert (H2 : (0 <= a * L)%Q) by nra.
      unfold one_ulp. lra. }
    eexists _, q, min_dy.
    split.
    { unfold executeIOC. mrun. rewrite Hquote. mrun. rewrite Eexp. mrun.
      fold_terms. rewrite Hmet. mrun. fold_terms. rewrite Emin. mrun.
      rewrite Hset. mrun. reflexivity. }
    split; [exact Em|]. split; [exact Emin|]. split; [lia|].
    unfold updateStatus, swaps. cbn. repeat split; reflexivity.
Qed.

(** One million units, immediate or cancel, at limit 0.95 and the
    tolerance 0.005 of [main]. *)
Lemma mock_pricing_fills_witness :
  exists o' w' q min_dy,
    strategy 1 demo_pool (tif_policy (sample_order IOC 1000000 (Double.literal 95 100)))
             (sample_order IOC 1000000 (Double.literal 95 100)) start = Done tt o' w' /\
    get_dy_mock (input_amount (sample_order IOC 1000000 (Double.literal 95 100))) = Some q /\
    getMinOutputWithSlippage (sample_order IOC 1000000 (Double.literal 95 100)) q
      = Some min_dy /\
    min_dy <= q <= input_amount (sample_order IOC 1000000 (Double.literal 95 100)) /\
    status o' = FILLED /\
    filled_amount o' = input_amount (sample_order IOC 1000000 (Double.literal 95 100)) /\
    received_amount o' = q /\
    transaction_hash o' = mock_tx_hash /\
    swaps w'
    = Swapped (pool_address (sample_order IOC 1000000 (Double.literal 95 100)))
              (input_token_index (sample_order IOC 1000000 (Double.literal 95 100)))
              (output_token_index (sample_order IOC 1000000 (Double.literal 95 100)))
              (input_amount (sample_order IOC 1000000 (Double.literal 95 100))) min_dy
      :: swaps start.
Proof.
  apply (mock_pricing_fills 1 demo_pool (sample_order IOC 1000000 (Double.literal 95 100))
           start demo_pool_mock_pricing demo_pool_mock_settlement).
  - vm_compute. split; [discriminate|reflexivity].
  - vm_compute. reflexivity.
  - vm_compute. discriminate.
  - vm_compute. reflexivity.
  - vm_compute. reflexivity.
  - vm_compute. discriminate.
  - vm_compute. reflexivity.
  - vm_compute. reflexivity.
  - right. vm_compute. reflexivity.
  - lia.
Defined.
